(** * scripts/build/command.py: line buffering and command execution

    A shallow embedding of the classes [LineBuffer] and [Command] of
    [scripts/build/command.py], and the properties of the line
    reassembly, of the drain loop and of the three execution modes
    ([run], [check], [eval]) stated against it.

    Python values are modelled as follows.
    - [bytes] is [list byte]; [str] is [string], holding the UTF-8
      encoding of the text, so that [bytes.decode("utf-8")] is a validity
      check followed by a change of type, and [+], [join] and f-strings
      are concatenations.
    - [int] is [Z].
    - Objects that are mutated and shared (the log, the streams, the
      descriptors and the pipes of the operating system) live in a
      [World]; a method is a function from the state to an [outcome] and
      the new state, an exception being one of the outcomes. *)

From Stdlib Require Import Strings.String Strings.Ascii Strings.Byte.
From Stdlib Require Import Numbers.DecimalString.
From Stdlib Require Import List ZArith NArith Lia Bool Arith.
From Equations Require Import Equations.
From Equations.Prop Require Import Logic.
Import ListNotations.

Open Scope Z_scope.

(** ** Bytes *)

Definition bytes := list byte.

(** The line separator, [b"\n"]. *)
Definition NL : byte := x0a.

(** Truth value of a [bytes] object: empty is false. *)
Definition truthy (data : bytes) : bool :=
  match data with
  | [] => false
  | _ :: _ => true
  end.

(** [data.find(sub)] for a one-byte [sub]: the index of the first
    occurrence, [-1] when there is none. *)
Fixpoint find_from (sub : byte) (data : bytes) (start : Z) : Z :=
  match data with
  | [] => -1
  | c :: rest => if Byte.eqb c sub then start else find_from sub rest (start + 1)
  end.

Definition find (data : bytes) (sub : byte) : Z := find_from sub data 0.

(** The slices [data[0:index]] and [data[index:]], for [index >= 0]. *)
Definition slice_to (data : bytes) (index : Z) : bytes :=
  firstn (Z.to_nat index) data.

Definition slice_from (data : bytes) (index : Z) : bytes :=
  skipn (Z.to_nat index) data.

(** ** UTF-8

    [utf8_valid] accepts the well-formed byte sequences of the Unicode
    standard (table 3-7): no overlong form, no surrogate, nothing above
    U+10FFFF.  This is what the strict decoder of Python accepts. *)

Definition byte_in (lo hi : N) (b : byte) : bool :=
  (N.leb lo (Byte.to_N b) && N.leb (Byte.to_N b) hi)%bool.

Definition continuation : byte -> bool := byte_in 0x80 0xBF.

(** Second byte of a three-byte form, given the first. *)
Definition second_of_three (b0 b1 : byte) : bool :=
  if byte_in 0xE0 0xE0 b0 then byte_in 0xA0 0xBF b1
  else if byte_in 0xED 0xED b0 then byte_in 0x80 0x9F b1
  else continuation b1.

(** Second byte of a four-byte form, given the first. *)
Definition second_of_four (b0 b1 : byte) : bool :=
  if byte_in 0xF0 0xF0 b0 then byte_in 0x90 0xBF b1
  else if byte_in 0xF4 0xF4 b0 then byte_in 0x80 0x8F b1
  else continuation b1.

Fixpoint utf8_valid (data : bytes) : bool :=
  match data with
  | [] => true
  | b0 :: r0 =>
      if byte_in 0x00 0x7F b0 then utf8_valid r0
      else
        match r0 with
        | [] => false
        | b1 :: r1 =>
            if byte_in 0xC2 0xDF b0 then continuation b1 && utf8_valid r1
            else
              match r1 with
              | [] => false
              | b2 :: r2 =>
                  if byte_in 0xE0 0xEF b0 then
                    second_of_three b0 b1 && continuation b2 && utf8_valid r2
                  else
                    match r2 with
                    | [] => false
                    | b3 :: r3 =>
                        byte_in 0xF0 0xF4 b0 && second_of_four b0 b1
                        && continuation b2 && continuation b3 && utf8_valid r3
                    end
              end
        end
  end%bool.

(** [data.decode("utf-8")]: [None] stands for [UnicodeDecodeError]. *)
Definition decode (data : bytes) : option string :=
  if utf8_valid data then Some (string_of_list_byte data) else None.

(** ** Exceptions and outcomes *)

Inductive exn : Type :=
| OSError
| UnicodeDecodeError
| ValueError
| UnsupportedOperation
| AttributeError
| TypeError
| Exception (msg : string).

(** What a call does: it returns a value, raises, or never returns
    ([Blocked]: the child never exits, or the model's fuel ran out). *)
Inductive outcome (A : Type) : Type :=
| Ok (a : A)
| Raise (e : exn)
| Blocked.

Arguments Ok {A} a.
Arguments Raise {A} e.
Arguments Blocked {A}.

(** Computations over a state [S]. *)
Definition M (S A : Type) : Type := S -> outcome A * S.

Definition ret {S A : Type} (a : A) : M S A := fun s => (Ok a, s).

Definition bind {S A B : Type} (m : M S A) (k : A -> M S B) : M S B :=
  fun s =>
    match m s with
    | (Ok a, s') => k a s'
    | (Raise e, s') => (Raise e, s')
    | (Blocked, s') => (Blocked, s')
    end.

Definition raise {S A : Type} (e : exn) : M S A := fun s => (Raise e, s).

Definition get {S : Type} : M S S := fun s => (Ok s, s).

Definition modify {S : Type} (f : S -> S) : M S unit := fun s => (Ok tt, f s).

(** [try: body finally: handler].  The handler runs when the body
    returns and when it raises; an exception of the handler replaces the
    outcome of the body. *)
Definition try_finally {S A : Type} (body : M S A) (handler : M S unit) : M S A :=
  fun s =>
    match body s with
    | (Blocked, s') => (Blocked, s')
    | (r, s') =>
        match handler s' with
        | (Ok _, s'') => (r, s'')
        | (Raise e, s'') => (Raise e, s'')
        | (Blocked, s'') => (Blocked, s'')
        end
    end.

(** A computation on a component of the state. *)
Definition zoom {S T A : Type} (proj : S -> T) (upd : T -> S -> S)
    (m : M T A) : M S A :=
  fun s => let (r, t) := m (proj s) in (r, upd t s).

Declare Scope monad_scope.
Delimit Scope monad_scope with monad.
Notation "x <- m ;; k" := (bind m (fun x => k))
  (at level 61, m at next level, right associativity) : monad_scope.
Notation "m ;; k" := (bind m (fun _ => k))
  (at level 61, right associativity) : monad_scope.
Open Scope monad_scope.

(** ** The world: log, streams, descriptors, pipes *)

(** Modes of [open]: ["rb"] and ["wb"]. *)
Inductive Mode : Type := Rb | Wb.

(** A binary stream object: what [open] returns, and what a caller may
    hand to [LineBuffer] as its stream.  [f_data] is what has been
    written through this object; what the file behind it holds besides,
    and what another object opened on the same file does to it, is not
    modelled. *)
Record FileObj : Type := mkFileObj {
  f_name : string;
  f_mode : Mode;
  f_closed : bool;
  f_data : bytes
}.

(** One of the two captured streams of the child. *)
Inductive Which : Type := Out | Err.

(** A pipe of the operating system: its two descriptors and the bytes
    written to it and not read yet. *)
Record Pipe : Type := mkPipe {
  p_reader : nat;
  p_writer : nat;
  p_data : bytes
}.

(** The calls [_run] and [eval] make on the operating system and on the
    line buffers; the world keeps them in the order they are made. *)
Inductive Event : Type :=
| EPipe (reader writer : nat)
| ESelector
| ERegister (fd : nat) (data : Which)
| EPopen (args : list string)
| ESelect (ready : list Which)
| EAvailable (fd : nat) (count : Z)
| ERead (fd : nat) (data : bytes)
| EWrite (buf : Which) (data : bytes)
| EPoll (returncode : option Z)
| ESelectorClose
| EWait (returncode : Z)
| EClose (fd : nat)
| EFlush (buf : Which)
| ECommunicate.

Record World : Type := mkWorld {
  log : list string;        (* the records of [log.info], oldest first *)
  files : list FileObj;     (* the stream objects; a stream is its index *)
  fds : list nat;           (* the open descriptors of the pipes *)
  pipes : list Pipe;        (* the pipes, newest first *)
  trace : list Event        (* the calls made so far, oldest first *)
}.

Definition set_log (l : list string) (w : World) : World :=
  mkWorld l (files w) (fds w) (pipes w) (trace w).
Definition set_files (fs : list FileObj) (w : World) : World :=
  mkWorld (log w) fs (fds w) (pipes w) (trace w).
Definition set_fds (ds : list nat) (w : World) : World :=
  mkWorld (log w) (files w) ds (pipes w) (trace w).
Definition set_pipes (ps : list Pipe) (w : World) : World :=
  mkWorld (log w) (files w) (fds w) ps (trace w).
Definition set_trace (t : list Event) (w : World) : World :=
  mkWorld (log w) (files w) (fds w) (pipes w) t.

(** [log.info(msg)]. *)
Definition info (msg : string) : M World unit :=
  modify (fun w => set_log (log w ++ [msg]) w).

(** Replace the element at [n], leaving a shorter list alone. *)
Fixpoint update_nth {A : Type} (n : nat) (f : A -> A) (l : list A) : list A :=
  match l, n with
  | [], _ => []
  | x :: rest, O => f x :: rest
  | x :: rest, S n' => x :: update_nth n' f rest
  end.

Definition append_data (data : bytes) (f : FileObj) : FileObj :=
  mkFileObj (f_name f) (f_mode f) (f_closed f) (f_data f ++ data).

(** [stream.write(data)].  A stream opened for reading has no [write];
    a closed one refuses it.  A handle that names no stream behaves as a
    closed one. *)
Definition stream_write (stream : nat) (data : bytes) : M World unit :=
  fun w =>
    match nth_error (files w) stream with
    | None => (Raise ValueError, w)
    | Some f =>
        match f_mode f with
        | Rb => (Raise UnsupportedOperation, w)
        | Wb =>
            if f_closed f then (Raise ValueError, w)
            else (Ok tt, set_files (update_nth stream (append_data data) (files w)) w)
        end
    end.

(** ** io.BytesIO *)

Record BytesIO : Type := mkBytesIO {
  bio_value : bytes;
  bio_pos : nat
}.

Definition BytesIO_new : BytesIO := mkBytesIO [] 0.

Definition getvalue (b : BytesIO) : bytes := bio_value b.

(** [truncate(size)]: the stream is cut to at most [size] bytes; the
    position is not moved. *)
Definition truncate (size : nat) (b : BytesIO) : BytesIO :=
  mkBytesIO (firstn size (bio_value b)) (bio_pos b).

(** [seek(offset, io.SEEK_SET)]. *)
Definition seek (offset : nat) (b : BytesIO) : BytesIO :=
  mkBytesIO (bio_value b) offset.

(** [write(data)]: the bytes are written at the position, over what is
    there and beyond the end, after zeros when the position is past the
    end; the position moves past them. *)
Definition bio_write (data : bytes) (b : BytesIO) : BytesIO :=
  let v := bio_value b in
  let p := bio_pos b in
  mkBytesIO
    (firstn p v ++ repeat x00 (p - length v) ++ data ++ skipn (p + length data) v)
    (p + length data).

(** ** LineBuffer *)

(** The fields of a [LineBuffer].  [_log] is a reference to the log,
    which lives in the world; [_stream] is [None] or a stream. *)
Record LineBuffer : Type := mkLineBuffer {
  _stream : option nat;
  _buffer : BytesIO
}.

(** [LineBuffer(log, stream)]. *)
Definition LineBuffer_init (stream : option nat) : LineBuffer :=
  mkLineBuffer stream BytesIO_new.

Definition set_buffer (b : BytesIO) (self : LineBuffer) : LineBuffer :=
  mkLineBuffer (_stream self) b.

(** [LineBuffer._write_line]. *)
Definition _write_line (self : LineBuffer) (line : bytes) : M World unit :=
  match _stream self with
  | Some stream =>
      stream_write stream line ;;
      stream_write stream [NL]
  | None =>
      match decode line with
      | Some text => info text
      | None => raise UnicodeDecodeError
      end
  end.

(** The body of the loop of [write] once a separator was found: the
    pending bytes, if any, are put before the line and the buffer is
    reset; then the line is written. *)
Definition write_found (line : bytes) : M (LineBuffer * World) unit :=
  fun '(self, w) =>
    let pending := getvalue (_buffer self) in
    let '(line, self) :=
      if truthy pending
      then (pending ++ line, set_buffer (seek 0 (truncate 0 (_buffer self))) self)
      else (line, self) in
    let (r, w') := _write_line self line w in
    (r, (self, w')).

(** The loop of [write]: it returns the data left after the last
    separator. *)
Equations? write_loop (data : bytes) (s : LineBuffer * World)
  : outcome bytes * (LineBuffer * World) by wf (length data) lt :=
  write_loop data s with inspect (find data NL) := {
    | exist _ index Hfind with inspect (index =? -1) := {
      | exist _ true _ => (Ok data, s)
      | exist _ false Hfound =>
          match write_found (slice_to data index) s with
          | (Ok _, s') => write_loop (slice_from data (index + 1)) s'
          | (Raise e, s') => (Raise e, s')
          | (Blocked, s') => (Blocked, s')
          end } }.
Proof.
  assert (range : forall (d : bytes) (start : Z),
             find_from NL d start = -1
             \/ start <= find_from NL d start < start + Z.of_nat (length d)).
  { induction d as [|c rest IH]; intros start; simpl; [now left|].
    destruct (Byte.eqb c NL); [right; lia|].
    destruct (IH (start + 1)) as [->|?]; [now left | right; lia]. }
  apply Z.eqb_neq in Hfound.
  destruct (range data 0) as [Hnone|Hin]; fold (find data NL) in *; [congruence|].
  unfold slice_from. rewrite length_skipn. lia.
Qed.

(** [LineBuffer.write]. *)
Definition write (data : bytes) : M (LineBuffer * World) unit :=
  fun s =>
    match write_loop data s with
    | (Ok data, (self, w)) =>
        if truthy data
        then (Ok tt, (set_buffer (bio_write data (_buffer self)) self, w))
        else (Ok tt, (self, w))
    | (Raise e, s') => (Raise e, s')
    | (Blocked, s') => (Blocked, s')
    end.

(** [LineBuffer.flush]. *)
Definition flush : M (LineBuffer * World) unit :=
  fun '(self, w) =>
    let line := getvalue (_buffer self) in
    if truthy line then
      match _write_line self line w with
      | (Ok _, w') =>
          (Ok tt, (set_buffer (seek 0 (truncate 0 (_buffer self))) self, w'))
      | (Raise e, w') => (Raise e, (self, w'))
      | (Blocked, w') => (Blocked, (self, w'))
      end
    else (Ok tt, (self, w)).

(** ** The platform

    What the program does not decide: the formatting of a list by the
    Python runtime, which files can be opened, whether the child can be
    started, whether closing a file succeeds, and what the child does
    while the program runs.  The time of
    the child is cut at the calls that observe it: in cycle [n] of the
    loop of [_run], [select_writes n] is what the child writes to its
    standard output and to its standard error before [select] returns,
    [select_ready n] is what [select] reports, [poll_writes n] is what the
    child writes between that and [poll], and [poll_status n] is what
    [poll] returns. *)

Record Platform : Type := mkPlatform {
  repr_list : list string -> string;
  can_open : string -> Mode -> bool;
  spawn_ok : list string -> bool;
  (* whether [close] of the file opened at this path succeeds: the flush
     of what is buffered can fail *)
  close_ok : string -> bool;
  select_writes : nat -> bytes * bytes;
  select_ready : nat -> list Which;
  poll_writes : nat -> bytes * bytes;
  poll_status : nat -> option Z;
  (* for [eval]: what the child wrote to its standard output and to its
     standard error, and its exit status; [None] when it never exits *)
  communicate_result : list string -> option (bytes * bytes * Z)
}.

(** A call is recorded. *)
Definition tick (ev : Event) : M World unit :=
  modify (fun w => set_trace (trace w ++ [ev]) w).

(** *** Descriptors and pipes *)

Definition is_open (fd : nat) (w : World) : bool :=
  existsb (Nat.eqb fd) (fds w).

(** The lowest descriptor that is not in use. *)
Fixpoint lowest_free_from (fuel n : nat) (used : list nat) : nat :=
  match fuel with
  | O => n
  | S fuel' =>
      if existsb (Nat.eqb n) used then lowest_free_from fuel' (S n) used else n
  end.

Definition lowest_free (used : list nat) : nat :=
  lowest_free_from (length used) 0 used.

(** [os.pipe()]. *)
Definition os_pipe : M World (nat * nat) :=
  fun w =>
    let reader := lowest_free (fds w) in
    let writer := lowest_free (reader :: fds w) in
    (Ok (reader, writer),
     set_trace (trace w ++ [EPipe reader writer])
       (set_pipes (mkPipe reader writer [] :: pipes w)
          (set_fds (writer :: reader :: fds w) w))).

(** [os.close(fd)]. *)
Definition os_close (fd : nat) : M World unit :=
  fun w =>
    if is_open fd w
    then (Ok tt,
          set_trace (trace w ++ [EClose fd])
            (set_fds (filter (fun d => negb (Nat.eqb fd d)) (fds w)) w))
    else (Raise OSError, w).

Definition pipe_of_reader (fd : nat) (ps : list Pipe) : option Pipe :=
  List.find (fun p => Nat.eqb (p_reader p) fd) ps.

(** The first pipe that [test] accepts is changed by [f]. *)
Fixpoint update_pipe (test : Pipe -> bool) (f : bytes -> bytes)
    (ps : list Pipe) : list Pipe :=
  match ps with
  | [] => []
  | p :: rest =>
      if test p then mkPipe (p_reader p) (p_writer p) (f (p_data p)) :: rest
      else p :: update_pipe test f rest
  end.

(** The child writes to the descriptor it was given. *)
Definition child_write (writer : nat) (data : bytes) (w : World) : World :=
  set_pipes
    (update_pipe (fun p => Nat.eqb (p_writer p) writer)
       (fun old => old ++ data) (pipes w)) w.

(** [fcntl.ioctl(fd, termios.FIONREAD, holder)], as [_available] uses it:
    the number of bytes that can be read from the pipe.  [_run] calls it
    on the read ends of its pipes; what the call answers on another
    descriptor is not modelled, the model raises there. *)
Definition _available (fd : nat) : M World Z :=
  fun w =>
    if is_open fd w then
      match pipe_of_reader fd (pipes w) with
      | Some p =>
          let count := Z.of_nat (length (p_data p)) in
          (Ok count, set_trace (trace w ++ [EAvailable fd count]) w)
      | None => (Raise OSError, w)
      end
    else (Raise OSError, w).

(** [os.read(fd, count)]: at most [count] bytes of what the pipe holds;
    on an empty pipe whose other end is open the call does not
    return. *)
Definition os_read (fd : nat) (count : Z) : M World bytes :=
  fun w =>
    if is_open fd w then
      match pipe_of_reader fd (pipes w) with
      | Some p =>
          match p_data p with
          | [] => (Blocked, w)
          | _ :: _ =>
              let data := firstn (Z.to_nat count) (p_data p) in
              (Ok data,
               set_trace (trace w ++ [ERead fd data])
                 (set_pipes
                    (update_pipe (fun q => Nat.eqb (p_reader q) fd)
                       (skipn (Z.to_nat count)) (pipes w)) w))
          end
      | None => (Raise OSError, w)
      end
    else (Raise OSError, w).

(** *** Files *)

(** [open(path, mode)]: the new stream object, through which nothing
    has been written yet. *)
Definition open (pf : Platform) (path : string) (mode : Mode) : M World nat :=
  fun w =>
    if can_open pf path mode
    then (Ok (length (files w)),
          set_files (files w ++ [mkFileObj path mode false []]) w)
    else (Raise OSError, w).

Definition mark_closed (f : FileObj) : FileObj :=
  mkFileObj (f_name f) (f_mode f) true (f_data f).

(** [f.close()]: the file is flushed and closed; when the flush fails
    the file is closed all the same and the error is raised.  Closing a
    file that is closed already does nothing. *)
Definition file_close (pf : Platform) (stream : nat) : M World unit :=
  fun w =>
    (match nth_error (files w) stream with
     | Some f =>
         if (f_closed f || close_ok pf (f_name f))%bool then Ok tt
         else Raise OSError
     | None => Ok tt
     end,
     set_files (update_nth stream mark_closed (files w)) w).

(** ** Command *)

Record Command : Type := mkCommand {
  _command : list string;
  _env : option (list (string * string));
  _cwd : option string
}.

(** [Command._args]. *)
Definition _args (self : Command) (args : list string) : list string :=
  _command self ++ args.

(** The objects [_run] holds while it runs: the two buffers, and the
    return code the process object remembers once [poll] saw the child
    exit. *)
Record Frame : Type := mkFrame {
  out_buffer : LineBuffer;
  err_buffer : LineBuffer;
  returncode : option Z
}.

Definition buffer_of (buf : Which) (fr : Frame) : LineBuffer :=
  match buf with
  | Out => out_buffer fr
  | Err => err_buffer fr
  end.

Definition set_buffer_of (buf : Which) (b : LineBuffer) (fr : Frame) : Frame :=
  match buf with
  | Out => mkFrame b (err_buffer fr) (returncode fr)
  | Err => mkFrame (out_buffer fr) b (returncode fr)
  end.

Definition set_returncode (rc : option Z) (fr : Frame) : Frame :=
  mkFrame (out_buffer fr) (err_buffer fr) rc.

(** A call that touches the world only. *)
Definition in_world {L A : Type} (m : M World A) : M (L * World) A :=
  zoom snd (fun w s => (fst s, w)) m.

(** A method of one of the two buffers. *)
Definition on_buffer {A : Type} (buf : Which) (m : M (LineBuffer * World) A)
  : M (Frame * World) A :=
  zoom (fun s => (buffer_of buf (fst s), snd s))
       (fun t s => (set_buffer_of buf (fst t) (fst s), snd t)) m.

(** A computation run with objects of its own, dropped at the end. *)
Definition with_locals {L A : Type} (l : L) (m : M (L * World) A) : M World A :=
  fun w => let (r, s) := m (l, w) in (r, snd s).

(** [Command._process]. *)
Definition _process (fd : nat) (buf : Which) : M (Frame * World) unit :=
  count <- in_world (_available fd) ;;
  if count >? 0 then
    data <- in_world (os_read fd count) ;;
    in_world (tick (EWrite buf data)) ;;
    on_buffer buf (write data)
  else ret tt.

(** [subprocess.Popen(...)] : the child is started, or the call
    raises.  The arguments are taken to name a program: the call with an
    empty list, which raises before anything is started, is not
    modelled. *)
Definition Popen (pf : Platform) (args : list string) : M World unit :=
  tick (EPopen args) ;;
  if spawn_ok pf args then ret tt else raise OSError.

(** [selector.select(timeout=0.1)] in cycle [n]. *)
Definition select (pf : Platform) (out_writer err_writer : nat) (n : nat)
  : M World (list Which) :=
  modify (fun w =>
            child_write err_writer (snd (select_writes pf n))
              (child_write out_writer (fst (select_writes pf n)) w)) ;;
  tick (ESelect (select_ready pf n)) ;;
  ret (select_ready pf n).

(** [process.poll()] in cycle [n]. *)
Definition poll (pf : Platform) (out_writer err_writer : nat) (n : nat)
  : M (Frame * World) (option Z) :=
  in_world
    (modify (fun w =>
               child_write err_writer (snd (poll_writes pf n))
                 (child_write out_writer (fst (poll_writes pf n)) w)) ;;
     tick (EPoll (poll_status pf n))) ;;
  modify (fun s => (set_returncode (poll_status pf n) (fst s), snd s)) ;;
  ret (poll_status pf n).

(** [process.wait()] once the return code is known; before that the
    call waits for the child. *)
Definition wait : M (Frame * World) Z :=
  s <- get ;;
  match returncode (fst s) with
  | Some code => in_world (tick (EWait code)) ;; ret code
  | None => fun s' => (Blocked, s')
  end.

(** The descriptor a key of the selector was registered with. *)
Definition fileobj (out_reader err_reader : nat) (key : Which) : nat :=
  match key with
  | Out => out_reader
  | Err => err_reader
  end.

(** [for key, _ in events: self._process(key.fileobj, key.data)]. *)
Fixpoint process_events (out_reader err_reader : nat) (events : list Which)
  : M (Frame * World) unit :=
  match events with
  | [] => ret tt
  | key :: rest =>
      _process (fileobj out_reader err_reader key) key ;;
      process_events out_reader err_reader rest
  end.

(** The loop of [_run], from cycle [n] on; [fuel] bounds the number of
    cycles. *)
Fixpoint drain_loop (pf : Platform)
    (out_reader out_writer err_reader err_writer : nat)
    (fuel n : nat) : M (Frame * World) unit :=
  match fuel with
  | O => fun s => (Blocked, s)
  | S fuel' =>
      events <- in_world (select pf out_writer err_writer n) ;;
      process_events out_reader err_reader events ;;
      status <- poll pf out_writer err_writer n ;;
      match status with
      | Some _ => ret tt
      | None =>
          drain_loop pf out_reader out_writer err_reader err_writer fuel' (S n)
      end
  end.

(** [Command._run]. *)
Definition _run (pf : Platform) (self : Command) (fuel : nat)
    (args : list string) (stdin stdout stderr : option nat) : M World Z :=
  info ("Running command " ++ repr_list pf args) ;;
  out <- os_pipe ;;
  let '(out_reader, out_writer) := out in
  err <- os_pipe ;;
  let '(err_reader, err_writer) := err in
  tick ESelector ;;
  tick (ERegister out_reader Out) ;;
  tick (ERegister err_reader Err) ;;
  Popen pf args ;;
  with_locals (mkFrame (LineBuffer_init stdout) (LineBuffer_init stderr) None)
    (drain_loop pf out_reader out_writer err_reader err_writer fuel 0 ;;
     in_world (tick ESelectorClose) ;;
     result <- wait ;;
     _process out_reader Out ;;
     _process err_reader Err ;;
     in_world (os_close out_writer) ;;
     in_world (os_close out_reader) ;;
     in_world (os_close err_writer) ;;
     in_world (os_close err_reader) ;;
     in_world (tick (EFlush Out)) ;;
     on_buffer Out flush ;;
     in_world (tick (EFlush Err)) ;;
     on_buffer Err flush ;;
     ret result).

(** The value of one of the variables [stdin], [stdout], [stderr] of
    [run]: [None], the path the caller gave, or the file that [open]
    returned and that was assigned to it. *)
Inductive Param : Type :=
| PNone
| PPath (path : string)
| PFile (stream : nat).

(** The variables of [run] that are assigned to. *)
Record Locals : Type := mkLocals {
  l_stdin : Param;
  l_stdout : Param;
  l_stderr : Param
}.

(** The three of them. *)
Inductive Std : Type := Stdin | Stdout | Stderr.

Definition local (v : Std) (l : Locals) : Param :=
  match v with
  | Stdin => l_stdin l
  | Stdout => l_stdout l
  | Stderr => l_stderr l
  end.

Definition set_local (v : Std) (p : Param) (l : Locals) : Locals :=
  match v with
  | Stdin => mkLocals p (l_stdout l) (l_stderr l)
  | Stdout => mkLocals (l_stdin l) p (l_stderr l)
  | Stderr => mkLocals (l_stdin l) (l_stdout l) p
  end.

(** What the caller gave for a parameter, as the value of the
    variable. *)
Definition param_of (path : option string) : Param :=
  match path with
  | Some p => PPath p
  | None => PNone
  end.

(** [if v is not None: v = open(v, mode)].  The value of the variable
    after the statement is returned too: [None] or a file.  A variable
    of [run] never holds a file before the statement; [open] would
    refuse one. *)
Definition open_local (pf : Platform) (v : Std) (mode : Mode)
  : M (Locals * World) (option nat) :=
  s <- get ;;
  match local v (fst s) with
  | PNone => ret None
  | PPath path =>
      stream <- in_world (open pf path mode) ;;
      modify (fun s' => (set_local v (PFile stream) (fst s'), snd s')) ;;
      ret (Some stream)
  | PFile _ => raise TypeError
  end.

(** [if v is not None: v.close()].  A [str] has no [close]. *)
Definition close_local (pf : Platform) (v : Std) : M (Locals * World) unit :=
  s <- get ;;
  match local v (fst s) with
  | PNone => ret tt
  | PPath _ => raise AttributeError
  | PFile stream => in_world (file_close pf stream)
  end.

(** [Command.run]. *)
Definition run (pf : Platform) (self : Command) (fuel : nat)
    (args : list string) (stdin stdout stderr : option string) : M World Z :=
  let args := _args self args in
  with_locals (mkLocals (param_of stdin) (param_of stdout) (param_of stderr))
    (try_finally
       (stdin <- open_local pf Stdin Rb ;;
        stdout <- open_local pf Stdout Wb ;;
        stderr <- open_local pf Stderr Wb ;;
        in_world (_run pf self fuel args stdin stdout stderr))
       (close_local pf Stdin ;;
        close_local pf Stdout ;;
        close_local pf Stderr)).

(** An [int] in an f-string. *)
Definition str_of_int (n : Z) : string :=
  NilZero.string_of_int (Z.to_int n).

(** [Command.check]. *)
Definition check (pf : Platform) (self : Command) (fuel : nat)
    (args : list string) (stdin stdout stderr : option string) : M World unit :=
  result <- run pf self fuel args stdin stdout stderr ;;
  if negb (result =? 0)
  then raise (Exception ("Command finished with exit code " ++ str_of_int result))
  else ret tt.

(** [Command.eval]. *)
Definition eval (pf : Platform) (self : Command) (args : list string)
  : M World string :=
  let _args := _args self args in
  let command := String.concat " " _args in
  info ("Evaluating command '" ++ command ++ "'") ;;
  Popen pf _args ;;
  match communicate_result pf _args with
  | None => fun w => (Blocked, w)
  | Some (output, _, status) =>
      tick ECommunicate ;;
      tick (EWait status) ;;
      let result := status in
      if negb (result =? 0)
      then raise (Exception ("Command '" ++ command
                             ++ "' finished with exit code "
                             ++ str_of_int result))
      else
        match decode output with
        | Some text => ret text
        | None => raise UnicodeDecodeError
        end
  end.

(** ** Notions the properties of [LineBuffer] are stated with *)

(** The pending bytes of a buffer. *)
Definition pending (self : LineBuffer) : bytes := getvalue (_buffer self).

(** The calls [write(c1); write(c2); ...] for the chunks [c1, c2, ...]. *)
Fixpoint write_all (chunks : list bytes) : M (LineBuffer * World) unit :=
  match chunks with
  | [] => ret tt
  | chunk :: rest => write chunk ;; write_all rest
  end.

(** Emission of lines one after the other, each by [_write_line], by a
    buffer made with the given stream. *)
Fixpoint emit_lines (stream : option nat) (lines : list bytes) : M World unit :=
  match lines with
  | [] => ret tt
  | line :: rest =>
      _write_line (LineBuffer_init stream) line ;; emit_lines stream rest
  end.

(** [data.split(b"\n")]: the segments between the separators, one more
    than there are separators. *)
Fixpoint split_nl (data : bytes) : list bytes :=
  match data with
  | [] => [[]]
  | c :: rest =>
      if Byte.eqb c NL then [] :: split_nl rest
      else
        match split_nl rest with
        | [] => [[c]]
        | seg :: segs => (c :: seg) :: segs
        end
  end.

(** The lines of [data]: the segments that a separator ends, and the
    segment after the last separator when it is not empty. *)
Definition lines_of (data : bytes) : list bytes :=
  let segs := split_nl data in
  removelast segs ++ (if truthy (last segs []) then [last segs []] else []).

(** The same in one pass: the terminated lines, and the tail. *)
Fixpoint cut (data : bytes) : list bytes * bytes :=
  match data with
  | [] => ([], [])
  | c :: rest =>
      let (ls, tl) := cut rest in
      if Byte.eqb c NL then ([] :: ls, tl)
      else
        match ls with
        | [] => ([], c :: tl)
        | l :: ls' => ((c :: l) :: ls', tl)
        end
  end.

(** No separator among the bytes. *)
Definition no_nl (data : bytes) : Prop := ~ In NL data.

(** The position of the [BytesIO] is its end. *)
Definition at_end (self : LineBuffer) : Prop :=
  bio_pos (_buffer self) = length (bio_value (_buffer self)).

(** A buffer whose pending bytes are [v], the position at their end. *)
Definition with_pending (v : bytes) (self : LineBuffer) : LineBuffer :=
  set_buffer (mkBytesIO v (length v)) self.

(** The buffers a program can hold: a new one, and one on which [write]
    or [flush] was called, whatever the call did (it may have raised). *)
Inductive reachable : LineBuffer -> Prop :=
| reach_init (stream : option nat) :
    reachable (LineBuffer_init stream)
| reach_write (self : LineBuffer) (data : bytes) (w : World) :
    reachable self -> reachable (fst (snd (write data (self, w))))
| reach_flush (self : LineBuffer) (w : World) :
    reachable self -> reachable (fst (snd (flush (self, w)))).

(** The bytes written to a stream so far; none for a handle that names
    no stream. *)
Definition written (stream : nat) (w : World) : bytes :=
  match nth_error (files w) stream with
  | Some f => f_data f
  | None => []
  end.

(** A stream that accepts [write]. *)
Definition writable (stream : nat) (w : World) : Prop :=
  exists f, nth_error (files w) stream = Some f
            /\ f_mode f = Wb /\ f_closed f = false.

(** The outcome and the world of a call on a buffer, the buffer left
    out. *)
Definition observed {A : Type} (r : outcome A * (LineBuffer * World))
  : outcome A * World :=
  (fst r, snd (snd r)).

(** ** Notions the properties of [Command] are stated with *)

(** What does not change when a stream is written to: its name, its
    mode, whether it is closed. *)
Definition shape (f : FileObj) : string * Mode * bool :=
  (f_name f, f_mode f, f_closed f).

(** The world but for the log and for what the streams hold: what a
    [LineBuffer] does not touch. *)
Definition same_os (w w' : World) : Prop :=
  fds w' = fds w /\ pipes w' = pipes w /\ trace w' = trace w
  /\ map shape (files w') = map shape (files w).

(** A computation whose final state is related to its initial state,
    whatever its outcome. *)
Definition preserves {S A : Type} (R : S -> S -> Prop) (m : M S A) : Prop :=
  forall s : S, R s (snd (m s)).

(** A relation between worlds, on states that hold a world. *)
Definition on_world {L : Type} (R : World -> World -> Prop)
  : L * World -> L * World -> Prop :=
  fun s s' => R (snd s) (snd s').

(** *** The order of the calls in a cycle of the loop *)

(** What the loop of [_run] may do next: call [select]; process the keys
    that [select] reported and that are left, then call [poll]; read what
    [_available] counted; write to the buffer what was read; nothing,
    [poll] having seen the child exit. *)
Inductive Expect : Type :=
| XSelect
| XProcess (keys : list Which)
| XRead (key : Which) (keys : list Which)
| XWrite (key : Which) (data : bytes) (keys : list Which)
| XDone.

Definition Which_eqb (a b : Which) : bool :=
  match a, b with
  | Out, Out | Err, Err => true
  | _, _ => false
  end.

Definition bytes_eqb (a b : bytes) : bool :=
  if list_eq_dec Byte.byte_eq_dec a b then true else false.

(** One call, in the order of a cycle: [poll] is accepted only when no
    key is left to process. *)
Definition expect_step (out_reader err_reader : nat) (x : Expect) (ev : Event)
  : option Expect :=
  match x, ev with
  | XSelect, ESelect ready => Some (XProcess ready)
  | XProcess (key :: keys), EAvailable fd count =>
      if Nat.eqb fd (fileobj out_reader err_reader key) then
        if count >? 0 then Some (XRead key keys) else Some (XProcess keys)
      else None
  | XRead key keys, ERead fd data =>
      if Nat.eqb fd (fileobj out_reader err_reader key)
      then Some (XWrite key data keys)
      else None
  | XWrite key data keys, EWrite buf data' =>
      if (Which_eqb buf key && bytes_eqb data data')%bool
      then Some (XProcess keys)
      else None
  | XProcess [], EPoll None => Some XSelect
  | XProcess [], EPoll (Some _) => Some XDone
  | _, _ => None
  end.

Fixpoint expect_run (out_reader err_reader : nat) (x : Expect)
    (evs : list Event) : option Expect :=
  match evs with
  | [] => Some x
  | ev :: rest =>
      match expect_step out_reader err_reader x ev with
      | Some x' => expect_run out_reader err_reader x' rest
      | None => None
      end
  end.

(** The calls are those of cycles of the loop, each in order, the last
    one possibly cut short. *)
Definition cycles_in_order (out_reader err_reader : nat) (evs : list Event)
  : bool :=
  match expect_run out_reader err_reader XSelect evs with
  | Some _ => true
  | None => false
  end.

(** *** The order of the steps after the loop *)

Inductive Phase : Type := PDrain | PWait | PClose | PFlush.

Definition Phase_eqb (a b : Phase) : bool :=
  match a, b with
  | PDrain, PDrain | PWait, PWait | PClose, PClose | PFlush, PFlush => true
  | _, _ => false
  end.

(** The step a call belongs to: reading a pipe and feeding a buffer is
    draining. *)
Definition phase_of (ev : Event) : list Phase :=
  match ev with
  | EAvailable _ _ | ERead _ _ | EWrite _ _ => [PDrain]
  | EWait _ => [PWait]
  | EClose _ => [PClose]
  | EFlush _ => [PFlush]
  | _ => []
  end.

(** Runs of the same step are one step. *)
Fixpoint squeeze (l : list Phase) : list Phase :=
  match l with
  | [] => []
  | a :: rest =>
      match rest with
      | [] => [a]
      | b :: _ => if Phase_eqb a b then squeeze rest else a :: squeeze rest
      end
  end.

(** The calls made after [poll] saw the child exit. *)
Fixpoint after_exit (evs : list Event) : list Event :=
  match evs with
  | [] => []
  | EPoll (Some _) :: rest => rest
  | _ :: rest => after_exit rest
  end.

(** The steps taken after the loop, in order. *)
Definition steps_after_exit (evs : list Event) : list Phase :=
  squeeze (flat_map phase_of (after_exit evs)).

(** The calls made since the world was [w]. *)
Definition calls_since (w w' : World) : list Event :=
  skipn (length (trace w)) (trace w').

Definition is_exit_poll (ev : Event) : bool :=
  match ev with
  | EPoll (Some _) => true
  | _ => false
  end.

(** What [_process] does to a descriptor whose pipe holds [count]
    bytes: nothing but the count when there is none. *)
Definition drained (fd : nat) (buf : Which) (evs : list Event) : Prop :=
  (exists count, count <= 0 /\ evs = [EAvailable fd count])
  \/ (exists count data,
         0 < count /\ Z.of_nat (length data) = count
         /\ evs = [EAvailable fd count; ERead fd data; EWrite buf data]).

(** *** The exit status of the child *)

(** The status the child exits with, as [poll] reports it within [fuel]
    cycles from cycle [n]; [None] when it does not exit by then. *)
Fixpoint exit_status (pf : Platform) (fuel n : nat) : option Z :=
  match fuel with
  | O => None
  | S fuel' =>
      match poll_status pf n with
      | Some code => Some code
      | None => exit_status pf fuel' (S n)
      end
  end.

(** *** The files of [run] *)

(** The files [run] is to open, in order. *)
Definition plan (stdin stdout stderr : option string) : list (string * Mode) :=
  match stdin with Some p => [(p, Rb)] | None => [] end
  ++ match stdout with Some p => [(p, Wb)] | None => [] end
  ++ match stderr with Some p => [(p, Wb)] | None => [] end.

(** The first of them, up to one that cannot be opened. *)
Fixpoint openable (pf : Platform) (l : list (string * Mode))
  : list (string * Mode) :=
  match l with
  | [] => []
  | (p, m) :: rest => if can_open pf p m then (p, m) :: openable pf rest else []
  end.

(** A file just opened. *)
Definition new_file (pm : string * Mode) : FileObj :=
  mkFileObj (fst pm) (snd pm) false [].

(** The shape of a file that was opened and closed. *)
Definition closed_shape (pm : string * Mode) : string * Mode * bool :=
  (fst pm, snd pm, true).

(** The stream a parameter of [run] becomes, the world holding [n]
    streams and [k] files being opened before this one. *)
Definition handle (n k : nat) (path : option string) : option nat :=
  match path with
  | Some _ => Some (n + k)%nat
  | None => None
  end.

Definition given (path : option string) : nat :=
  match path with
  | Some _ => 1%nat
  | None => 0%nat
  end.

(** The streams among the parameters of [_run]. *)
Fixpoint somes (l : list (option nat)) : list nat :=
  match l with
  | [] => []
  | Some h :: rest => h :: somes rest
  | None :: rest => somes rest
  end.

(** The shape of a file that was opened and is still open. *)
Definition open_shape (pm : string * Mode) : string * Mode * bool :=
  (fst pm, snd pm, false).

(** Each [close] succeeds. *)
Definition closes_ok (pf : Platform) (l : list (string * Mode)) : bool :=
  forallb (fun pm => close_ok pf (fst pm)) l.

(** The shapes of the files once they have been closed in order, as the
    [finally] clause of [run] does: the first [close] that fails ends the
    clause, so that the files are closed up to that one, which is closed
    too, and the files after it are left open. *)
Fixpoint left_by_closes (pf : Platform) (l : list (string * Mode))
  : list (string * Mode * bool) :=
  match l with
  | [] => []
  | pm :: rest =>
      closed_shape pm
      :: (if close_ok pf (fst pm) then left_by_closes pf rest
          else map open_shape rest)
  end.

(** The variables of [run] once the files are open. *)
Definition opened_local (h : option nat) : Param :=
  match h with
  | Some stream => PFile stream
  | None => PNone
  end.

(** The calls [close] on the streams, one after the other. *)
Fixpoint close_files (pf : Platform) (streams : list nat) : M World unit :=
  match streams with
  | [] => ret tt
  | h :: rest => file_close pf h ;; close_files pf rest
  end.

(** The files once the streams are marked closed, one after the
    other. *)
Fixpoint close_seq (streams : list nat) (fs : list FileObj) : list FileObj :=
  match streams with
  | [] => fs
  | h :: rest => close_seq rest (update_nth h mark_closed fs)
  end.

(** The calls [_process] makes, whatever its outcome. *)
Definition process_calls (fd : nat) (buf : Which) {A : Type}
    (r : outcome A) (evs : list Event) : Prop :=
  (evs = [] /\ r = Raise OSError)
  \/ (evs = [EAvailable fd 0] /\ exists a, r = Ok a)
  \/ (exists data : bytes,
         data <> []
         /\ r <> Blocked
         /\ evs = [EAvailable fd (Z.of_nat (length data));
                   ERead fd data; EWrite buf data]).

(** The world when [_run] has created the pipes and the selector and
    called [Popen]. *)
Definition started (pf : Platform) (args : list string) (w : World) : World :=
  let out_reader := lowest_free (fds w) in
  let out_writer := lowest_free (out_reader :: fds w) in
  let err_reader := lowest_free (out_writer :: out_reader :: fds w) in
  let err_writer :=
    lowest_free (err_reader :: out_writer :: out_reader :: fds w) in
  mkWorld
    (log w ++ [("Running command " ++ repr_list pf args)%string])
    (files w)
    (err_writer :: err_reader :: out_writer :: out_reader :: fds w)
    (mkPipe err_reader err_writer [] :: mkPipe out_reader out_writer []
       :: pipes w)
    (trace w ++ [EPipe out_reader out_writer; EPipe err_reader err_writer;
                 ESelector; ERegister out_reader Out; ERegister err_reader Err;
                 EPopen args]).

(** What [_run] does once the child is started. *)
Definition after_start (pf : Platform) (fuel : nat)
    (out_reader out_writer err_reader err_writer : nat)
  : M (Frame * World) Z :=
  drain_loop pf out_reader out_writer err_reader err_writer fuel 0 ;;
  in_world (tick ESelectorClose) ;;
  result <- wait ;;
  _process out_reader Out ;;
  _process err_reader Err ;;
  in_world (os_close out_writer) ;;
  in_world (os_close out_reader) ;;
  in_world (os_close err_writer) ;;
  in_world (os_close err_reader) ;;
  in_world (tick (EFlush Out)) ;;
  on_buffer Out flush ;;
  in_world (tick (EFlush Err)) ;;
  on_buffer Err flush ;;
  ret result.

(** The shape of a stream once it is closed. *)
Definition close_shape (s : string * Mode * bool) : string * Mode * bool :=
  (fst (fst s), snd (fst s), true).

(** *** A run in which nothing fails *)

(** A buffer as [write] leaves it, whose stream accepts writes. *)
Definition good_buffer (b : LineBuffer) (w : World) : Prop :=
  at_end b /\ no_nl (pending b)
  /\ exists stream, _stream b = Some stream /\ writable stream w.

(** The four descriptors of the two pipes are open, and the pipes are
    there. *)
Definition pipes_ready (out_reader out_writer err_reader err_writer : nat)
    (w : World) : Prop :=
  is_open out_reader w = true /\ is_open out_writer w = true
  /\ is_open err_reader w = true /\ is_open err_writer w = true
  /\ pipe_of_reader out_reader (pipes w) <> None
  /\ pipe_of_reader err_reader (pipes w) <> None.

Definition ready (out_reader out_writer err_reader err_writer : nat)
    (s : Frame * World) : Prop :=
  pipes_ready out_reader out_writer err_reader err_writer (snd s)
  /\ good_buffer (out_buffer (fst s)) (snd s)
  /\ good_buffer (err_buffer (fst s)) (snd s).


(** ** Notions for the flow of the output of the child *)

(** What the pipe read through [fd] holds; nothing when there is no
    such pipe. *)
Definition pipe_data (fd : nat) (w : World) : bytes :=
  match pipe_of_reader fd (pipes w) with
  | Some p => p_data p
  | None => []
  end.

(** The call is a [flush] of one of the two buffers. *)
Definition is_flush (ev : Event) : bool :=
  match ev with
  | EFlush _ => true
  | _ => false
  end.

(** *** The descriptors of the pipes, whatever [_run] does *)

(** The final state of a computation extends the trace by calls among
    which there is no [flush], and the descriptors are as before. *)
Definition quiet (s s' : Frame * World) : Prop :=
  fds (snd s') = fds (snd s)
  /\ exists evs,
      trace (snd s') = trace (snd s) ++ evs
      /\ existsb is_flush evs = false.

(** The descriptors are the four of the pipes and those of before, or
    those of before alone when a [flush] has been called. *)
Definition settles {A : Type} (four fds0 : list nat) (m : M (Frame * World) A)
  : Prop :=
  forall s : Frame * World,
    fds (snd s) = four ++ fds0 ->
    exists evs,
      trace (snd (snd (m s))) = trace (snd s) ++ evs
      /\ fds (snd (snd (m s))) =
         if existsb is_flush evs then fds0 else four ++ fds0.

(** *** Where the output of the child goes *)

(** What the lines emitted by a buffer add to the streams: each line and
    its separator, to the stream of the buffer. *)
Definition put_files (stream : option nat) (lines : list bytes)
    (fs : list FileObj) : list FileObj :=
  match stream with
  | Some h => update_nth h (append_data (flat_map (fun l => l ++ [NL]) lines)) fs
  | None => fs
  end.

(** What they add to the log: one record for each line, when the
    buffer has no stream. *)
Definition put_log (stream : option nat) (lines : list bytes) : list string :=
  match stream with
  | Some _ => []
  | None => map string_of_list_byte lines
  end.

(** The world once the lines are emitted. *)
Definition put (stream : option nat) (lines : list bytes) (w : World) : World :=
  mkWorld (log w ++ put_log stream lines) (put_files stream lines (files w))
    (fds w) (pipes w) (trace w).

(** The lines can be emitted: the stream accepts writes, or, without
    stream, each line is valid UTF-8. *)
Definition accepts (stream : option nat) (lines : list bytes) (w : World)
  : Prop :=
  match stream with
  | Some h => writable h w
  | None => Forall (fun l => utf8_valid l = true) lines
  end.

(** A list made of two lists, the order of each being kept. *)
Inductive interleaved {A : Type} : list A -> list A -> list A -> Prop :=
| interleaved_nil : interleaved [] [] []
| interleaved_left (x : A) (a b l : list A) :
    interleaved a b l -> interleaved (x :: a) b (x :: l)
| interleaved_right (x : A) (a b l : list A) :
    interleaved a b l -> interleaved a (x :: b) (x :: l).

(** What the child writes to its standard output and to its standard
    error, from cycle [n] of the loop until [poll] sees it exit, within
    [fuel] cycles. *)
Fixpoint child_output (pf : Platform) (fuel n : nat) : bytes * bytes :=
  match fuel with
  | O => ([], [])
  | S fuel' =>
      let out := fst (select_writes pf n) ++ fst (poll_writes pf n) in
      let err := snd (select_writes pf n) ++ snd (poll_writes pf n) in
      match poll_status pf n with
      | Some _ => (out, err)
      | None =>
          (out ++ fst (child_output pf fuel' (S n)),
           err ++ snd (child_output pf fuel' (S n)))
      end
  end.

(** The data, with a separator at its end when it has none there. *)
Definition terminated (data : bytes) : bytes :=
  if Byte.eqb (last data NL) NL then data else data ++ [NL].

(** The state of [_run] while the output of the child flows, [w0] being
    the world before the pipes were made and [lg0] the log once the
    command was logged: [ro] and [re] are the bytes read so far from the
    two pipes and written to the two buffers, [po] and [pe] the bytes the
    pipes hold. *)
Definition carries (stdout stderr : option nat)
    (out_reader out_writer err_reader err_writer : nat)
    (w0 : World) (lg0 : list string) (ro po re pe : bytes)
    (s : Frame * World) : Prop :=
  out_buffer (fst s) = with_pending (snd (cut ro)) (LineBuffer_init stdout)
  /\ err_buffer (fst s) = with_pending (snd (cut re)) (LineBuffer_init stderr)
  /\ files (snd s) =
     put_files stdout (fst (cut ro)) (put_files stderr (fst (cut re)) (files w0))
  /\ (exists records,
         log (snd s) = lg0 ++ records
         /\ interleaved (put_log stdout (fst (cut ro)))
              (put_log stderr (fst (cut re))) records)
  /\ fds (snd s) = err_writer :: err_reader :: out_writer :: out_reader :: fds w0
  /\ pipes (snd s) =
     mkPipe err_reader err_writer pe :: mkPipe out_reader out_writer po
       :: pipes w0.

(** The same, the bytes the child has written so far to its standard
    output and to its standard error being [wo] and [we]. *)
Definition flows (stdout stderr : option nat)
    (out_reader out_writer err_reader err_writer : nat)
    (w0 : World) (lg0 : list string) (wo we : bytes)
    (s : Frame * World) : Prop :=
  exists ro po re pe,
    ro ++ po = wo /\ re ++ pe = we
    /\ carries stdout stderr out_reader out_writer err_reader err_writer
         w0 lg0 ro po re pe s.

(** A stream given to [_run] accepts writes. *)
Definition stream_ok (stream : option nat) (w : World) : Prop :=
  match stream with
  | Some h => writable h w
  | None => True
  end.

(** Without stream, the lines that a separator ends in the data are
    valid UTF-8. *)
Definition decodes (stream : option nat) (data : bytes) : Prop :=
  stream = None -> Forall (fun l => utf8_valid l = true) (fst (cut data)).

(** Without stream, each line of the data is valid UTF-8. *)
Definition valid_lines (stream : option nat) (data : bytes) : Prop :=
  stream = None -> Forall (fun l => utf8_valid l = true) (lines_of data).

(** ** Examples *)

Definition bytes_of (s : string) : bytes := list_byte_of_string s.

(** The formatting of a list of strings by Python, for strings that
    hold no quote, no backslash and no character that [repr] escapes:
    each string between single quotes. *)
Definition plain_repr (l : list string) : string :=
  ("[" ++ String.concat ", " (map (fun a => "'" ++ a ++ "'") l) ++ "]")%string.

(** A child that writes [hello\nworld] to its standard output and
    [x\n] to its standard error over two cycles, part of it between the
    last reads and the [poll] that sees it exit with status 3. *)
Definition pf_three : Platform :=
  mkPlatform plain_repr (fun _ _ => true) (fun _ => true) (fun _ => true)
    (fun n =>
       match n with
       | O => (bytes_of "he", bytes_of "x")
       | _ => (bytes_of "llo" ++ [NL] ++ bytes_of "wor", [])
       end)
    (fun n => match n with O => [Out] | _ => [Err; Out] end)
    (fun n => match n with 1%nat => (bytes_of "ld", [NL]) | _ => ([], []) end)
    (fun n => match n with 1%nat => Some 3 | _ => None end)
    (fun _ => Some (bytes_of "hello" ++ [NL], bytes_of "oops", 2)).

(** The same child, the file [out] being one whose [close] fails. *)
Definition pf_noclose : Platform :=
  mkPlatform plain_repr (fun _ _ => true) (fun _ => true)
    (fun p => negb (String.eqb p "out"))
    (select_writes pf_three) (select_ready pf_three) (poll_writes pf_three)
    (poll_status pf_three) (communicate_result pf_three).

(** A binary that cannot be started, and a path that cannot be
    opened. *)
Definition pf_nospawn : Platform :=
  mkPlatform plain_repr (fun p _ => negb (String.eqb p "bad"))
    (fun _ => false) (fun _ => true)
    (fun _ => ([], [])) (fun _ => []) (fun _ => ([], []))
    (fun _ => Some 0)
    (fun _ => None).

(** A child that writes a byte that is not UTF-8, and a separator, to
    its standard output, and exits with status 0. *)
Definition pf_garbage : Platform :=
  mkPlatform plain_repr (fun _ _ => true) (fun _ => true) (fun _ => true)
    (fun _ => ([xff; NL], [])) (fun _ => [Out]) (fun _ => ([], []))
    (fun _ => Some 0)
    (fun _ => None).

(** A child that writes [hello\n] and exits with status 0. *)
Definition pf_hello : Platform :=
  mkPlatform plain_repr (fun _ _ => true) (fun _ => true) (fun _ => true)
    (fun _ => ([], [])) (fun _ => []) (fun _ => ([], []))
    (fun _ => Some 0)
    (fun _ => Some (bytes_of "hello" ++ [NL], [], 0)).

Definition empty_world : World := mkWorld [] [] [] [] [].

(** A world with one stream open for writing. *)
Definition one_stream : World :=
  mkWorld [] [mkFileObj "s" Wb false []] [] [] [].

Definition ls : Command := mkCommand ["ls"%string] None None.

(** * Properties *)

(** ** The search of the separator and the cut into lines *)

Lemma write_loop_clause (data : bytes) (index : Z)
    (r : {y : bool | (index =? -1) = y})
    (Hfind : find data NL = index) (s : LineBuffer * World) :
  write_loop_unfold_clause_1_clause_1 data index r Hfind s =
  if proj1_sig r then (Ok data, s)
  else
    match write_found (slice_to data index) s with
    | (Ok _, s') => write_loop (slice_from data (index + 1)) s'
    | (Raise e, s') => (Raise e, s')
    | (Blocked, s') => (Blocked, s')
    end.
Proof.
  destruct r as [[|] H]; reflexivity.
Qed.

(** The loop of [write], one iteration unfolded. *)
Lemma write_loop_step (data : bytes) (s : LineBuffer * World) :
  write_loop data s =
  let index := find data NL in
  if index =? -1 then (Ok data, s)
  else
    match write_found (slice_to data index) s with
    | (Ok _, s') => write_loop (slice_from data (index + 1)) s'
    | (Raise e, s') => (Raise e, s')
    | (Blocked, s') => (Blocked, s')
    end.
Proof.
  simp write_loop.
  unfold write_loop_unfold_clause_1, inspect.
  apply write_loop_clause.
Qed.

(** What [find] returns, in terms of [cut]: either there is no
    separator and no line, or the first line ends at the index found. *)
Lemma find_from_cut (data : bytes) (start : Z) :
  (find_from NL data start = -1 /\ cut data = ([], data))
  \/ (exists i : nat,
         find_from NL data start = start + Z.of_nat i
         /\ (i < length data)%nat
         /\ cut data = (firstn i data :: fst (cut (skipn (S i) data)),
                        snd (cut (skipn (S i) data)))).
Proof.
  revert start. induction data as [|c rest IH]; intros start.
  - left. split; reflexivity.
  - cbn [find_from cut]. destruct (Byte.eqb c NL) eqn:Ec.
    + right. exists 0%nat. cbn. destruct (cut rest). 
      repeat split; [lia | lia].
    + destruct (IH (start + 1)) as [[Hf Hc]|[i (Hf & Hi & Hc)]].
      * left. rewrite Hf, Hc. split; reflexivity.
      * right. exists (S i). rewrite Hf, Hc. cbn [firstn skipn length].
        repeat split; lia.
Qed.

Lemma find_cut (data : bytes) :
  (find data NL = -1 /\ cut data = ([], data))
  \/ (exists i : nat,
         find data NL = Z.of_nat i
         /\ (i < length data)%nat
         /\ cut data = (firstn i data :: fst (cut (skipn (S i) data)),
                        snd (cut (skipn (S i) data)))).
Proof.
  unfold find. destruct (find_from_cut data 0) as [H|[i H]]; [now left|].
  right. exists i. exact H.
Qed.

Lemma cut_tail_no_nl (data : bytes) : no_nl (snd (cut data)).
Proof.
  unfold no_nl. induction data as [|c rest IH]; cbn [cut].
  - intros [].
  - destruct (cut rest) as [ls tl]. cbn [snd] in IH.
    destruct (Byte.eqb c NL) eqn:Ec; [exact IH|].
    destruct ls; cbn [snd]; [|exact IH].
    intros [H|H]; [|exact (IH H)].
    subst c. discriminate Ec.
Qed.

Lemma cut_no_nl (p : bytes) : no_nl p -> cut p = ([], p).
Proof.
  unfold no_nl. induction p as [|c rest IH]; intros H; cbn [cut]; [reflexivity|].
  rewrite IH by (intros Hin; apply H; now right).
  destruct (Byte.eqb c NL) eqn:Ec; [|reflexivity].
  exfalso. apply H. left. symmetry. now apply byte_dec_bl.
Qed.

Lemma cut_nil_tail (data : bytes) : fst (cut data) = [] -> snd (cut data) = data.
Proof.
  induction data as [|c rest IH]; cbn [cut]; [reflexivity|].
  destruct (cut rest) as [ls tl]. cbn [fst snd] in IH.
  destruct (Byte.eqb c NL); [discriminate|].
  destruct ls; cbn [fst snd]; [|discriminate].
  intros _. now rewrite IH.
Qed.

(** Bytes without separator put before other bytes go before the first
    line, or before the tail when there is no line. *)
Lemma cut_app_no_nl (p data : bytes) :
  no_nl p ->
  cut (p ++ data) =
  match cut data with
  | ([], tl) => ([], p ++ tl)
  | (l :: ls, tl) => ((p ++ l) :: ls, tl)
  end.
Proof.
  unfold no_nl. induction p as [|c rest IH]; intros H.
  - cbn [app]. destruct (cut data) as [[|l ls] tl]; reflexivity.
  - cbn [app cut]. rewrite IH by (intros Hin; apply H; now right).
    destruct (Byte.eqb c NL) eqn:Ec.
    + exfalso. apply H. left. symmetry. now apply byte_dec_bl.
    + destruct (cut data) as [[|l ls] tl]; reflexivity.
Qed.

(** The cut of a concatenation: the tail of the first part goes before
    the second part. *)
Lemma cut_app (a data : bytes) :
  cut (a ++ data) =
  (fst (cut a) ++ fst (cut (snd (cut a) ++ data)),
   snd (cut (snd (cut a) ++ data))).
Proof.
  induction a as [|c rest IH].
  - cbn. now destruct (cut data).
  - cbn [app cut]. rewrite IH. destruct (cut rest) as [ls tl]. cbn [fst snd].
    destruct (Byte.eqb c NL) eqn:Ec; [reflexivity|].
    destruct ls as [|l ls]; cbn [fst snd app].
    + cbn [cut]. rewrite Ec. now destruct (cut (tl ++ data)) as [[|l2 ls2] tl2].
    + reflexivity.
Qed.

(** [split] gives the terminated lines and then the tail. *)
Lemma split_nl_cut (data : bytes) :
  split_nl data = fst (cut data) ++ [snd (cut data)].
Proof.
  induction data as [|c rest IH]; cbn [split_nl cut]; [reflexivity|].
  rewrite IH. destruct (cut rest) as [ls tl]. cbn [fst snd].
  destruct (Byte.eqb c NL); [reflexivity|].
  destruct ls; reflexivity.
Qed.

Lemma lines_of_cut (data : bytes) :
  lines_of data =
  fst (cut data) ++ (if truthy (snd (cut data)) then [snd (cut data)] else []).
Proof.
  unfold lines_of. rewrite split_nl_cut, removelast_last, last_last.
  reflexivity.
Qed.

(** ** Emission *)

Lemma update_nth_length {A : Type} (n : nat) (f : A -> A) (l : list A) :
  length (update_nth n f l) = length l.
Proof.
  revert n. induction l as [|x rest IH]; intros [|n]; cbn; auto.
Qed.

Lemma nth_error_update_nth {A : Type} (n : nat) (f : A -> A) (l : list A) :
  nth_error (update_nth n f l) n = option_map f (nth_error l n).
Proof.
  revert n. induction l as [|x rest IH]; intros [|n]; cbn; auto.
Qed.

Lemma nth_error_update_nth_other {A : Type} (n m : nat) (f : A -> A) (l : list A) :
  n <> m -> nth_error (update_nth n f l) m = nth_error l m.
Proof.
  revert n m. induction l as [|x rest IH]; intros [|n] [|m] H; cbn; auto.
  congruence.
Qed.

Lemma update_nth_twice {A : Type} (n : nat) (f g : A -> A) (l : list A) :
  update_nth n g (update_nth n f l) = update_nth n (fun x => g (f x)) l.
Proof.
  revert n. induction l as [|x rest IH]; intros [|n]; cbn; congruence.
Qed.

Lemma update_nth_ext {A : Type} (n : nat) (f g : A -> A) (l : list A) :
  (forall x, f x = g x) -> update_nth n f l = update_nth n g l.
Proof.
  intros H. revert n. induction l as [|x rest IH]; intros [|n]; cbn; congruence.
Qed.

Lemma update_nth_id {A : Type} (n : nat) (f : A -> A) (l : list A) :
  (forall x, f x = x) -> update_nth n f l = l.
Proof.
  intros H. revert n. induction l as [|x rest IH]; intros [|n]; cbn; congruence.
Qed.

Lemma append_data_twice (a b : bytes) (f : FileObj) :
  append_data b (append_data a f) = append_data (a ++ b) f.
Proof.
  unfold append_data. cbn. now rewrite app_assoc.
Qed.

Lemma append_data_nil (f : FileObj) : append_data [] f = f.
Proof.
  destruct f. unfold append_data. cbn. now rewrite app_nil_r.
Qed.

(** What [stream.write] does to a stream that accepts it. *)
Lemma stream_write_writable (stream : nat) (data : bytes) (w : World) :
  writable stream w ->
  stream_write stream data w =
  (Ok tt, set_files (update_nth stream (append_data data) (files w)) w).
Proof.
  intros (f & Hf & Hm & Hc). unfold stream_write. now rewrite Hf, Hm, Hc.
Qed.

Lemma writable_after_write (stream : nat) (data : bytes) (w : World) :
  writable stream w ->
  writable stream
    (set_files (update_nth stream (append_data data) (files w)) w).
Proof.
  intros (f & Hf & Hm & Hc). exists (append_data data f). cbn.
  rewrite nth_error_update_nth, Hf. auto.
Qed.

(** Two writes to a stream are one write of the concatenation, also
    when the stream refuses them. *)
Lemma stream_write_twice (stream : nat) (a b : bytes) (w : World) :
  (stream_write stream a ;; stream_write stream b) w =
  stream_write stream (a ++ b) w.
Proof.
  unfold bind, stream_write.
  destruct (nth_error (files w) stream) as [f|] eqn:Hf; [|reflexivity].
  destruct (f_mode f) eqn:Hm; [reflexivity|].
  destruct (f_closed f) eqn:Hc; [reflexivity|].
  cbn. rewrite nth_error_update_nth, Hf. cbn. rewrite Hm, Hc.
  unfold set_files. cbn. rewrite update_nth_twice.
  rewrite (@update_nth_ext _ stream _ _ (files w) (append_data_twice a b)).
  reflexivity.
Qed.

(** [_write_line] looks at the stream of the buffer only. *)
Lemma _write_line_stream (self : LineBuffer) (line : bytes) :
  _write_line self line = _write_line (LineBuffer_init (_stream self)) line.
Proof. reflexivity. Qed.

Lemma bind_assoc {S A B C : Type} (m : M S A) (k : A -> M S B)
    (k' : B -> M S C) (s : S) :
  bind (bind m k) k' s = bind m (fun a => bind (k a) k') s.
Proof.
  unfold bind. destruct (m s) as [[a|e|] s1]; reflexivity.
Qed.

Lemma emit_lines_app (stream : option nat) (a b : list bytes) (w : World) :
  emit_lines stream (a ++ b) w =
  (emit_lines stream a ;; emit_lines stream b) w.
Proof.
  revert w. induction a as [|l rest IH]; intros w; cbn [app emit_lines].
  - reflexivity.
  - rewrite bind_assoc. unfold bind in *.
    destruct (_write_line (LineBuffer_init stream) l w) as [[[]|e|] w1];
      [|reflexivity|reflexivity].
    apply IH.
Qed.

(** Lines emitted to a stream that accepts them: each line and one
    separator after it, appended to the stream in order; nothing else
    changes. *)
Lemma emit_lines_stream (stream : nat) (lines : list bytes) (w : World) :
  writable stream w ->
  emit_lines (Some stream) lines w =
  (Ok tt,
   set_files
     (update_nth stream
        (append_data (flat_map (fun l => l ++ [NL]) lines)) (files w)) w).
Proof.
  revert w. induction lines as [|l rest IH]; intros w Hw.
  - cbn. unfold ret. f_equal. destruct w. unfold set_files. cbn. f_equal.
    symmetry. apply update_nth_id. apply append_data_nil.
  - cbn [emit_lines flat_map]. unfold bind at 1.
    change (_write_line (LineBuffer_init (Some stream)) l)
      with (stream_write stream l ;; stream_write stream [NL]).
    rewrite stream_write_twice, stream_write_writable by exact Hw.
    rewrite IH by (apply writable_after_write; exact Hw).
    unfold set_files. cbn. rewrite update_nth_twice.
    rewrite (@update_nth_ext _ stream _ _ (files w)
               (append_data_twice (l ++ [NL])
                  (flat_map (fun l0 => l0 ++ [NL]) rest))).
    reflexivity.
Qed.

(** Lines emitted to the log, when each of them is valid UTF-8: one
    record for each line, in order; nothing else changes. *)
Lemma emit_lines_log (lines : list bytes) (w : World) :
  Forall (fun l => utf8_valid l = true) lines ->
  emit_lines None lines w =
  (Ok tt, set_log (log w ++ map string_of_list_byte lines) w).
Proof.
  intros H. revert w. induction H as [|l rest Hl _ IH]; intros w.
  - cbn. unfold ret. f_equal. destruct w. unfold set_log. cbn.
    now rewrite app_nil_r.
  - cbn [emit_lines map]. unfold bind, _write_line, decode. cbn.
    rewrite Hl. cbn. rewrite IH. unfold set_log. cbn.
    now rewrite <- app_assoc.
Qed.

(** ** What [write] and [flush] do *)

Lemma at_end_eta (self : LineBuffer) :
  at_end self -> self = with_pending (pending self) self.
Proof.
  destruct self as [st [v p]]. unfold at_end, with_pending, pending. cbn.
  now intros ->.
Qed.

Lemma write_found_spec (self : LineBuffer) (line : bytes) (w : World) :
  at_end self ->
  write_found line (self, w) =
  let (r, w') :=
    _write_line (LineBuffer_init (_stream self)) (pending self ++ line) w in
  (r, (with_pending [] self, w')).
Proof.
  intros Hend. unfold write_found.
  destruct (truthy (getvalue (_buffer self))) eqn:Hp.
  - reflexivity.
  - assert (Hnil : pending self = []).
    { unfold pending. now destruct (getvalue (_buffer self)). }
    pose proof (at_end_eta self Hend) as E. rewrite Hnil in *.
    rewrite <- E. reflexivity.
Qed.

(** The loop of [write] emits the lines of the data, the pending bytes
    before the first, and returns the tail. *)
Lemma write_loop_spec (n : nat) :
  forall (data : bytes) (self : LineBuffer) (w : World),
    (length data <= n)%nat ->
    at_end self ->
    write_loop data (self, w) =
    match cut data with
    | ([], _) => (Ok data, (self, w))
    | (l :: ls, tl) =>
        match emit_lines (_stream self) ((pending self ++ l) :: ls) w with
        | (Ok _, w') => (Ok tl, (with_pending [] self, w'))
        | (Raise e, w') => (Raise e, (with_pending [] self, w'))
        | (Blocked, w') => (Blocked, (with_pending [] self, w'))
        end
    end.
Proof.
  induction n as [|n IH]; intros data self w Hlen Hend;
    rewrite write_loop_step;
    destruct (find_cut data) as [[Hf Hc]|[i (Hf & Hi & Hc)]];
    rewrite Hf, Hc; cbv zeta; try reflexivity; try lia.
  replace (Z.of_nat i =? -1) with false by (symmetry; apply Z.eqb_neq; lia).
  unfold slice_to, slice_from.
  replace (Z.to_nat (Z.of_nat i + 1)) with (S i) by lia.
  rewrite Nat2Z.id, write_found_spec by exact Hend.
  cbn [emit_lines]. unfold bind.
  destruct (_write_line (LineBuffer_init (_stream self))
              (pending self ++ firstn i data) w) as [[[]|e|] w1];
    try reflexivity.
  rewrite IH; [|rewrite length_skipn; lia|reflexivity].
  destruct (cut (skipn (S i) data)) as [[|l2 ls2] tl2] eqn:Hc2; cbn [fst snd].
  - assert (tl2 = skipn (S i) data) as ->
      by (rewrite <- (cut_nil_tail (skipn (S i) data)); now rewrite Hc2).
    reflexivity.
  - reflexivity.
Qed.

Lemma bio_write_at_end (data v : bytes) :
  bio_write data (mkBytesIO v (length v)) =
  mkBytesIO (v ++ data) (length (v ++ data)).
Proof.
  unfold bio_write. cbn [bio_value bio_pos].
  rewrite firstn_all, Nat.sub_diag, skipn_all2, app_nil_r, length_app by lia.
  reflexivity.
Qed.

(** [write], on a buffer whose pending bytes hold no separator: the
    lines of the pending bytes followed by the data are emitted, and
    their tail is left pending. *)
Lemma write_spec (data : bytes) (self : LineBuffer) (w : World) :
  at_end self ->
  no_nl (pending self) ->
  write data (self, w) =
  match emit_lines (_stream self) (fst (cut (pending self ++ data))) w with
  | (Ok _, w') =>
      (Ok tt, (with_pending (snd (cut (pending self ++ data))) self, w'))
  | (Raise e, w') => (Raise e, (with_pending [] self, w'))
  | (Blocked, w') => (Blocked, (with_pending [] self, w'))
  end.
Proof.
  intros Hend Hnl. unfold write.
  rewrite (write_loop_spec (length data)) by (auto; lia).
  rewrite cut_app_no_nl by exact Hnl.
  destruct (cut data) as [[|l ls] tl] eqn:Hc; cbn [fst snd].
  - assert (tl = data) as -> by (rewrite <- (cut_nil_tail data); now rewrite Hc).
    cbn [emit_lines]. unfold ret.
    destruct data as [|c rest]; cbn [truthy].
    + now rewrite app_nil_r, <- (at_end_eta self Hend).
    + destruct self as [st [v p]]. unfold at_end in Hend. cbn in Hend. subst p.
      unfold with_pending, set_buffer, pending.
      cbn [_buffer _stream getvalue bio_value].
      now rewrite bio_write_at_end.
  - destruct (emit_lines (_stream self) ((pending self ++ l) :: ls) w)
      as [[[]|e|] w1]; try reflexivity.
    destruct tl as [|c rest]; cbn [truthy]; [reflexivity|].
    unfold with_pending, set_buffer. cbn [_buffer _stream].
    now rewrite (bio_write_at_end (c :: rest) []).
Qed.

Lemma emit_lines_not_blocked (stream : option nat) (lines : list bytes) (w : World) :
  fst (emit_lines stream lines w) <> Blocked.
Proof.
  revert w. induction lines as [|l rest IH]; intros w; cbn; [discriminate|].
  unfold bind, _write_line. cbn [_stream LineBuffer_init].
  destruct stream as [h|].
  - unfold bind, stream_write.
    destruct (nth_error (files w) h) as [f|]; [|discriminate].
    destruct (f_mode f); [discriminate|].
    destruct (f_closed f); [discriminate|]. cbn.
    destruct (nth_error _ h) as [f'|]; [|discriminate].
    destruct (f_mode f'); [discriminate|].
    destruct (f_closed f'); [discriminate|]. apply IH.
  - destruct (decode l); cbn; [apply IH|discriminate].
Qed.

(** Chunks written one after the other: the lines of the pending bytes
    followed by all the chunks are emitted, whatever the chunks. *)
Lemma write_all_spec (chunks : list bytes) :
  forall (self : LineBuffer) (w : World),
    at_end self ->
    no_nl (pending self) ->
    observed (write_all chunks (self, w)) =
    emit_lines (_stream self) (fst (cut (pending self ++ concat chunks))) w
    /\ (fst (write_all chunks (self, w)) = Ok tt ->
        fst (snd (write_all chunks (self, w))) =
        with_pending (snd (cut (pending self ++ concat chunks))) self).
Proof.
  induction chunks as [|chunk rest IH]; intros self w Hend Hnl.
  - cbn [write_all concat]. rewrite app_nil_r, cut_no_nl by exact Hnl.
    cbn. split; [reflexivity|]. intros _. now apply at_end_eta.
  - cbn [write_all concat]. unfold bind.
    rewrite write_spec by assumption.
    rewrite app_assoc, (cut_app (pending self ++ chunk)). cbn [fst snd].
    rewrite emit_lines_app. unfold bind.
    destruct (emit_lines (_stream self) (fst (cut (pending self ++ chunk))) w)
      as [[[]|e|] w1]; [|split; [reflexivity|discriminate]..].
    specialize (IH (with_pending (snd (cut (pending self ++ chunk))) self) w1).
    cbn [with_pending set_buffer _stream pending _buffer getvalue bio_value] in IH.
    destruct IH as [IH1 IH2]; [reflexivity|apply cut_tail_no_nl|].
    split; [exact IH1|].
    intros Hok. rewrite (IH2 Hok). reflexivity.
Qed.

Lemma flush_spec (self : LineBuffer) (w : World) :
  observed (flush (self, w)) =
  emit_lines (_stream self)
    (if truthy (pending self) then [pending self] else []) w.
Proof.
  unfold flush, observed, pending.
  destruct (truthy (getvalue (_buffer self))); [|reflexivity].
  cbn [emit_lines]. unfold bind. rewrite _write_line_stream.
  now destruct (_write_line (LineBuffer_init (_stream self))
                  (getvalue (_buffer self)) w) as [[[]|e|] w1].
Qed.

Lemma in_firstn {A : Type} (x : A) (n : nat) (l : list A) :
  In x (firstn n l) -> In x l.
Proof.
  intros H. rewrite <- (firstn_skipn n l). apply in_or_app. now left.
Qed.

Lemma in_skipn {A : Type} (x : A) (n : nat) (l : list A) :
  In x (skipn n l) -> In x l.
Proof.
  intros H. rewrite <- (firstn_skipn n l). apply in_or_app. now right.
Qed.

Lemma bio_write_no_nl (data : bytes) (b : BytesIO) :
  no_nl data -> no_nl (bio_value b) -> no_nl (bio_value (bio_write data b)).
Proof.
  unfold no_nl, bio_write. cbn [bio_value]. intros Hd Hb.
  rewrite !in_app_iff. intros [H|[H|[H|H]]].
  - apply Hb. eapply in_firstn, H.
  - apply repeat_spec in H. discriminate H.
  - exact (Hd H).
  - apply Hb. eapply in_skipn, H.
Qed.

Lemma write_found_no_nl (line : bytes) (self : LineBuffer) (w : World) :
  no_nl (pending self) ->
  no_nl (pending (fst (snd (write_found line (self, w))))).
Proof.
  intros H. unfold write_found.
  destruct (truthy (getvalue (_buffer self))).
  - destruct (_write_line _ _ w) as [r w1]. cbn. intros [].
  - now destruct (_write_line self line w) as [r w1].
Qed.

Lemma write_loop_no_nl (n : nat) :
  forall (data : bytes) (self : LineBuffer) (w : World),
    (length data <= n)%nat ->
    no_nl (pending self) ->
    no_nl (pending (fst (snd (write_loop data (self, w)))))
    /\ (forall rest, fst (write_loop data (self, w)) = Ok rest -> no_nl rest).
Proof.
  induction n as [|n IH]; intros data self w Hlen Hnl;
    rewrite write_loop_step;
    destruct (find_cut data) as [[Hf Hc]|[i (Hf & Hi & Hc)]];
    rewrite Hf; cbv zeta; try lia.
  1, 2: cbn; split; [exact Hnl|]; intros rest [= <-];
    rewrite <- (cut_nil_tail data) by (now rewrite Hc); apply cut_tail_no_nl.
  replace (Z.of_nat i =? -1) with false by (symmetry; apply Z.eqb_neq; lia).
  pose proof (write_found_no_nl (slice_to data (Z.of_nat i)) self w Hnl) as Hw.
  destruct (write_found (slice_to data (Z.of_nat i)) (self, w))
    as [[[]|e|] [self1 w1]]; cbn [fst snd] in *.
  - apply IH; [|exact Hw]. unfold slice_from. rewrite length_skipn. lia.
  - split; [exact Hw|discriminate].
  - split; [exact Hw|discriminate].
Qed.

(** The pending bytes of a buffer hold no separator, whatever was called
    on it and whatever the calls did. *)
Lemma reachable_no_nl (self : LineBuffer) : reachable self -> no_nl (pending self).
Proof.
  induction 1 as [stream|self data w _ IH|self w _ IH].
  - intros [].
  - unfold write.
    destruct (write_loop_no_nl (length data) data self w (le_n _) IH) as [H1 H2].
    destruct (write_loop data (self, w)) as [[rest|e|] [self1 w1]];
      cbn [fst snd] in *; try exact H1.
    destruct (truthy rest); cbn [fst snd]; [|exact H1].
    apply bio_write_no_nl; [now apply H2|exact H1].
  - unfold flush. destruct (truthy (getvalue (_buffer self))); [|exact IH].
    destruct (_write_line self _ w) as [[[]|e|] w1]; cbn; [intros []|exact IH..].
Qed.

(** ** The properties of [LineBuffer] *)

(** C1. Whatever the bytes [B] and however they are cut into chunks,
    writing the chunks in order to a new buffer and flushing it once does
    to the log and to the streams what writing the lines of [B] one by
    one with [_write_line] does, with the same outcome: the segments that
    a separator ends, in their order, and the segment after the last
    separator when it is not empty; none for an empty [B].  On a stream
    that accepts writes each line arrives once, followed by one
    separator; on the log, when each line is valid UTF-8, each line is
    one record. *)
Theorem write_chunks_flush_emits_lines
    (stream : option nat) (chunks : list bytes) (w : World) :
  let B := concat chunks in
  let result :=
    observed ((write_all chunks ;; flush) (LineBuffer_init stream, w)) in
  result = emit_lines stream (lines_of B) w
  /\ lines_of [] = []
  /\ (forall h : nat,
         stream = Some h -> writable h w ->
         result =
         (Ok tt,
          set_files
            (update_nth h
               (append_data (flat_map (fun l => l ++ [NL]) (lines_of B)))
               (files w)) w))
  /\ (stream = None ->
      Forall (fun l => utf8_valid l = true) (lines_of B) ->
      result = (Ok tt, set_log (log w ++ map string_of_list_byte (lines_of B)) w)).
Proof.
  intros B result.
  assert (Heq : result = emit_lines stream (lines_of B) w).
  { subst result B. rewrite lines_of_cut, emit_lines_app.
    destruct (write_all_spec chunks (LineBuffer_init stream) w)
      as [H1 H2]; [reflexivity|intros []|].
    cbn [pending LineBuffer_init _buffer _stream getvalue BytesIO_new
         bio_value app] in H1, H2.
    unfold bind. rewrite <- H1. unfold observed in *.
    destruct (write_all chunks (LineBuffer_init stream, w))
      as [[[]|e|] [self1 w1]]; cbn [fst snd] in *; try reflexivity.
    rewrite (H2 eq_refl).
    exact (flush_spec (with_pending (snd (cut (concat chunks)))
                         (LineBuffer_init stream)) w1). }
  split; [exact Heq|]. split; [reflexivity|]. split.
  - intros h -> Hw. rewrite Heq. now apply emit_lines_stream.
  - intros -> Hv. rewrite Heq. now apply emit_lines_log.
Qed.

(** C7. When a line is emitted by a buffer made with a stream, the
    stream gets the bytes of the line and one separator after them, as
    one write of the two would do, and nothing else changes; by a buffer
    made without stream, the line decoded as UTF-8 becomes one record of
    the log, and a line that does not decode raises the decoding error,
    nothing being recorded. *)
Theorem _write_line_emits (self : LineBuffer) (line : bytes) (w : World) :
  match _stream self with
  | Some stream =>
      _write_line self line w = stream_write stream (line ++ [NL]) w
      /\ (writable stream w ->
          _write_line self line w =
          (Ok tt,
           set_files
             (update_nth stream (append_data (line ++ [NL])) (files w)) w))
  | None =>
      match decode line with
      | Some text =>
          _write_line self line w = (Ok tt, set_log (log w ++ [text]) w)
      | None => _write_line self line w = (Raise UnicodeDecodeError, w)
      end
  end.
Proof.
  unfold _write_line. destruct (_stream self) as [stream|].
  - rewrite stream_write_twice. split; [reflexivity|].
    apply stream_write_writable.
  - now destruct (decode line).
Qed.

(** C8, as the code has it.  The pending bytes of a buffer hold no
    separator after any call of [write], whatever the buffer went through
    before and whatever the call did; after a call of [flush] that
    returns they are empty, and a second [flush] then returns without a
    change to the log or to a stream; a [flush] that raises, its line
    not being emitted, leaves the buffer as it was, the pending bytes
    in it. *)
Theorem pending_invariant (self : LineBuffer) :
  reachable self ->
  (forall (data : bytes) (w : World),
      no_nl (pending (fst (snd (write data (self, w))))))
  /\ (forall (w : World) (self' : LineBuffer) (w' : World),
         flush (self, w) = (Ok tt, (self', w')) ->
         pending self' = []
         /\ forall w2 : World, flush (self', w2) = (Ok tt, (self', w2)))
  /\ (forall (w : World) (e : exn) (self' : LineBuffer) (w' : World),
         flush (self, w) = (Raise e, (self', w')) ->
         self' = self /\ pending self' <> []).
Proof.
  intros Hr. split; [|split].
  - intros data w. apply reachable_no_nl. now constructor.
  - intros w self' w' Hf.
    assert (Hp : pending self' = []).
    { unfold flush in Hf. unfold pending.
      destruct (truthy (getvalue (_buffer self))) eqn:Ht.
      - destruct (_write_line self _ w) as [[[]|e|] w1]; inversion Hf.
        reflexivity.
      - inversion Hf; subst. now destruct (getvalue (_buffer self')). }
    split; [exact Hp|]. intros w2. unfold flush.
    unfold pending in Hp. now rewrite Hp.
  - intros w e self' w'. unfold flush, pending.
    destruct (getvalue (_buffer self)) as [|c rest] eqn:Ep; cbn [truthy];
      [discriminate|].
    destruct (_write_line self (c :: rest) w) as [[[]|e1|] w1];
      intros [= <- <- <-]. split; [reflexivity|]. rewrite Ep. discriminate.
Qed.

(** C10. [write] of no byte returns and changes nothing, neither the
    pending bytes nor the log nor a stream, whatever the buffer; a
    [flush] after it does what it would have done without it. *)
Theorem write_empty_noop (self : LineBuffer) (w : World) :
  write [] (self, w) = (Ok tt, (self, w))
  /\ (write [] ;; flush) (self, w) = flush (self, w).
Proof.
  assert (H : write [] (self, w) = (Ok tt, (self, w))).
  { unfold write. rewrite write_loop_step. reflexivity. }
  split; [exact H|]. unfold bind. now rewrite H.
Qed.

(** ** More on [LineBuffer] *)

Lemma write_found_at_end (line : bytes) (self : LineBuffer) (w : World) :
  at_end self -> at_end (fst (snd (write_found line (self, w)))).
Proof.
  intros H. unfold write_found.
  destruct (truthy (getvalue (_buffer self))).
  - now destruct (_write_line _ _ w) as [r w1].
  - now destruct (_write_line self line w) as [r w1].
Qed.

Lemma write_loop_at_end (n : nat) :
  forall (data : bytes) (self : LineBuffer) (w : World),
    (length data <= n)%nat ->
    at_end self ->
    at_end (fst (snd (write_loop data (self, w)))).
Proof.
  induction n as [|n IH]; intros data self w Hlen Hend;
    rewrite write_loop_step;
    destruct (find_cut data) as [[Hf Hc]|[i (Hf & Hi & Hc)]];
    rewrite Hf; cbv zeta; try lia; try exact Hend.
  replace (Z.of_nat i =? -1) with false by (symmetry; apply Z.eqb_neq; lia).
  pose proof (write_found_at_end (slice_to data (Z.of_nat i)) self w Hend) as Hw.
  destruct (write_found (slice_to data (Z.of_nat i)) (self, w))
    as [[[]|e|] [self1 w1]]; cbn [fst snd] in *; try exact Hw.
  apply IH; [|exact Hw]. unfold slice_from. rewrite length_skipn. lia.
Qed.

(** The position of the buffer of a [LineBuffer] is its end, whatever
    was called on it. *)
Lemma reachable_at_end (self : LineBuffer) : reachable self -> at_end self.
Proof.
  induction 1 as [stream|self data w _ IH|self w _ IH].
  - reflexivity.
  - unfold write.
    pose proof (write_loop_at_end (length data) data self w (le_n _) IH) as H.
    destruct (write_loop data (self, w)) as [[rest|e|] [self1 w1]];
      cbn [fst snd] in *; try exact H.
    destruct (truthy rest); cbn [fst snd]; [|exact H].
    destruct self1 as [st [v p]]. unfold at_end in *. cbn in *. subst p.
    rewrite firstn_all, Nat.sub_diag, skipn_all2 by lia. cbn.
    rewrite app_nil_r, length_app. reflexivity.
  - unfold flush. destruct (truthy (getvalue (_buffer self))); [|exact IH].
    now destruct (_write_line self _ w) as [[[]|e|] w1].
Qed.

(** The lines, each with its separator, and the tail are the data. *)
Lemma cut_join (data : bytes) :
  flat_map (fun l => l ++ [NL]) (fst (cut data)) ++ snd (cut data) = data.
Proof.
  induction data as [|c rest IH]; cbn [cut]; [reflexivity|].
  destruct (cut rest) as [ls tl]. cbn [fst snd] in *.
  destruct (Byte.eqb c NL) eqn:Ec.
  - apply byte_dec_bl in Ec. subst c. cbn. now rewrite IH.
  - destruct ls as [|l ls]; cbn [fst snd flat_map app] in *.
    + now rewrite IH.
    + now rewrite <- IH.
Qed.

Lemma no_nl_app (a b : bytes) : no_nl a -> no_nl b -> no_nl (a ++ b).
Proof. unfold no_nl. intros Ha Hb H. apply in_app_or in H. tauto. Qed.

(** Lines without separator, each with its separator, are cut back into
    the lines. *)
Lemma cut_lines (ls : list bytes) (data : bytes) :
  Forall no_nl ls ->
  cut (flat_map (fun l => l ++ [NL]) ls ++ data) =
  (ls ++ fst (cut data), snd (cut data)).
Proof.
  induction 1 as [|l rest Hl _ IH]; cbn [flat_map app].
  - now destruct (cut data).
  - rewrite <- !app_assoc. rewrite cut_app_no_nl by exact Hl.
    cbn [app cut]. rewrite IH. cbn. now rewrite app_nil_r.
Qed.

Lemma with_pending_twice (a b : bytes) (self : LineBuffer) :
  with_pending a (with_pending b self) = with_pending a self.
Proof. reflexivity. Qed.

(** X1.  On a buffer that [write] and [flush] calls have left, writing
    [a ++ b] in one call is writing [a] and then [b]: the same outcome,
    the same log and streams, the same pending bytes, also when a line
    cannot be emitted. *)
Theorem write_app_is_write_twice
    (self : LineBuffer) (a b : bytes) (w : World) :
  reachable self ->
  write (a ++ b) (self, w) = (write a ;; write b) (self, w).
Proof.
  intros Hr.
  pose proof (reachable_at_end self Hr) as Hend.
  pose proof (reachable_no_nl self Hr) as Hnl.
  unfold bind. rewrite !write_spec by assumption.
  rewrite app_assoc, (cut_app (pending self ++ a)). cbn [fst snd].
  rewrite emit_lines_app. unfold bind.
  destruct (emit_lines (_stream self) (fst (cut (pending self ++ a))) w)
    as [[[]|e|] w1]; try reflexivity.
  rewrite write_spec; [|reflexivity|apply cut_tail_no_nl].
  cbn [with_pending set_buffer _stream pending _buffer getvalue bio_value].
  destruct (emit_lines (_stream self) _ w1) as [[[]|e|] w2]; reflexivity.
Qed.

(** X2.  Data that holds no separator is kept and nothing is emitted:
    [write] returns, the log and the streams are as before, whatever
    their state, and the data is added to the pending bytes. *)
Theorem write_without_separator_only_buffers
    (self : LineBuffer) (data : bytes) (w : World) :
  reachable self ->
  no_nl data ->
  write data (self, w) =
  (Ok tt, (with_pending (pending self ++ data) self, w)).
Proof.
  intros Hr Hd.
  pose proof (reachable_at_end self Hr) as Hend.
  pose proof (reachable_no_nl self Hr) as Hnl.
  rewrite write_spec by assumption.
  rewrite cut_no_nl by now apply no_nl_app.
  reflexivity.
Qed.

Lemma written_update_nth (h : nat) (data : bytes) (w : World) :
  writable h w ->
  written h (set_files (update_nth h (append_data data) (files w)) w)
  = written h w ++ data.
Proof.
  intros (f & Hf & _). unfold written. cbn [files set_files].
  rewrite nth_error_update_nth, Hf. reflexivity.
Qed.

Lemma last_app_cons {A : Type} (x : list A) (a : A) (y : list A) (d : A) :
  last (x ++ a :: y) d = last (a :: y) d.
Proof.
  induction x as [|b x IH]; [reflexivity|].
  cbn [app]. rewrite <- IH. destruct (x ++ a :: y) eqn:E; [|reflexivity].
  now destruct x.
Qed.

(** Lines, each with its separator, end with a separator. *)
Lemma last_lines (ls : list bytes) :
  last (flat_map (fun l => l ++ [NL]) ls) NL = NL.
Proof.
  induction ls as [|l rest IH]; [reflexivity|]. cbn [flat_map].
  destruct (flat_map (fun l0 => l0 ++ [NL]) rest) as [|c tl] eqn:E.
  - rewrite app_nil_r. apply last_last.
  - rewrite last_app_cons. exact IH.
Qed.

(** X3.  A buffer with a stream that accepts writes passes the bytes on
    unchanged and keeps no complete line: after [write], the stream has
    received the bytes up to the last separator among the pending bytes
    and the data, and the buffer keeps what follows that separator;
    [flush] moves the pending bytes to the stream and ends them with one
    separator; neither touches the log or another stream. *)
Theorem stream_and_pending_hold_the_bytes
    (self : LineBuffer) (h : nat) (data : bytes) (w : World) :
  reachable self ->
  _stream self = Some h ->
  writable h w ->
  (exists self' w' e,
      write data (self, w) = (Ok tt, (self', w'))
      /\ written h w' = written h w ++ e
      /\ e ++ pending self' = pending self ++ data
      /\ last e NL = NL
      /\ no_nl (pending self')
      /\ log w' = log w
      /\ forall h', h' <> h -> nth_error (files w') h' = nth_error (files w) h')
  /\ (exists self' w',
         flush (self, w) = (Ok tt, (self', w'))
         /\ pending self' = []
         /\ written h w' =
            written h w ++ pending self
            ++ (if truthy (pending self) then [NL] else [])
         /\ log w' = log w
         /\ forall h', h' <> h -> nth_error (files w') h' = nth_error (files w) h').
Proof.
  intros Hr Hs Hw.
  pose proof (reachable_at_end self Hr) as Hend.
  pose proof (reachable_no_nl self Hr) as Hnl.
  split.
  - rewrite write_spec, Hs, emit_lines_stream by assumption.
    eexists _, _, _. split; [reflexivity|].
    rewrite written_update_nth by assumption.
    cbn [with_pending set_buffer pending _buffer getvalue bio_value].
    split; [reflexivity|]. split; [apply cut_join|].
    split; [apply last_lines|]. split; [apply cut_tail_no_nl|].
    split; [reflexivity|].
    intros h' Hh. cbn [files set_files].
    now apply nth_error_update_nth_other.
  - unfold flush. fold (pending self).
    destruct (truthy (pending self)) eqn:Ht.
    + rewrite _write_line_stream, Hs.
      pose proof (emit_lines_stream h [pending self] w Hw) as He.
      cbn [emit_lines flat_map] in He. unfold bind, ret in He.
      destruct (_write_line (LineBuffer_init (Some h)) (pending self) w)
        as [[[]|e|] w1]; try discriminate.
      injection He as ->.
      eexists _, _. split; [reflexivity|].
      rewrite written_update_nth by assumption. rewrite app_nil_r.
      repeat split. intros h' Hh. cbn [files set_files].
      now apply nth_error_update_nth_other.
    + eexists _, _. split; [reflexivity|].
      destruct (pending self) eqn:Ep; [|discriminate].
      rewrite !app_nil_r. repeat split.
Qed.

(** X4.  When a line cannot be emitted, [write] has dropped the pending
    bytes and keeps nothing of the data, while [flush] keeps the pending
    bytes: the buffer is as it was before the call. *)
Theorem write_error_drops_pending_flush_error_keeps
    (self : LineBuffer) (w : World) :
  reachable self ->
  (forall (data : bytes) (e : exn) (self' : LineBuffer) (w' : World),
      write data (self, w) = (Raise e, (self', w')) -> pending self' = [])
  /\ (forall (e : exn) (self' : LineBuffer) (w' : World),
         flush (self, w) = (Raise e, (self', w')) ->
         self' = self /\ pending self <> []).
Proof.
  intros Hr.
  pose proof (reachable_at_end self Hr) as Hend.
  pose proof (reachable_no_nl self Hr) as Hnl.
  split.
  - intros data e self' w'. rewrite write_spec by assumption.
    destruct (emit_lines _ _ w) as [[[]|e1|] w1]; intros [= <- <- <-].
    reflexivity.
  - intros e self' w'. unfold flush. fold (pending self).
    destruct (pending self) as [|c rest] eqn:Ep; cbn [truthy]; [discriminate|].
    destruct (_write_line self (c :: rest) w) as [[[]|e1|] w1];
      intros [= <- <- <-]. split; [reflexivity|discriminate].
Qed.

(** X5.  With bytes pending, [flush] does to the log and to the streams
    what [write] of one separator does, with the same outcome; when it
    returns, the buffer is the same too. *)
Theorem flush_is_write_of_separator (self : LineBuffer) (w : World) :
  reachable self ->
  pending self <> [] ->
  observed (flush (self, w)) = observed (write [NL] (self, w))
  /\ (fst (flush (self, w)) = Ok tt -> flush (self, w) = write [NL] (self, w)).
Proof.
  intros Hr Hp.
  pose proof (reachable_at_end self Hr) as Hend.
  pose proof (reachable_no_nl self Hr) as Hnl.
  rewrite write_spec by assumption.
  rewrite cut_app_no_nl by assumption. cbn [cut fst snd].
  replace (Byte.eqb NL NL) with true by reflexivity. cbn [fst snd].
  rewrite app_nil_r.
  unfold flush. fold (pending self).
  destruct (pending self) as [|c rest] eqn:Ep; [congruence|]. cbn [truthy].
  cbn [emit_lines]. unfold bind, ret, observed. rewrite _write_line_stream.
  destruct (_write_line (LineBuffer_init (_stream self)) (c :: rest) w)
    as [[[]|e|] w1]; cbn [fst snd]; split; try reflexivity; try discriminate.
Qed.

(** X6.  Without a stream, a line that does not decode stops [write]:
    the lines before it are in the log, one record each, the error of
    the decoding is raised, and neither the line nor what follows it in
    the data is recorded or kept. *)
Theorem write_log_stops_at_undecodable_line
    (self : LineBuffer) (data : bytes) (w : World)
    (good : list bytes) (bad rest : bytes) :
  reachable self ->
  _stream self = None ->
  Forall no_nl good ->
  Forall (fun l => utf8_valid l = true) good ->
  no_nl bad ->
  utf8_valid bad = false ->
  pending self ++ data
  = flat_map (fun l => l ++ [NL]) good ++ bad ++ [NL] ++ rest ->
  exists self',
    write data (self, w) =
    (Raise UnicodeDecodeError,
     (self', set_log (log w ++ map string_of_list_byte good) w))
    /\ pending self' = [].
Proof.
  intros Hr Hs Hg Hv Hb Hbad Hd.
  pose proof (reachable_at_end self Hr) as Hend.
  pose proof (reachable_no_nl self Hr) as Hnl.
  rewrite write_spec, Hd, Hs by assumption.
  rewrite cut_lines by assumption. cbn [fst snd].
  rewrite cut_app_no_nl by assumption. cbn [app cut].
  replace (Byte.eqb NL NL) with true by reflexivity.
  destruct (cut rest) as [ls tl]. cbn [fst snd]. rewrite app_nil_r.
  rewrite emit_lines_app. unfold bind.
  rewrite emit_lines_log by assumption.
  cbn [emit_lines]. unfold bind, _write_line, decode.
  cbn [_stream LineBuffer_init]. rewrite Hbad. unfold raise.
  eexists. split; reflexivity.
Qed.

(** ** Frame properties *)

Section Preserves.

Context {S : Type} (R : S -> S -> Prop).
Hypothesis R_refl : forall s, R s s.
Hypothesis R_trans : forall s1 s2 s3, R s1 s2 -> R s2 s3 -> R s1 s3.

Lemma preserves_ret {A : Type} (a : A) : preserves R (ret a).
Proof. intros s. apply R_refl. Qed.

Lemma preserves_raise {A : Type} (e : exn) : preserves R (@raise S A e).
Proof. intros s. apply R_refl. Qed.

Lemma preserves_get : preserves R get.
Proof. intros s. apply R_refl. Qed.

Lemma preserves_bind {A B : Type} (m : M S A) (k : A -> M S B) :
  preserves R m -> (forall a, preserves R (k a)) -> preserves R (bind m k).
Proof.
  intros Hm Hk s. unfold bind. specialize (Hm s).
  destruct (m s) as [[a|e|] s1]; cbn [snd] in *; try exact Hm.
  eapply R_trans; [exact Hm|apply Hk].
Qed.

Lemma preserves_try_finally {A : Type} (body : M S A) (handler : M S unit) :
  preserves R body -> preserves R handler ->
  preserves R (try_finally body handler).
Proof.
  intros Hb Hh s. unfold try_finally. specialize (Hb s).
  destruct (body s) as [[a|e|] s1]; cbn [snd] in *; try exact Hb.
  all: specialize (Hh s1); destruct (handler s1) as [[[]|e'|] s2];
    cbn [snd] in *; eapply R_trans; eassumption.
Qed.

End Preserves.

Lemma same_os_refl (w : World) : same_os w w.
Proof. repeat split. Qed.

Lemma same_os_trans (w1 w2 w3 : World) :
  same_os w1 w2 -> same_os w2 w3 -> same_os w1 w3.
Proof.
  unfold same_os. intros (a1 & b1 & c1 & d1) (a2 & b2 & c2 & d2).
  repeat split; congruence.
Qed.

Lemma on_world_refl {L : Type} (R : World -> World -> Prop) :
  (forall w, R w w) -> forall s : L * World, on_world R s s.
Proof. intros H s. apply H. Qed.

Lemma on_world_trans {L : Type} (R : World -> World -> Prop) :
  (forall w1 w2 w3, R w1 w2 -> R w2 w3 -> R w1 w3) ->
  forall s1 s2 s3 : L * World,
    on_world R s1 s2 -> on_world R s2 s3 -> on_world R s1 s3.
Proof. intros H s1 s2 s3. apply H. Qed.

Lemma map_shape_update_nth (n : nat) (f : FileObj -> FileObj) (l : list FileObj) :
  (forall x, shape (f x) = shape x) ->
  map shape (update_nth n f l) = map shape l.
Proof.
  intros H. revert n. induction l as [|x rest IH]; intros [|n]; cbn;
    congruence.
Qed.

Lemma stream_write_same_os (stream : nat) (data : bytes) :
  preserves same_os (stream_write stream data).
Proof.
  intros w. unfold stream_write.
  destruct (nth_error (files w) stream) as [f|]; [|apply same_os_refl].
  destruct (f_mode f); [apply same_os_refl|].
  destruct (f_closed f); [apply same_os_refl|].
  repeat split. cbn. now apply map_shape_update_nth.
Qed.

Lemma _write_line_same_os (self : LineBuffer) (line : bytes) :
  preserves same_os (_write_line self line).
Proof.
  unfold _write_line. destruct (_stream self) as [stream|].
  - apply (preserves_bind same_os same_os_trans);
      [|intros _]; apply stream_write_same_os.
  - destruct (decode line); intros w; repeat split.
Qed.

Lemma write_found_same_os (line : bytes) :
  preserves (on_world same_os) (write_found line).
Proof.
  intros [self w]. unfold write_found, on_world.
  destruct (truthy (getvalue (_buffer self))).
  - pose proof (_write_line_same_os
                  (set_buffer (seek 0 (truncate 0 (_buffer self))) self)
                  (getvalue (_buffer self) ++ line) w) as H.
    now destruct (_write_line _ _ w).
  - pose proof (_write_line_same_os self line w) as H.
    now destruct (_write_line _ _ w).
Qed.

Lemma write_loop_same_os (n : nat) :
  forall (data : bytes) (s : LineBuffer * World),
    (length data <= n)%nat ->
    on_world same_os s (snd (write_loop data s)).
Proof.
  induction n as [|n IH]; intros data s Hlen;
    rewrite write_loop_step;
    destruct (find_cut data) as [[Hf Hc]|[i (Hf & Hi & Hc)]];
    rewrite Hf; cbv zeta; try lia; try apply same_os_refl.
  replace (Z.of_nat i =? -1) with false by (symmetry; apply Z.eqb_neq; lia).
  pose proof (write_found_same_os (slice_to data (Z.of_nat i)) s) as Hw.
  destruct (write_found (slice_to data (Z.of_nat i)) s) as [[[]|e|] s1];
    cbn [snd] in *; try exact Hw.
  eapply (on_world_trans same_os same_os_trans); [exact Hw|].
  apply IH. unfold slice_from. rewrite length_skipn. lia.
Qed.

(** [write] changes the log and what the streams hold, nothing else. *)
Lemma write_same_os (data : bytes) :
  preserves (on_world same_os) (write data).
Proof.
  intros s. unfold write.
  pose proof (write_loop_same_os (length data) data s (le_n _)) as H.
  destruct (write_loop data s) as [[rest|e|] [self1 w1]]; try exact H.
  now destruct (truthy rest).
Qed.

(** So does [flush]. *)
Lemma flush_same_os : preserves (on_world same_os) flush.
Proof.
  intros [self w]. unfold flush, on_world.
  destruct (truthy (getvalue (_buffer self))); [|apply same_os_refl].
  pose proof (_write_line_same_os self (getvalue (_buffer self)) w) as H.
  now destruct (_write_line _ _ w) as [[[]|e|] w1].
Qed.

(** *** The methods of a buffer return or raise *)

Lemma _write_line_not_blocked (self : LineBuffer) (line : bytes) (w : World) :
  fst (_write_line self line w) <> Blocked.
Proof.
  rewrite _write_line_stream.
  pose proof (emit_lines_not_blocked (_stream self) [line] w) as H.
  cbn [emit_lines] in H. unfold bind, ret in H.
  now destruct (_write_line (LineBuffer_init (_stream self)) line w)
    as [[[]|e|] w1].
Qed.

Lemma write_loop_not_blocked (n : nat) :
  forall (data : bytes) (s : LineBuffer * World),
    (length data <= n)%nat -> fst (write_loop data s) <> Blocked.
Proof.
  induction n as [|n IH]; intros data s Hlen;
    rewrite write_loop_step;
    destruct (find_cut data) as [[Hf Hc]|[i (Hf & Hi & Hc)]];
    rewrite Hf; cbv zeta; try lia; try discriminate.
  replace (Z.of_nat i =? -1) with false by (symmetry; apply Z.eqb_neq; lia).
  destruct s as [self w]. unfold write_found.
  destruct (truthy (getvalue (_buffer self)));
    match goal with
    | |- context [_write_line ?b ?l w] =>
        pose proof (_write_line_not_blocked b l w) as H;
        destruct (_write_line b l w) as [[[]|e|] w1]
    end; cbn [fst] in *; try discriminate; try congruence.
  all: apply IH; unfold slice_from; rewrite length_skipn; lia.
Qed.

Lemma write_not_blocked (data : bytes) (s : LineBuffer * World) :
  fst (write data s) <> Blocked.
Proof.
  unfold write.
  pose proof (write_loop_not_blocked (length data) data s (le_n _)) as H.
  destruct (write_loop data s) as [[rest|e|] [self1 w1]]; cbn [fst] in *;
    [destruct (truthy rest); discriminate|discriminate|congruence].
Qed.

Lemma flush_not_blocked (s : LineBuffer * World) : fst (flush s) <> Blocked.
Proof.
  destruct s as [self w]. unfold flush.
  destruct (truthy (getvalue (_buffer self))); [|discriminate].
  pose proof (_write_line_not_blocked self (getvalue (_buffer self)) w) as H.
  destruct (_write_line _ _ w) as [[[]|e|] w1]; cbn [fst] in *;
    [discriminate|discriminate|congruence].
Qed.

(** ** The calls of [_run] *)

Ltac world_simpl :=
  cbn [fst snd fds pipes trace files log
       set_trace set_pipes set_fds set_files set_log] in *.

Ltac unfold_monad :=
  unfold tick, bind, in_world, on_buffer, zoom, ret, modify, get, raise;
  world_simpl.

(** What [_process] does: it raises because the descriptor is not one
    of an open pipe; or the pipe is empty and nothing is read; or what
    the pipe holds is read and written to the buffer. *)
Lemma _process_spec (fd : nat) (buf : Which) (fr : Frame) (w : World) :
  (_process fd buf (fr, w) = (Raise OSError, (fr, w)))
  \/ (_process fd buf (fr, w) =
      (Ok tt, (fr, set_trace (trace w ++ [EAvailable fd 0]) w)))
  \/ (exists (data : bytes) (w1 : World),
         data <> []
         /\ fds w1 = fds w /\ files w1 = files w /\ log w1 = log w
         /\ trace w1 =
            trace w ++ [EAvailable fd (Z.of_nat (length data));
                        ERead fd data; EWrite buf data]
         /\ _process fd buf (fr, w) =
            (fst (write data (buffer_of buf fr, w1)),
             (set_buffer_of buf
                (fst (snd (write data (buffer_of buf fr, w1)))) fr,
              snd (snd (write data (buffer_of buf fr, w1)))))).
Proof.
  unfold _process, _available, os_read. unfold_monad.
  destruct (is_open fd w) eqn:Ho; [|now left].
  destruct (pipe_of_reader fd (pipes w)) as [p|] eqn:Hp; [|now left].
  destruct (p_data p) as [|c rest] eqn:Hd.
  - right. left. reflexivity.
  - right. right. cbn [length].
    replace (Z.of_nat (S (length rest)) >? 0) with true
      by (symmetry; apply Z.gtb_lt; lia).
    unfold is_open in *. world_simpl. rewrite Ho, Hp, Hd.
    rewrite Nat2Z.id. 
    change (S (length rest)) with (length (c :: rest)). rewrite firstn_all.
    unfold_monad.
    match goal with
    | |- context [write (c :: rest) (_, ?W)] => exists (c :: rest), W
    end.
    repeat split; try reflexivity; try discriminate.
    + world_simpl. rewrite <- !app_assoc. reflexivity.
    + match goal with
      | |- context [write ?d ?s] => destruct (write d s) as [r [b' w2]]
      end. reflexivity.
Qed.

Lemma _process_calls (fd : nat) (buf : Which) (s : Frame * World) :
  exists evs,
    trace (snd (snd (_process fd buf s))) = trace (snd s) ++ evs
    /\ process_calls fd buf (fst (_process fd buf s)) evs.
Proof.
  destruct s as [fr w].
  destruct (_process_spec fd buf fr w)
    as [H|[H|(data & w1 & Hd & _ & _ & _ & Ht & H)]]; rewrite H; cbn [fst snd].
  - exists []. rewrite app_nil_r. split; [reflexivity|]. now left.
  - eexists. split; [reflexivity|]. right. left. eauto.
  - eexists. destruct (write_same_os data (buffer_of buf fr, w1))
      as (_ & _ & Hw & _).
    rewrite Hw. cbn [snd]. split; [exact Ht|].
    right. right. exists data. repeat split; [exact Hd|].
    apply write_not_blocked.
Qed.

(** [_process] leaves the descriptors, the shape of the streams and the
    return code as they are. *)
Lemma _process_frame (fd : nat) (buf : Which) (s : Frame * World) :
  fds (snd (snd (_process fd buf s))) = fds (snd s)
  /\ map shape (files (snd (snd (_process fd buf s)))) =
     map shape (files (snd s))
  /\ returncode (fst (snd (_process fd buf s))) = returncode (fst s).
Proof.
  destruct s as [fr w].
  destruct (_process_spec fd buf fr w)
    as [H|[H|(data & w1 & Hd & Hf & Hfi & _ & Ht & H)]]; rewrite H;
    cbn [fst snd]; try (repeat split; reflexivity).
  destruct (write_same_os data (buffer_of buf fr, w1)) as (Hw1 & _ & _ & Hw2).
  cbn [snd] in *. rewrite Hw1, Hw2, Hf, Hfi.
  repeat split. now destruct buf.
Qed.

Lemma _process_not_blocked (fd : nat) (buf : Which) (s : Frame * World) :
  fst (_process fd buf s) <> Blocked.
Proof.
  destruct (_process_calls fd buf s) as (evs & _ & [[_ H]|[[_ [a H]]|(d & _ & H & _)]]);
    congruence.
Qed.

(** When it returns it has drained the descriptor. *)
Lemma process_calls_drained (fd : nat) (buf : Which) (evs : list Event) :
  process_calls fd buf (Ok tt) evs -> drained fd buf evs.
Proof.
  intros [[_ H]|[[-> _]|(data & Hd & _ & ->)]]; [discriminate| |].
  - left. exists 0. split; [lia|reflexivity].
  - right. exists (Z.of_nat (length data)), data.
    repeat split. destruct data; [congruence|cbn; lia].
Qed.

Lemma bytes_eqb_refl (data : bytes) : bytes_eqb data data = true.
Proof. unfold bytes_eqb. now destruct (list_eq_dec byte_eq_dec data data). Qed.

Lemma Which_eqb_refl (key : Which) : Which_eqb key key = true.
Proof. now destruct key. Qed.

(** Its calls are those expected for the first key left, in order. *)
Lemma process_calls_expected (out_reader err_reader : nat) (key : Which)
    (keys : list Which) {A : Type} (r : outcome A) (evs : list Event) :
  process_calls (fileobj out_reader err_reader key) key r evs ->
  exists x,
    expect_run out_reader err_reader (XProcess (key :: keys)) evs = Some x
    /\ ((exists a, r = Ok a) -> x = XProcess keys).
Proof.
  intros [[-> H]|[[-> _]|(data & Hd & _ & ->)]].
  - eexists. split; [reflexivity|]. intros [a Ha]. congruence.
  - cbn. rewrite Nat.eqb_refl. eauto.
  - assert (Hpos : (Z.of_nat (length data) >? 0) = true).
    { apply Z.gtb_lt. destruct data; [congruence|cbn; lia]. }
    cbn [expect_run expect_step]. rewrite Nat.eqb_refl, Hpos.
    cbn [expect_run expect_step]. rewrite Nat.eqb_refl.
    cbn [expect_run expect_step]. rewrite Which_eqb_refl, bytes_eqb_refl.
    cbn. eauto.
Qed.

Lemma process_calls_no_exit {A : Type} (fd : nat) (buf : Which)
    (r : outcome A) (evs : list Event) :
  process_calls fd buf r evs -> forallb (fun ev => negb (is_exit_poll ev)) evs = true.
Proof.
  intros [[-> H]|[[-> _]|(data & Hd & _ & ->)]]; reflexivity.
Qed.

Lemma expect_run_app (out_reader err_reader : nat) (x : Expect)
    (a b : list Event) :
  expect_run out_reader err_reader x (a ++ b) =
  match expect_run out_reader err_reader x a with
  | Some x' => expect_run out_reader err_reader x' b
  | None => None
  end.
Proof.
  revert x. induction a as [|ev rest IH]; intros x; cbn; [reflexivity|].
  destruct (expect_step out_reader err_reader x ev); [apply IH|reflexivity].
Qed.

(** The keys that [select] reported are processed in order; the
    descriptors, the shape of the streams and the return code stay. *)
Lemma process_events_effect (out_reader err_reader : nat) (keys : list Which) :
  forall s : Frame * World,
    let r := process_events out_reader err_reader keys s in
    fst r <> Blocked
    /\ fds (snd (snd r)) = fds (snd s)
    /\ map shape (files (snd (snd r))) = map shape (files (snd s))
    /\ returncode (fst (snd r)) = returncode (fst s)
    /\ exists evs,
        trace (snd (snd r)) = trace (snd s) ++ evs
        /\ forallb (fun ev => negb (is_exit_poll ev)) evs = true
        /\ exists x,
            expect_run out_reader err_reader (XProcess keys) evs = Some x
            /\ (fst r = Ok tt -> x = XProcess []).
Proof.
  induction keys as [|key rest IH]; intros s; cbn [process_events].
  - cbn. repeat split; try discriminate.
    exists []. rewrite app_nil_r. repeat split.
    exists (XProcess []). split; reflexivity.
  - unfold bind.
    pose proof (_process_frame (fileobj out_reader err_reader key) key s)
      as (Hf1 & Hf2 & Hf3).
    destruct (_process_calls (fileobj out_reader err_reader key) key s)
      as (evs1 & Ht1 & Hc1).
    pose proof (process_calls_expected out_reader err_reader key rest _ _ Hc1)
      as (x1 & Hx1 & Hx1').
    pose proof (process_calls_no_exit _ _ _ _ Hc1) as Hn1.
    pose proof (_process_not_blocked (fileobj out_reader err_reader key) key s)
      as Hb1.
    destruct (_process (fileobj out_reader err_reader key) key s)
      as [[[]|e|] s1]; cbn [fst snd] in *; [|clear IH..].
    + specialize (IH s1). cbv zeta in IH.
      destruct IH as (Hb & Hf1' & Hf2' & Hf3' & evs2 & Ht2 & Hn2 & x2 & Hx2 & Hx2').
      rewrite (Hx1' (ex_intro _ tt eq_refl)) in Hx1.
      repeat split; try congruence.
      exists (evs1 ++ evs2). rewrite Ht2, Ht1, app_assoc, forallb_app, Hn1, Hn2.
      repeat split. exists x2. rewrite expect_run_app, Hx1. auto.
    + repeat split; try congruence; try discriminate.
      exists evs1. repeat split; try assumption.
      exists x1. split; [exact Hx1|discriminate].
    + congruence.
Qed.

Lemma select_eq (pf : Platform) (out_writer err_writer n : nat)
    (fr : Frame) (w : World) :
  in_world (select pf out_writer err_writer n) (fr, w) =
  (Ok (select_ready pf n),
   (fr,
    set_trace (trace w ++ [ESelect (select_ready pf n)])
      (child_write err_writer (snd (select_writes pf n))
         (child_write out_writer (fst (select_writes pf n)) w)))).
Proof. reflexivity. Qed.

Lemma poll_eq (pf : Platform) (out_writer err_writer n : nat)
    (fr : Frame) (w : World) :
  poll pf out_writer err_writer n (fr, w) =
  (Ok (poll_status pf n),
   (set_returncode (poll_status pf n) fr,
    set_trace (trace w ++ [EPoll (poll_status pf n)])
      (child_write err_writer (snd (poll_writes pf n))
         (child_write out_writer (fst (poll_writes pf n)) w)))).
Proof. reflexivity. Qed.

(** The loop of [_run]: its calls are those of cycles in order; when it
    returns, the last call is the [poll] that saw the child exit, with
    the status the child exited with, and the process object remembers
    it; it returns or raises when the child exits within the fuel. *)
Lemma drain_loop_effect (pf : Platform)
    (out_reader out_writer err_reader err_writer : nat) (fuel : nat) :
  forall (n : nat) (s : Frame * World) (r : outcome unit) (s' : Frame * World),
    drain_loop pf out_reader out_writer err_reader err_writer fuel n s = (r, s') ->
    fds (snd s') = fds (snd s)
    /\ map shape (files (snd s')) = map shape (files (snd s))
    /\ (exit_status pf fuel n <> None -> r <> Blocked)
    /\ exists evs,
        trace (snd s') = trace (snd s) ++ evs
        /\ (exists x,
               expect_run out_reader err_reader XSelect evs = Some x
               /\ (r = Ok tt -> x = XDone))
        /\ (r = Ok tt ->
            exists code evs0,
              evs = evs0 ++ [EPoll (Some code)]
              /\ forallb (fun ev => negb (is_exit_poll ev)) evs0 = true
              /\ returncode (fst s') = Some code
              /\ exit_status pf fuel n = Some code).
Proof.
  induction fuel as [|fuel IH]; intros n [fr w] r s' H;
    cbn [drain_loop exit_status] in *.
  - injection H as <- <-. repeat split; try congruence.
    exists []. rewrite app_nil_r. repeat split; try discriminate.
    exists XSelect. split; [reflexivity|discriminate].
  - unfold bind in H. rewrite select_eq in H.
    match type of H with
    | context [process_events _ _ _ ?s0] =>
        pose proof (process_events_effect out_reader err_reader
                      (select_ready pf n) s0) as Hp
    end.
    cbv zeta in Hp.
    destruct Hp as (Hb & Hf1 & Hf2 & Hf3 & evs1 & Ht1 & Hn1 & x1 & Hx1 & Hx1').
    destruct (process_events out_reader err_reader (select_ready pf n) _)
      as [[[]|e|] [fr1 w1]];
      cbn [fst snd fds files trace set_trace child_write set_pipes] in *;
      [|clear IH..].
    + rewrite poll_eq in H. rewrite (Hx1' eq_refl) in Hx1.
      destruct (poll_status pf n) as [code|] eqn:Hs.
      * injection H as <- <-.
        cbn [fst snd fds files trace set_trace child_write set_pipes
             set_returncode returncode].
        repeat split; try congruence.
        exists ((ESelect (select_ready pf n) :: evs1) ++ [EPoll (Some code)]).
        rewrite Ht1. rewrite <- !app_assoc. split; [reflexivity|]. split.
        -- exists XDone. rewrite expect_run_app. cbn [expect_run expect_step].
           rewrite Hx1. cbn. auto.
        -- intros _. exists code, (ESelect (select_ready pf n) :: evs1).
           cbn. rewrite Hn1. auto.
      * apply IH in H.
        destruct H as (Hg1 & Hg2 & Hg3 & evs2 & Ht2 & (x2 & Hx2 & Hx2') & Hok).
        cbn [fst snd fds files trace set_trace child_write set_pipes] in *.
        repeat split; try congruence; try assumption.
        exists ((ESelect (select_ready pf n) :: evs1) ++ EPoll None :: evs2).
        rewrite Ht2, Ht1, <- !app_assoc. split; [reflexivity|]. split.
        -- exists x2. rewrite expect_run_app. cbn [expect_run expect_step].
           rewrite Hx1. cbn. auto.
        -- intros H. destruct (Hok H) as (code & evs0 & -> & Hn0 & Hr & He).
           exists code, ((ESelect (select_ready pf n) :: evs1) ++ EPoll None :: evs0).
           rewrite <- !app_assoc. cbn. rewrite forallb_app, Hn1. cbn.
           rewrite Hn0. auto.
    + injection H as <- <-. cbn [fst snd].
      repeat split; try congruence; try discriminate.
      exists (ESelect (select_ready pf n) :: evs1).
      rewrite Ht1, <- app_assoc. repeat split; try discriminate.
      exists x1. cbn. split; [exact Hx1|discriminate].
    + congruence.
Qed.

(** *** Sequences of calls *)

Lemma bind_ok_inv {S A B : Type} (m : M S A) (k : A -> M S B)
    (s s' : S) (b : B) :
  bind m k s = (Ok b, s') ->
  exists a s1, m s = (Ok a, s1) /\ k a s1 = (Ok b, s').
Proof.
  unfold bind. destruct (m s) as [[a|e|] s1]; try discriminate. eauto.
Qed.

Lemma bind_not_blocked {S A B : Type} (m : M S A) (k : A -> M S B) (s : S) :
  fst (m s) <> Blocked ->
  (forall a s1, m s = (Ok a, s1) -> fst (k a s1) <> Blocked) ->
  fst (bind m k s) <> Blocked.
Proof.
  unfold bind. destruct (m s) as [[a|e|] s1]; cbn; auto; discriminate.
Qed.

Lemma in_world_ok_inv {L A : Type} (m : M World A) (l l' : L)
    (w w' : World) (a : A) :
  in_world m (l, w) = (Ok a, (l', w')) -> l' = l /\ m w = (Ok a, w').
Proof.
  unfold in_world, zoom. cbn. destruct (m w) as [r w1].
  intros [= -> -> ->]. auto.
Qed.

Lemma on_buffer_flush_ok_inv (buf : Which) (fr fr' : Frame) (w w' : World) :
  on_buffer buf flush (fr, w) = (Ok tt, (fr', w')) ->
  same_os w w' /\ returncode fr' = returncode fr.
Proof.
  unfold on_buffer, zoom. cbn [fst snd].
  pose proof (flush_same_os (buffer_of buf fr, w)) as H.
  destruct (flush (buffer_of buf fr, w)) as [r [b w1]].
  intros [= -> <- <-]. split; [exact H|]. now destruct buf.
Qed.

Lemma os_close_ok_inv (fd : nat) (w w' : World) :
  os_close fd w = (Ok tt, w') ->
  trace w' = trace w ++ [EClose fd]
  /\ fds w' = filter (fun d => negb (Nat.eqb fd d)) (fds w)
  /\ files w' = files w.
Proof.
  unfold os_close. destruct (is_open fd w); [|discriminate].
  intros [= <-]. auto.
Qed.

Lemma wait_ok_inv (fr fr' : Frame) (w w' : World) (code : Z) :
  wait (fr, w) = (Ok code, (fr', w')) ->
  returncode fr = Some code /\ fr' = fr
  /\ w' = set_trace (trace w ++ [EWait code]) w.
Proof.
  unfold wait, bind, get. cbn [fst snd].
  destruct (returncode fr) as [c|]; [|discriminate].
  cbn. intros [= <- <- <-]. auto.
Qed.

Lemma skipn_app_exact {A : Type} (a b : list A) : skipn (length a) (a ++ b) = b.
Proof. induction a; cbn; auto. Qed.

Lemma after_exit_app (a rest : list Event) (code : Z) :
  forallb (fun ev => negb (is_exit_poll ev)) a = true ->
  after_exit (a ++ EPoll (Some code) :: rest) = rest.
Proof.
  induction a as [|ev a' IH]; cbn; [reflexivity|].
  intros H. apply andb_prop in H as [H1 H2].
  destruct ev; try (now apply IH).
  match goal with
  | rc : option Z |- _ => destruct rc; [discriminate|now apply IH]
  end.
Qed.

(** [_run], its first calls done. *)
Lemma _run_eq (pf : Platform) (self : Command) (fuel : nat)
    (args : list string) (stdin stdout stderr : option nat) (w : World) :
  _run pf self fuel args stdin stdout stderr w =
  if spawn_ok pf args then
    with_locals
      (mkFrame (LineBuffer_init stdout) (LineBuffer_init stderr) None)
      (after_start pf fuel
         (lowest_free (fds w))
         (lowest_free (lowest_free (fds w) :: fds w))
         (lowest_free (lowest_free (lowest_free (fds w) :: fds w)
                         :: lowest_free (fds w) :: fds w))
         (lowest_free
            (lowest_free (lowest_free (lowest_free (fds w) :: fds w)
                            :: lowest_free (fds w) :: fds w)
               :: lowest_free (lowest_free (fds w) :: fds w)
               :: lowest_free (fds w) :: fds w)))
      (started pf args w)
  else (Raise OSError, started pf args w).
Proof.
  unfold _run, after_start, started, Popen, os_pipe, info. unfold_monad.
  rewrite <- !app_assoc. cbn [app].
  destruct (spawn_ok pf args); reflexivity.
Qed.

Lemma tick_ok_inv {L : Type} (ev : Event) (l l' : L) (w w' : World) :
  in_world (tick ev) (l, w) = (Ok tt, (l', w')) ->
  l' = l /\ w' = set_trace (trace w ++ [ev]) w.
Proof. cbn. intros [= <- <-]. auto. Qed.

Lemma _process_ok_inv (fd : nat) (buf : Which) (s s' : Frame * World) :
  _process fd buf s = (Ok tt, s') ->
  fds (snd s') = fds (snd s)
  /\ map shape (files (snd s')) = map shape (files (snd s))
  /\ returncode (fst s') = returncode (fst s)
  /\ exists evs, trace (snd s') = trace (snd s) ++ evs /\ drained fd buf evs.
Proof.
  intros H. pose proof (_process_frame fd buf s) as (H1 & H2 & H3).
  destruct (_process_calls fd buf s) as (evs & Ht & Hc).
  rewrite H in *. cbn [fst snd] in *. repeat split; try assumption.
  exists evs. split; [exact Ht|]. now apply process_calls_drained.
Qed.

(** [_run] from the start of the child on, when it returns: the calls
    it made, the descriptors it closed, and what it returns. *)
Lemma after_start_ok (pf : Platform) (fuel : nat)
    (out_reader out_writer err_reader err_writer : nat)
    (s s' : Frame * World) (result : Z) :
  after_start pf fuel out_reader out_writer err_reader err_writer s
  = (Ok result, s') ->
  exists evs0 d1 d2,
    trace (snd s') =
    trace (snd s) ++ evs0
      ++ [EPoll (Some result); ESelectorClose; EWait result]
      ++ d1 ++ d2
      ++ [EClose out_writer; EClose out_reader;
          EClose err_writer; EClose err_reader; EFlush Out; EFlush Err]
    /\ forallb (fun ev => negb (is_exit_poll ev)) evs0 = true
    /\ expect_run out_reader err_reader XSelect
         (evs0 ++ [EPoll (Some result)]) = Some XDone
    /\ drained out_reader Out d1
    /\ drained err_reader Err d2
    /\ exit_status pf fuel 0 = Some result
    /\ fds (snd s') =
       filter (fun d => negb (Nat.eqb err_reader d))
         (filter (fun d => negb (Nat.eqb err_writer d))
            (filter (fun d => negb (Nat.eqb out_reader d))
               (filter (fun d => negb (Nat.eqb out_writer d)) (fds (snd s)))))
    /\ map shape (files (snd s')) = map shape (files (snd s)).
Proof.
  unfold after_start. intros H.
  apply bind_ok_inv in H as ([] & s1 & Hloop & H).
  apply bind_ok_inv in H as ([] & [fr2 w2] & Hsel & H).
  apply bind_ok_inv in H as (code & [fr3 w3] & Hwait & H).
  apply bind_ok_inv in H as ([] & s4 & Hp1 & H).
  apply bind_ok_inv in H as ([] & [fr5 w5] & Hp2 & H).
  apply bind_ok_inv in H as ([] & [fr6 w6] & Hc1 & H).
  apply bind_ok_inv in H as ([] & [fr7 w7] & Hc2 & H).
  apply bind_ok_inv in H as ([] & [fr8 w8] & Hc3 & H).
  apply bind_ok_inv in H as ([] & [fr9 w9] & Hc4 & H).
  apply bind_ok_inv in H as ([] & [fr10 w10] & Hf1 & H).
  apply bind_ok_inv in H as ([] & [fr11 w11] & Hf2 & H).
  apply bind_ok_inv in H as ([] & [fr12 w12] & Hf3 & H).
  apply bind_ok_inv in H as ([] & [fr13 w13] & Hf4 & H).
  injection H as <- <-.
  apply drain_loop_effect in Hloop
    as (Hl1 & Hl2 & _ & evs & Hl3 & (x & Hx & Hx') & Hl4).
  destruct (Hl4 eq_refl) as (code' & evs0 & -> & Hn0 & Hrc & Hes).
  rewrite (Hx' eq_refl) in Hx. destruct s1 as [fr1 w1].
  apply tick_ok_inv in Hsel as [-> ->].
  apply wait_ok_inv in Hwait as (Hrc' & -> & ->).
  cbn [fst snd] in *. assert (code' = code) as -> by congruence.
  apply _process_ok_inv in Hp1 as (Hp11 & Hp12 & _ & d1 & Hp13 & Hd1).
  destruct s4 as [fr4 w4].
  apply _process_ok_inv in Hp2 as (Hp21 & Hp22 & _ & d2 & Hp23 & Hd2).
  apply in_world_ok_inv in Hc1 as [_ Hc1].
  apply in_world_ok_inv in Hc2 as [_ Hc2].
  apply in_world_ok_inv in Hc3 as [_ Hc3].
  apply in_world_ok_inv in Hc4 as [_ Hc4].
  apply os_close_ok_inv in Hc1 as (Hc11 & Hc12 & Hc13).
  apply os_close_ok_inv in Hc2 as (Hc21 & Hc22 & Hc23).
  apply os_close_ok_inv in Hc3 as (Hc31 & Hc32 & Hc33).
  apply os_close_ok_inv in Hc4 as (Hc41 & Hc42 & Hc43).
  apply tick_ok_inv in Hf1 as [_ ->].
  apply on_buffer_flush_ok_inv in Hf2 as [(Hf21 & _ & Hf22 & Hf23) _].
  apply tick_ok_inv in Hf3 as [_ ->].
  apply on_buffer_flush_ok_inv in Hf4 as [(Hf41 & _ & Hf42 & Hf43) _].
  cbn [fst snd fds files trace set_trace] in *.
  exists evs0, d1, d2. repeat split; try assumption.
  - rewrite Hf42, Hf22, Hc41, Hc31, Hc21, Hc11, Hp23, Hp13, Hl3.
    rewrite <- !app_assoc. reflexivity.
  - congruence.
  - congruence.
Qed.

Lemma in_world_not_blocked {L A : Type} (m : M World A) (s : L * World) :
  fst (m (snd s)) <> Blocked -> fst (in_world m s) <> Blocked.
Proof.
  unfold in_world, zoom. now destruct (m (snd s)).
Qed.

Lemma os_close_not_blocked (fd : nat) (w : World) :
  fst (os_close fd w) <> Blocked.
Proof. unfold os_close. destruct (is_open fd w); discriminate. Qed.

Lemma on_buffer_flush_not_blocked (buf : Which) (s : Frame * World) :
  fst (on_buffer buf flush s) <> Blocked.
Proof.
  unfold on_buffer, zoom.
  pose proof (flush_not_blocked (buffer_of buf (fst s), snd s)) as H.
  now destruct (flush (buffer_of buf (fst s), snd s)).
Qed.

(** [_run] from the start of the child on returns or raises when the
    child exits within the fuel. *)
Lemma after_start_not_blocked (pf : Platform) (fuel : nat)
    (out_reader out_writer err_reader err_writer : nat) (s : Frame * World) :
  exit_status pf fuel 0 <> None ->
  fst (after_start pf fuel out_reader out_writer err_reader err_writer s)
  <> Blocked.
Proof.
  intros He. unfold after_start.
  apply bind_not_blocked.
  { destruct (drain_loop pf out_reader out_writer err_reader err_writer fuel 0 s)
      as [r s1] eqn:E.
    apply drain_loop_effect in E as (_ & _ & Hnb & _). now apply Hnb. }
  intros [] [fr1 w1] Hloop.
  apply drain_loop_effect in Hloop as (_ & _ & _ & evs & _ & _ & Hok).
  destruct (Hok eq_refl) as (code & _ & _ & _ & Hrc & _). cbn [fst snd] in Hrc.
  apply bind_not_blocked; [discriminate|]. intros [] [fr2 w2] Ht.
  apply tick_ok_inv in Ht as [-> ->].
  apply bind_not_blocked.
  { unfold wait, bind, get. cbn [fst snd]. rewrite Hrc. discriminate. }
  intros result s3 _.
  apply bind_not_blocked; [apply _process_not_blocked|]. intros [] s4 _.
  apply bind_not_blocked; [apply _process_not_blocked|]. intros [] s5 _.
  do 4 (apply bind_not_blocked;
        [apply in_world_not_blocked, os_close_not_blocked|]; intros [] ? _).
  apply bind_not_blocked; [discriminate|]. intros [] ? _.
  apply bind_not_blocked; [apply on_buffer_flush_not_blocked|]. intros [] ? _.
  apply bind_not_blocked; [discriminate|]. intros [] ? _.
  apply bind_not_blocked; [apply on_buffer_flush_not_blocked|]. intros [] ? _.
  discriminate.
Qed.

Lemma with_locals_ok_inv {L A : Type} (l : L) (m : M (L * World) A)
    (w w' : World) (a : A) :
  with_locals l m w = (Ok a, w') -> exists l', m (l, w) = (Ok a, (l', w')).
Proof.
  unfold with_locals. destruct (m (l, w)) as [r [l' w1]].
  intros [= -> ->]. eauto.
Qed.

Lemma with_locals_not_blocked {L A : Type} (l : L) (m : M (L * World) A)
    (w : World) :
  fst (m (l, w)) <> Blocked -> fst (with_locals l m w) <> Blocked.
Proof.
  unfold with_locals. now destruct (m (l, w)).
Qed.

(** [_run] returns or raises when the child exits within the fuel. *)
Lemma _run_not_blocked (pf : Platform) (self : Command) (fuel : nat)
    (args : list string) (stdin stdout stderr : option nat) (w : World) :
  exit_status pf fuel 0 <> None ->
  fst (_run pf self fuel args stdin stdout stderr w) <> Blocked.
Proof.
  intros He. rewrite _run_eq. destruct (spawn_ok pf args); [|discriminate].
  now apply with_locals_not_blocked, after_start_not_blocked.
Qed.

(** [_run] changes what the streams hold, not their number, their names,
    their modes, nor whether they are closed. *)
Lemma after_start_shape (pf : Platform) (fuel : nat)
    (out_reader out_writer err_reader err_writer : nat) :
  preserves (on_world (fun w w' => map shape (files w') = map shape (files w)))
    (after_start pf fuel out_reader out_writer err_reader err_writer).
Proof.
  set (R := fun w w' : World => map shape (files w') = map shape (files w)).
  assert (Rr : forall s : Frame * World, on_world R s s) by (intros s; reflexivity).
  assert (Rt : forall s1 s2 s3 : Frame * World,
             on_world R s1 s2 -> on_world R s2 s3 -> on_world R s1 s3).
  { unfold on_world, R. intros s1 s2 s3 H1 H2. congruence. }
  assert (Hproc : forall fd buf, preserves (on_world R) (_process fd buf)).
  { intros fd buf s. apply _process_frame. }
  assert (Hclose : forall fd, preserves (on_world R)
                                (in_world (L := Frame) (os_close fd))).
  { intros fd [fr w]. unfold in_world, zoom, os_close, on_world, R. cbn.
    now destruct (is_open fd w). }
  assert (Hflush : forall buf, preserves (on_world R) (on_buffer buf flush)).
  { intros buf [fr w]. unfold on_buffer, zoom, on_world, R. cbn [fst snd].
    pose proof (flush_same_os (buffer_of buf fr, w)) as (_ & _ & _ & H).
    now destruct (flush (buffer_of buf fr, w)) as [r [b w1]]. }
  assert (Htick : forall ev, preserves (on_world R)
                                (in_world (L := Frame) (tick ev))).
  { intros ev [fr w]. reflexivity. }
  unfold after_start.
  apply (preserves_bind _ Rt); [|intros ?].
  { intros s.
    destruct (drain_loop pf out_reader out_writer err_reader err_writer fuel 0 s)
      as [r s1] eqn:E.
    apply drain_loop_effect in E as (_ & H & _). exact H. }
  apply (preserves_bind _ Rt); [apply Htick|intros ?].
  apply (preserves_bind _ Rt); [|intros ?].
  { intros [fr w]. unfold wait, bind, get. cbn [fst snd].
    destruct (returncode fr); reflexivity. }
  do 2 (apply (preserves_bind _ Rt); [apply Hproc|intros ?]).
  do 4 (apply (preserves_bind _ Rt); [apply Hclose|intros ?]).
  do 2 (apply (preserves_bind _ Rt); [apply Htick|intros ?];
        apply (preserves_bind _ Rt); [apply Hflush|intros ?]).
  intros s. reflexivity.
Qed.

Lemma _run_shape (pf : Platform) (self : Command) (fuel : nat)
    (args : list string) (stdin stdout stderr : option nat) :
  preserves (fun w w' => map shape (files w') = map shape (files w))
    (_run pf self fuel args stdin stdout stderr).
Proof.
  intros w. rewrite _run_eq. destruct (spawn_ok pf args); [|reflexivity].
  unfold with_locals.
  pose proof (after_start_shape pf fuel
                (lowest_free (fds w))
                (lowest_free (lowest_free (fds w) :: fds w))
                (lowest_free (lowest_free (lowest_free (fds w) :: fds w)
                                :: lowest_free (fds w) :: fds w))
                (lowest_free
                   (lowest_free (lowest_free (lowest_free (fds w) :: fds w)
                                   :: lowest_free (fds w) :: fds w)
                      :: lowest_free (lowest_free (fds w) :: fds w)
                      :: lowest_free (fds w) :: fds w))
                (mkFrame (LineBuffer_init stdout) (LineBuffer_init stderr) None,
                 started pf args w)) as H.
  unfold on_world in H.
  destruct (after_start _ _ _ _ _ _ _) as [r [fr w1]]. exact H.
Qed.

(** *** Descriptors *)

Lemma filter_leb_S_le (n : nat) (used : list nat) :
  (length (filter (fun x => S n <=? x)%nat used)
   <= length (filter (fun x => n <=? x)%nat used))%nat.
Proof.
  induction used as [|x rest IH]; cbn [filter length]; [lia|].
  destruct (Nat.leb_spec (S n) x), (Nat.leb_spec n x); cbn [length]; lia.
Qed.

Lemma filter_leb_S_lt (n : nat) (used : list nat) :
  In n used ->
  (length (filter (fun x => S n <=? x)%nat used)
   < length (filter (fun x => n <=? x)%nat used))%nat.
Proof.
  induction used as [|x rest IH]; cbn [filter length In]; [intros []|].
  intros [->|H].
  - pose proof (filter_leb_S_le n rest).
    destruct (Nat.leb_spec (S n) n), (Nat.leb_spec n n); cbn [length]; lia.
  - specialize (IH H).
    destruct (Nat.leb_spec (S n) x), (Nat.leb_spec n x); cbn [length]; lia.
Qed.

Lemma existsb_eqb_In (n : nat) (used : list nat) :
  existsb (Nat.eqb n) used = true <-> In n used.
Proof.
  rewrite existsb_exists. split.
  - intros (x & Hx & E). apply Nat.eqb_eq in E. now subst.
  - intros H. exists n. split; [exact H|apply Nat.eqb_refl].
Qed.

Lemma lowest_free_from_fresh (fuel : nat) :
  forall (n : nat) (used : list nat),
    (length (filter (fun x => n <=? x)%nat used) <= fuel)%nat ->
    ~ In (lowest_free_from fuel n used) used.
Proof.
  induction fuel as [|fuel IH]; intros n used Hlen; cbn [lowest_free_from].
  - intros H. apply filter_leb_S_lt in H. lia.
  - destruct (existsb (Nat.eqb n) used) eqn:E.
    + apply IH. apply existsb_eqb_In, filter_leb_S_lt in E. lia.
    + intros H. apply existsb_eqb_In in H. congruence.
Qed.

(** The descriptor [os.pipe] picks is not in use. *)
Lemma lowest_free_fresh (used : list nat) : ~ In (lowest_free used) used.
Proof.
  apply lowest_free_from_fresh. apply filter_length_le.
Qed.

Lemma filter_neq_fresh (fd : nat) (l : list nat) :
  ~ In fd l -> filter (fun d => negb (Nat.eqb fd d)) l = l.
Proof.
  induction l as [|x rest IH]; cbn; [reflexivity|]. intros H.
  destruct (Nat.eqb_spec fd x); [exfalso; apply H; now left|].
  cbn. rewrite IH; [reflexivity|]. intros Hin. apply H. now right.
Qed.

Lemma filter_neq_head (fd : nat) (l : list nat) :
  filter (fun d => negb (Nat.eqb fd d)) (fd :: l)
  = filter (fun d => negb (Nat.eqb fd d)) l.
Proof. cbn. now rewrite Nat.eqb_refl. Qed.

Lemma filter_neq_comm (a b : nat) (l : list nat) :
  filter (fun d => negb (Nat.eqb a d)) (filter (fun d => negb (Nat.eqb b d)) l)
  = filter (fun d => negb (Nat.eqb b d)) (filter (fun d => negb (Nat.eqb a d)) l).
Proof.
  induction l as [|x rest IH]; cbn; [reflexivity|].
  destruct (Nat.eqb a x) eqn:Ea, (Nat.eqb b x) eqn:Eb; cbn;
    rewrite ?Ea, ?Eb; cbn; congruence.
Qed.

(** Closing the four descriptors of two new pipes leaves the
    descriptors that were open before. *)
Lemma close_four (used : list nat) :
  let r1 := lowest_free used in
  let w1 := lowest_free (r1 :: used) in
  let r2 := lowest_free (w1 :: r1 :: used) in
  let w2 := lowest_free (r2 :: w1 :: r1 :: used) in
  filter (fun d => negb (Nat.eqb r2 d))
    (filter (fun d => negb (Nat.eqb w2 d))
       (filter (fun d => negb (Nat.eqb r1 d))
          (filter (fun d => negb (Nat.eqb w1 d))
             (w2 :: r2 :: w1 :: r1 :: used)))) = used.
Proof.
  intros r1 w1 r2 w2.
  pose proof (lowest_free_fresh used) as H1.
  pose proof (lowest_free_fresh (r1 :: used)) as H2.
  pose proof (lowest_free_fresh (w1 :: r1 :: used)) as H3.
  pose proof (lowest_free_fresh (r2 :: w1 :: r1 :: used)) as H4.
  fold r1 in H1. fold w1 in H2. fold r2 in H3. fold w2 in H4.
  clearbody r1 w1 r2 w2. cbn [In] in *.
  repeat (cbn [negb filter]; rewrite ?Nat.eqb_refl;
          try match goal with
              | |- context [Nat.eqb ?a ?b] =>
                  destruct (Nat.eqb_spec a b);
                  [exfalso; intuition congruence|]
              end).
  rewrite (filter_neq_fresh w1 used), (filter_neq_fresh r1 used),
    (filter_neq_fresh w2 used), (filter_neq_fresh r2 used); tauto.
Qed.

(** ** The properties of [_run] *)

Lemma calls_since_app (w w' : World) (evs : list Event) :
  trace w' = trace w ++ evs -> calls_since w w' = evs.
Proof. unfold calls_since. intros ->. apply skipn_app_exact. Qed.

(** C2, as the code has it.  When the child cannot be started [_run]
    raises the error of [Popen] at once, [Popen] having been called
    once; the four descriptors of the two pipes, new and distinct, are
    open when the error reaches the caller: no [close] was called. *)
Theorem spawn_failure_leaves_pipes_open
    (pf : Platform) (self : Command) (fuel : nat) (args : list string)
    (stdin stdout stderr : option nat) (w : World) :
  spawn_ok pf args = false ->
  let w' := snd (_run pf self fuel args stdin stdout stderr w) in
  let out_reader := lowest_free (fds w) in
  let out_writer := lowest_free (out_reader :: fds w) in
  let err_reader := lowest_free (out_writer :: out_reader :: fds w) in
  let err_writer :=
    lowest_free (err_reader :: out_writer :: out_reader :: fds w) in
  fst (_run pf self fuel args stdin stdout stderr w) = Raise OSError
  /\ calls_since w w' =
     [EPipe out_reader out_writer; EPipe err_reader err_writer; ESelector;
      ERegister out_reader Out; ERegister err_reader Err; EPopen args]
  /\ fds w' = err_writer :: err_reader :: out_writer :: out_reader :: fds w
  /\ NoDup [err_writer; err_reader; out_writer; out_reader]
  /\ (forall fd, In fd [err_writer; err_reader; out_writer; out_reader] ->
                 ~ In fd (fds w)).
Proof.
  intros Hs w' out_reader out_writer err_reader err_writer.
  subst w'. rewrite _run_eq, Hs. cbn [fst snd].
  pose proof (lowest_free_fresh (fds w)) as H1.
  pose proof (lowest_free_fresh (out_reader :: fds w)) as H2.
  pose proof (lowest_free_fresh (out_writer :: out_reader :: fds w)) as H3.
  pose proof (lowest_free_fresh
                (err_reader :: out_writer :: out_reader :: fds w)) as H4.
  fold out_reader in H1. fold out_writer in H2. fold err_reader in H3.
  fold err_writer in H4.
  split; [reflexivity|]. split; [now apply calls_since_app|].
  split; [reflexivity|].
  clearbody out_reader out_writer err_reader err_writer. cbn [In] in *.
  split.
  - repeat constructor; cbn [In]; intuition congruence.
  - intros fd [<-|[<-|[<-|[<-|[]]]]]; tauto.
Qed.

(** On the path where [_run] returns, the four descriptors are closed:
    the open descriptors are those of before the call. *)
Lemma _run_ok_closes_pipes
    (pf : Platform) (self : Command) (fuel : nat) (args : list string)
    (stdin stdout stderr : option nat) (w w' : World) (result : Z) :
  _run pf self fuel args stdin stdout stderr w = (Ok result, w') ->
  fds w' = fds w.
Proof.
  rewrite _run_eq. destruct (spawn_ok pf args); [|discriminate].
  intros H. apply with_locals_ok_inv in H as [fr' H].
  apply after_start_ok in H as (_ & _ & _ & _ & _ & _ & _ & _ & _ & H & _).
  cbn [snd started fds] in H. rewrite H. apply close_four.
Qed.

(** C3, as the code has it.  When [_run] returns, the calls it made
    after [poll] saw the child exit are, in this order: the selector is
    closed and [wait] gives the exit status; then the two read ends are
    drained, the one of the standard output first, each by one call of
    [_process], which reads what the pipe holds and no more; then the
    four descriptors are closed; then the two buffers are flushed. *)
Theorem _run_steps_after_exit
    (pf : Platform) (self : Command) (fuel : nat) (args : list string)
    (stdin stdout stderr : option nat) (w w' : World) (result : Z) :
  _run pf self fuel args stdin stdout stderr w = (Ok result, w') ->
  let out_reader := lowest_free (fds w) in
  let out_writer := lowest_free (out_reader :: fds w) in
  let err_reader := lowest_free (out_writer :: out_reader :: fds w) in
  let err_writer :=
    lowest_free (err_reader :: out_writer :: out_reader :: fds w) in
  steps_after_exit (calls_since w w') = [PWait; PDrain; PClose; PFlush]
  /\ exists during drain_out drain_err,
      calls_since w w' =
      [EPipe out_reader out_writer; EPipe err_reader err_writer; ESelector;
       ERegister out_reader Out; ERegister err_reader Err; EPopen args]
      ++ during
      ++ [EPoll (Some result); ESelectorClose; EWait result]
      ++ drain_out ++ drain_err
      ++ [EClose out_writer; EClose out_reader;
          EClose err_writer; EClose err_reader; EFlush Out; EFlush Err]
      /\ forallb (fun ev => negb (is_exit_poll ev)) during = true
      /\ drained out_reader Out drain_out
      /\ drained err_reader Err drain_err.
Proof.
  intros H out_reader out_writer err_reader err_writer.
  rewrite _run_eq in H. destruct (spawn_ok pf args); [|discriminate].
  apply with_locals_ok_inv in H as [fr' H].
  apply after_start_ok
    in H as (evs0 & d1 & d2 & Ht & Hn & _ & Hd1 & Hd2 & _).
  cbn [snd started trace] in Ht. rewrite <- app_assoc in Ht.
  apply calls_since_app in Ht. fold out_reader out_writer err_reader err_writer in Ht.
  split.
  - unfold steps_after_exit. rewrite Ht, (app_assoc _ evs0).
    match goal with
    | |- context [?a ++ evs0] => set (pre := a ++ evs0)
    end.
    cbn [app].
    rewrite after_exit_app
      by (subst pre; rewrite forallb_app, Hn; reflexivity).
    destruct Hd1 as [(c1 & _ & ->)|(c1 & b1 & _ & _ & ->)],
             Hd2 as [(c2 & _ & ->)|(c2 & b2 & _ & _ & ->)]; reflexivity.
  - exists evs0, d1, d2. auto.
Qed.

(** C4.  The calls of the loop of [_run] are those of cycles in order:
    [select]; then for each key that [select] reported, in turn, the
    count of the bytes available and, when there are some, their read
    and the write of the bytes read to the buffer of the key; then, and
    only then, [poll].  A loop that returns has ended on a [poll] that
    came after all of that. *)
Theorem loop_processes_ready_before_poll
    (pf : Platform) (out_reader out_writer err_reader err_writer : nat)
    (fuel n : nat) (s : Frame * World) :
  let r := drain_loop pf out_reader out_writer err_reader err_writer fuel n s in
  exists evs,
    trace (snd (snd r)) = trace (snd s) ++ evs
    /\ cycles_in_order out_reader err_reader evs = true
    /\ (fst r = Ok tt ->
        expect_run out_reader err_reader XSelect evs = Some XDone).
Proof.
  intros r. subst r.
  destruct (drain_loop pf out_reader out_writer err_reader err_writer fuel n s)
    as [r s'] eqn:E.
  apply drain_loop_effect in E as (_ & _ & _ & evs & Ht & (x & Hx & Hx') & _).
  exists evs. cbn [fst snd]. unfold cycles_in_order. rewrite Hx.
  repeat split; [exact Ht|]. intros ->. f_equal. now apply Hx'.
Qed.

(** ** [run], [check] and [eval] *)

Lemma try_finally_ok_inv {S A : Type} (body : M S A) (handler : M S unit)
    (s s' : S) (a : A) :
  try_finally body handler s = (Ok a, s') ->
  exists s1, body s = (Ok a, s1) /\ handler s1 = (Ok tt, s').
Proof.
  unfold try_finally. destruct (body s) as [[a'|e|] s1]; try discriminate.
  - destruct (handler s1) as [[[]|e|] s2] eqn:Eh; try discriminate.
    intros [= <- <-]. exists s1. split; [reflexivity|exact Eh].
  - destruct (handler s1) as [[[]|e'|] s2]; discriminate.
Qed.

Lemma try_finally_not_blocked {S A : Type} (body : M S A) (handler : M S unit)
    (s : S) :
  fst (body s) <> Blocked ->
  (forall s1, fst (handler s1) <> Blocked) ->
  fst (try_finally body handler s) <> Blocked.
Proof.
  intros Hb Hh. unfold try_finally.
  destruct (body s) as [[a|e|] s1]; cbn in Hb; try congruence;
    specialize (Hh s1); destruct (handler s1) as [[[]|e'|] s2];
    cbn in *; congruence.
Qed.

Lemma open_local_not_blocked (pf : Platform) (v : Std) (mode : Mode)
    (s : Locals * World) :
  fst (open_local pf v mode s) <> Blocked.
Proof.
  unfold open_local, bind, get. cbn [fst snd].
  destruct (local v (fst s)); try discriminate.
  unfold in_world, zoom, open. cbn.
  destruct (can_open pf path mode); discriminate.
Qed.

Lemma close_local_not_blocked (pf : Platform) (v : Std) (s : Locals * World) :
  fst (close_local pf v s) <> Blocked.
Proof.
  unfold close_local, bind, get. cbn [fst snd].
  destruct (local v (fst s)); try discriminate.
  unfold in_world, zoom, file_close. cbn [fst snd].
  destruct (nth_error (files (snd s)) stream) as [f|]; [|discriminate].
  destruct (f_closed f || close_ok pf (f_name f))%bool; discriminate.
Qed.

(** [run] returns or raises when the child exits within the fuel. *)
Lemma run_not_blocked (pf : Platform) (self : Command) (fuel : nat)
    (args : list string) (stdin stdout stderr : option string) (w : World) :
  exit_status pf fuel 0 <> None ->
  fst (run pf self fuel args stdin stdout stderr w) <> Blocked.
Proof.
  intros He. unfold run. apply with_locals_not_blocked.
  apply try_finally_not_blocked.
  - do 3 (apply bind_not_blocked; [apply open_local_not_blocked|]; intros ? ? _).
    apply in_world_not_blocked. now apply _run_not_blocked.
  - intros s1.
    do 2 (apply bind_not_blocked; [apply close_local_not_blocked|]; intros ? ? _).
    apply close_local_not_blocked.
Qed.

(** When [run] returns, it returns what [_run] returned. *)
Lemma run_ok_inv (pf : Platform) (self : Command) (fuel : nat)
    (args : list string) (stdin stdout stderr : option string)
    (w w' : World) (result : Z) :
  run pf self fuel args stdin stdout stderr w = (Ok result, w') ->
  exists fin fout ferr w1 w2,
    _run pf self fuel (_args self args) fin fout ferr w1 = (Ok result, w2).
Proof.
  unfold run. intros H.
  apply with_locals_ok_inv in H as [l' H].
  apply try_finally_ok_inv in H as (s1 & H & _).
  apply bind_ok_inv in H as (fin & s2 & _ & H).
  apply bind_ok_inv in H as (fout & s3 & _ & H).
  apply bind_ok_inv in H as (ferr & [l4 w4] & _ & H).
  destruct s1 as [l1 w1].
  apply in_world_ok_inv in H as [_ H]. eauto 6.
Qed.

Lemma _run_ok_exit_status (pf : Platform) (self : Command) (fuel : nat)
    (args : list string) (stdin stdout stderr : option nat)
    (w w' : World) (result : Z) :
  _run pf self fuel args stdin stdout stderr w = (Ok result, w') ->
  exit_status pf fuel 0 = Some result.
Proof.
  rewrite _run_eq. destruct (spawn_ok pf args); [|discriminate].
  intros H. apply with_locals_ok_inv in H as [fr' H].
  now apply after_start_ok in H as (_ & _ & _ & _ & _ & _ & _ & _ & H & _).
Qed.

(** C6.  When the child was started and has exited, [eval] returns the
    whole of what the child wrote to its standard output, decoded, when
    the exit status is zero, the decoding error being raised when it does
    not decode; and whatever the child wrote it raises an exception whose
    message holds the arguments joined by spaces and the exit status when
    the status is not zero. *)
Theorem eval_returns_output_or_raises
    (pf : Platform) (self : Command) (args : list string) (w : World)
    (output errors : bytes) (status : Z) :
  spawn_ok pf (_args self args) = true ->
  communicate_result pf (_args self args) = Some (output, errors, status) ->
  let command := String.concat " " (_args self args) in
  (status = 0 ->
   fst (eval pf self args w) =
   match decode output with
   | Some text => Ok text
   | None => Raise UnicodeDecodeError
   end)
  /\ (status <> 0 ->
      fst (eval pf self args w) =
      Raise (Exception ("Command '" ++ command ++ "' finished with exit code "
                        ++ str_of_int status)))
  /\ log (snd (eval pf self args w)) =
     log w ++ [("Evaluating command '" ++ command ++ "'")%string]
  /\ calls_since w (snd (eval pf self args w)) =
     [EPopen (_args self args); ECommunicate; EWait status].
Proof.
  intros Hs Hc command. unfold eval, Popen. unfold_monad.
  rewrite Hs, Hc. cbn [fst snd]. unfold info, modify. cbn [fst snd].
  split; [|split; [|split]].
  - intros ->. cbn. destruct (decode output); reflexivity.
  - intros Hz. apply Z.eqb_neq in Hz. rewrite Hz. reflexivity.
  - destruct (status =? 0); cbn; [destruct (decode output)|]; reflexivity.
  - apply calls_since_app.
    destruct (status =? 0); cbn; [destruct (decode output)|];
      cbn; rewrite <- !app_assoc; reflexivity.
Qed.

Lemma update_nth_app_length {A : Type} (f : A -> A) (l r : list A) (x : A) :
  update_nth (length l) f (l ++ x :: r) = l ++ f x :: r.
Proof. induction l as [|y l IH]; cbn; congruence. Qed.

Lemma update_nth_app_plus {A : Type} (f : A -> A) (l r : list A) (n k : nat) :
  length l = n -> update_nth (n + k) f (l ++ r) = l ++ update_nth k f r.
Proof.
  intros <-. induction l as [|y l IH]; cbn; [reflexivity|]. now rewrite IH.
Qed.

Lemma nth_error_app_length {A : Type} (l r : list A) (x : A) :
  nth_error (l ++ x :: r) (length l) = Some x.
Proof. induction l as [|y l IH]; cbn; auto. Qed.

Lemma nth_error_app_plus {A : Type} (l r : list A) (k : nat) :
  nth_error (l ++ r) (length l + k) = nth_error r k.
Proof. induction l as [|y l IH]; cbn; auto. Qed.

Lemma map_shape_mark_closed (n : nat) (l : list FileObj) :
  map shape (update_nth n mark_closed l) = update_nth n close_shape (map shape l).
Proof.
  revert n. induction l as [|x rest IH]; intros [|n]; cbn; try reflexivity.
  now rewrite IH.
Qed.

Ltac run_unfold :=
  unfold run, with_locals, try_finally, open_local, close_local, open,
    file_close, param_of;
  unfold_monad;
  cbn [local set_local l_stdin l_stdout l_stderr fst snd files set_files].

Ltac run_norm :=
  rewrite ?app_nil_r, <- ?app_assoc, ?length_app;
  cbn [length app given handle plan map new_file somes close_seq Nat.add
       fst snd];
  rewrite ?Nat.add_0_r, <- ?Nat.add_assoc;
  unfold new_file;
  cbn [Nat.add fst snd].

(** *** The [finally] clause of [run] *)

(** [close] on a file, by its shape. *)
Lemma file_close_shape (pf : Platform) (h : nat) (w : World)
    (p : string) (m : Mode) (c : bool) :
  nth_error (map shape (files w)) h = Some (p, m, c) ->
  file_close pf h w =
  (if (c || close_ok pf p)%bool then Ok tt else Raise OSError,
   set_files (update_nth h mark_closed (files w)) w).
Proof.
  rewrite nth_error_map. unfold file_close.
  destruct (nth_error (files w) h) as [f|]; [|discriminate].
  unfold shape. cbn. now intros [= <- _ <-].
Qed.

(** What the closes do to files that are open, in the order in which
    they were opened: the first that fails ends them. *)
Lemma close_files_seq (pf : Platform) (l : list (string * Mode)) :
  forall (pre : list (string * Mode * bool)) (w : World),
    map shape (files w) = pre ++ map open_shape l ->
    let r := close_files pf (seq (length pre) (length l)) w in
    map shape (files (snd r)) = pre ++ left_by_closes pf l
    /\ fst r = (if closes_ok pf l then Ok tt else Raise OSError)
    /\ log (snd r) = log w /\ fds (snd r) = fds w
    /\ pipes (snd r) = pipes w /\ trace (snd r) = trace w
    /\ map f_data (files (snd r)) = map f_data (files w).
Proof.
  induction l as [|pm rest IH]; intros pre w Hs; cbn zeta.
  - cbn. rewrite app_nil_r in *. repeat split; assumption.
  - cbn [length seq close_files closes_ok forallb left_by_closes map] in *.
    assert (Hn : nth_error (map shape (files w)) (length pre)
                 = Some (fst pm, snd pm, false))
      by (rewrite Hs; apply nth_error_app_length).
    unfold bind. rewrite (file_close_shape pf _ _ _ _ _ Hn). cbn [orb].
    assert (Hs' : map shape (update_nth (length pre) mark_closed (files w))
                  = pre ++ closed_shape pm :: map open_shape rest).
    { rewrite map_shape_mark_closed, Hs, update_nth_app_length. reflexivity. }
    assert (Hd : map f_data (update_nth (length pre) mark_closed (files w))
                 = map f_data (files w)).
    { clear. generalize (length pre). induction (files w) as [|f fs IHf];
        intros [|n]; cbn; try reflexivity. now rewrite IHf. }
    destruct (close_ok pf (fst pm)); cbn [fst snd files set_files andb].
    + specialize (IH (pre ++ [closed_shape pm])
                    (set_files (update_nth (length pre) mark_closed (files w)) w)).
      rewrite length_app, Nat.add_1_r in IH. cbn [length] in IH.
      rewrite <- !app_assoc in IH. cbn [app] in IH.
      destruct (IH Hs') as (H1 & H2 & H3 & H4 & H5 & H6 & H7).
      cbn [files set_files log fds pipes trace] in *.
      repeat split; try assumption. now rewrite H7.
    + repeat split; assumption.
Qed.

(** When each [close] succeeds, the streams are closed one after the
    other and nothing else happens. *)
Lemma close_files_seq_ok (pf : Platform) (l : list (string * Mode)) :
  forall (pre : list (string * Mode * bool)) (w : World),
    map shape (files w) = pre ++ map open_shape l ->
    closes_ok pf l = true ->
    close_files pf (seq (length pre) (length l)) w =
    (Ok tt,
     set_files (close_seq (seq (length pre) (length l)) (files w)) w).
Proof.
  induction l as [|pm rest IH]; intros pre w Hs Hok.
  - cbn. unfold ret. now destruct w.
  - cbn [length seq close_files closes_ok forallb close_seq map] in *.
    apply andb_prop in Hok as [Hp Hok].
    assert (Hn : nth_error (map shape (files w)) (length pre)
                 = Some (fst pm, snd pm, false))
      by (rewrite Hs; apply nth_error_app_length).
    unfold bind. rewrite (file_close_shape pf _ _ _ _ _ Hn), Hp. cbn [orb].
    specialize (IH (pre ++ [closed_shape pm])
                  (set_files (update_nth (length pre) mark_closed (files w)) w)).
    rewrite length_app, Nat.add_1_r in IH. cbn [length] in IH.
    rewrite IH; [reflexivity| |exact Hok].
    cbn [files set_files].
    rewrite map_shape_mark_closed, Hs, <- app_assoc, update_nth_app_length.
    reflexivity.
Qed.

(** The streams [run] has opened are one after the other, those of the
    world before them. *)
Lemma handles_seq (n : nat) (stdin stdout stderr : option string) :
  somes [handle n 0 stdin; handle n (given stdin) stdout;
         handle n (given stdin + given stdout) stderr]
  = seq n (length (plan stdin stdout stderr)).
Proof.
  destruct stdin, stdout, stderr;
    cbn [somes handle given plan app length seq Nat.add];
    rewrite ?Nat.add_0_r, ?Nat.add_1_r;
    try reflexivity.
  now replace (n + 2)%nat with (S (S n)) by lia.
Qed.

Lemma close_locals_eq (pf : Platform) (fin fout ferr : option nat) (w : World) :
  (close_local pf Stdin ;; close_local pf Stdout ;; close_local pf Stderr)
    (mkLocals (opened_local fin) (opened_local fout) (opened_local ferr), w)
  = (fst (close_files pf (somes [fin; fout; ferr]) w),
     (mkLocals (opened_local fin) (opened_local fout) (opened_local ferr),
      snd (close_files pf (somes [fin; fout; ferr]) w))).
Proof.
  destruct fin as [a|], fout as [b|], ferr as [c|];
    unfold close_local, bind, get, ret, in_world, zoom;
    cbn [fst snd local l_stdin l_stdout l_stderr opened_local somes
         close_files];
    unfold bind, ret;
    repeat (cbn [fst snd local l_stdin l_stdout l_stderr];
            try match goal with
                | |- context [file_close pf ?h ?W] =>
                    destruct (file_close pf h W) as [[[]|?|] ?]
                end);
    reflexivity.
Qed.

(** When the files can be opened, [run] opens them, calls [_run] with
    them, and closes them one after the other when [_run] has returned
    or raised. *)
Lemma run_delegates (pf : Platform) (self : Command) (fuel : nat)
    (args : list string) (stdin stdout stderr : option string) (w : World) :
  openable pf (plan stdin stdout stderr) = plan stdin stdout stderr ->
  let n := length (files w) in
  let fin := handle n 0 stdin in
  let fout := handle n (given stdin) stdout in
  let ferr := handle n (given stdin + given stdout) stderr in
  run pf self fuel args stdin stdout stderr w =
  try_finally
    (_run pf self fuel (_args self args) fin fout ferr)
    (close_files pf (somes [fin; fout; ferr]))
    (set_files (files w ++ map new_file (plan stdin stdout stderr)) w).
Proof.
  intros Hopen n fin fout ferr.
  assert (Hbody :
            (stdin0 <- open_local pf Stdin Rb ;;
             stdout0 <- open_local pf Stdout Wb ;;
             stderr0 <- open_local pf Stderr Wb ;;
             in_world (_run pf self fuel (_args self args) stdin0 stdout0 stderr0))
              (mkLocals (param_of stdin) (param_of stdout) (param_of stderr), w)
            = (fst (_run pf self fuel (_args self args) fin fout ferr
                      (set_files (files w ++ map new_file (plan stdin stdout stderr)) w)),
               (mkLocals (opened_local fin) (opened_local fout) (opened_local ferr),
                snd (_run pf self fuel (_args self args) fin fout ferr
                       (set_files (files w ++ map new_file (plan stdin stdout stderr)) w))))).
  { subst n fin fout ferr. destruct w as [lg fs ds ps tr].
    destruct stdin as [pin|], stdout as [pout|], stderr as [perr|];
      cbn [plan app openable] in Hopen;
      repeat match type of Hopen with
             | context [can_open pf ?p ?m] =>
                 destruct (can_open pf p m) eqn:?; [|discriminate Hopen];
                 try (injection Hopen as Hopen)
             end;
      unfold open_local, open, param_of; unfold_monad;
      cbn [local set_local l_stdin l_stdout l_stderr fst snd files set_files];
      repeat match goal with
             | H : can_open pf _ _ = true |- _ =>
                 rewrite H; unfold_monad;
                 cbn [local set_local l_stdin l_stdout l_stderr fst snd
                      files set_files]
             end.
    all: run_norm.
    all: unfold set_files; cbn [log files fds pipes trace opened_local].
    all: match goal with
         | |- context [_run ?a ?b ?c ?d ?e ?f ?g ?h] =>
             destruct (_run a b c d e f g h) as [r0 w0]
         end; reflexivity. }
  unfold run, with_locals. unfold try_finally at 1. rewrite Hbody.
  unfold try_finally.
  destruct (_run pf self fuel (_args self args) fin fout ferr _)
    as [[result|e|] w2]; cbn [fst snd]; try reflexivity;
    rewrite close_locals_eq;
    destruct (close_files pf (somes [fin; fout; ferr]) w2) as [[[]|e'|] w3];
    reflexivity.
Qed.

(** When moreover each [close] succeeds, the closes do nothing but mark
    the files closed. *)
Lemma run_delegates_ok (pf : Platform) (self : Command) (fuel : nat)
    (args : list string) (stdin stdout stderr : option string) (w : World) :
  openable pf (plan stdin stdout stderr) = plan stdin stdout stderr ->
  closes_ok pf (plan stdin stdout stderr) = true ->
  let n := length (files w) in
  let fin := handle n 0 stdin in
  let fout := handle n (given stdin) stdout in
  let ferr := handle n (given stdin + given stdout) stderr in
  run pf self fuel args stdin stdout stderr w =
  match
    _run pf self fuel (_args self args) fin fout ferr
      (set_files (files w ++ map new_file (plan stdin stdout stderr)) w)
  with
  | (Blocked, w2) => (Blocked, w2)
  | (o, w2) =>
      (o, set_files (close_seq (somes [fin; fout; ferr]) (files w2)) w2)
  end.
Proof.
  intros Hopen Hok n fin fout ferr.
  rewrite run_delegates by exact Hopen. fold n fin fout ferr.
  unfold try_finally.
  pose proof (_run_shape pf self fuel (_args self args) fin fout ferr
                (set_files (files w ++ map new_file (plan stdin stdout stderr)) w))
    as Hs.
  destruct (_run pf self fuel (_args self args) fin fout ferr _)
    as [[result|e|] w2]; [| |reflexivity];
    cbn [fst snd files set_files] in Hs;
    rewrite map_app, map_map in Hs;
    change (map (fun x => shape (new_file x)) (plan stdin stdout stderr))
      with (map open_shape (plan stdin stdout stderr)) in Hs;
    subst fin fout ferr; rewrite handles_seq;
    replace n with (length (map shape (files w))) by apply length_map;
    rewrite (close_files_seq_ok pf _ _ _ Hs Hok); reflexivity.
Qed.

(** C9, as the code has it.  The files [run] opens are those of its
    parameters that are given, in the order [stdin], [stdout], [stderr],
    the first for reading and the others for writing, up to the first
    that cannot be opened.  When [run] returns or raises, whatever the
    reason, the [finally] clause has called [close] on them in that
    order, up to the first [close] that raised: the files up to that one
    are closed, and the files after it are left open, no [close] being
    called on them; when no [close] raises each of them is closed.  The
    streams that were there before are as they were but for what they
    hold.  When all the files can be opened, [_run] runs with them open
    and the closes come after it. *)
Theorem run_closes_the_files_it_opened
    (pf : Platform) (self : Command) (fuel : nat) (args : list string)
    (stdin stdout stderr : option string) (w : World) :
  let r := run pf self fuel args stdin stdout stderr w in
  let n := length (files w) in
  let fin := handle n 0 stdin in
  let fout := handle n (given stdin) stdout in
  let ferr := handle n (given stdin + given stdout) stderr in
  let opened := openable pf (plan stdin stdout stderr) in
  (fst r <> Blocked ->
   map shape (files (snd r)) = map shape (files w) ++ left_by_closes pf opened)
  /\ (fst r <> Blocked ->
      closes_ok pf opened = true ->
      map shape (files (snd r)) = map shape (files w) ++ map closed_shape opened)
  /\ (forall front p m rest,
         fst r <> Blocked ->
         opened = front ++ (p, m) :: rest ->
         closes_ok pf front = true ->
         close_ok pf p = false ->
         map shape (files (snd r)) =
         map shape (files w) ++ map closed_shape front
         ++ (p, m, true) :: map open_shape rest)
  /\ (opened = plan stdin stdout stderr ->
      r =
      try_finally
        (_run pf self fuel (_args self args) fin fout ferr)
        (close_files pf (somes [fin; fout; ferr]))
        (set_files (files w ++ map new_file (plan stdin stdout stderr)) w)).
Proof.
  intros r n fin fout ferr opened.
  assert (Hleft : fst r <> Blocked ->
                  map shape (files (snd r))
                  = map shape (files w) ++ left_by_closes pf opened).
  { destruct (list_eq_dec
                (fun a b : string * Mode =>
                   ltac:(decide equality; [decide equality|apply string_dec])
                   : {a = b} + {a <> b})
                opened (plan stdin stdout stderr)) as [Hall|Hsome].
    - subst r opened. rewrite run_delegates by exact Hall.
      rewrite Hall. fold n fin fout ferr. unfold try_finally.
      pose proof (_run_shape pf self fuel (_args self args) fin fout ferr
                    (set_files (files w ++ map new_file (plan stdin stdout stderr)) w))
        as Hs.
      destruct (_run pf self fuel (_args self args) fin fout ferr _)
        as [[result|e|] w2]; cbn [fst snd files set_files] in *;
        try (intros Hb; congruence);
        rewrite map_app, map_map in Hs;
        change (map (fun x => shape (new_file x)) (plan stdin stdout stderr))
          with (map open_shape (plan stdin stdout stderr)) in Hs;
        subst fin fout ferr; rewrite handles_seq;
        replace n with (length (map shape (files w))) by apply length_map;
        destruct (close_files_seq pf _ _ _ Hs) as (H1 & _);
        destruct (close_files pf _ w2) as [[[]|e'|] w3];
        cbn [fst snd] in *; intros _; exact H1.
    - subst r n fin fout ferr opened. intros _. destruct w as [lg fs ds ps tr].
      destruct stdin as [pin|], stdout as [pout|], stderr as [perr|];
        cbn [plan app openable] in *;
        repeat match goal with
               | |- context [can_open pf ?p ?m] =>
                   destruct (can_open pf p m) eqn:?
               end;
        try congruence; clear Hsome;
        run_unfold;
        repeat match goal with
               | H : can_open pf _ _ = _ |- _ => rewrite H; run_unfold
               end;
        cbn [left_by_closes map open_shape closed_shape fst snd];
        rewrite <- ?app_assoc, ?length_app; cbn [length app];
        rewrite ?app_nil_r;
        repeat (rewrite ?nth_error_app_length, ?update_nth_app_length;
                rewrite ?nth_error_app_plus;
                repeat (rewrite update_nth_app_plus by reflexivity);
                cbn [nth_error update_nth orb f_closed f_name mark_closed
                     fst snd files];
                try match goal with
                    | |- context [close_ok pf ?p] =>
                        destruct (close_ok pf p) eqn:?
                    end);
        cbn [files set_files]; rewrite ?map_app; reflexivity. }
  split; [exact Hleft|]. split; [|split].
  - intros Hb Hok. rewrite (Hleft Hb). f_equal.
    clear - Hok. induction opened as [|pm rest IH]; [reflexivity|].
    cbn [closes_ok forallb left_by_closes map] in *.
    apply andb_prop in Hok as [-> Hok]. now rewrite IH.
  - intros front p m rest Hb Ho Hok Hp. rewrite (Hleft Hb), Ho. f_equal.
    clear - Hok Hp. induction front as [|pm front IH]; cbn [app].
    + cbn. now rewrite Hp.
    + cbn [closes_ok forallb left_by_closes map] in *.
      apply andb_prop in Hok as [-> Hok]. now rewrite IH.
  - apply run_delegates.
Qed.

(** ** A run in which nothing fails *)

Lemma writable_same_shape (stream : nat) (w w' : World) :
  map shape (files w') = map shape (files w) ->
  writable stream w -> writable stream w'.
Proof.
  intros Hs (f & Hf & Hm & Hc).
  assert (H : nth_error (map shape (files w')) stream = Some (shape f)).
  { rewrite Hs. now apply map_nth_error. }
  rewrite nth_error_map in H.
  destruct (nth_error (files w') stream) as [f'|] eqn:E; [|discriminate].
  exists f'. unfold shape in H. cbn in H. inversion H.
  repeat split; congruence.
Qed.

Lemma good_buffer_same_shape (b : LineBuffer) (w w' : World) :
  map shape (files w') = map shape (files w) ->
  good_buffer b w -> good_buffer b w'.
Proof.
  intros Hs (H1 & H2 & h & H3 & H4). repeat split; try assumption.
  exists h. split; [exact H3|]. now apply (writable_same_shape h w).
Qed.

(** [write] on such a buffer returns, and leaves such a buffer. *)
Lemma write_good (data : bytes) (b : LineBuffer) (w : World) :
  good_buffer b w ->
  exists b' w',
    write data (b, w) = (Ok tt, (b', w'))
    /\ good_buffer b' w' /\ same_os w w'.
Proof.
  intros (H1 & H2 & h & H3 & H4).
  pose proof (write_same_os data (b, w)) as Hs.
  rewrite write_spec in * by assumption. rewrite H3 in *.
  rewrite emit_lines_stream in * by assumption.
  eexists _, _. split; [reflexivity|]. cbn [snd] in Hs. unfold on_world in Hs.
  cbn [snd] in Hs. split; [|exact Hs].
  repeat split.
  - apply cut_tail_no_nl.
  - exists h. split; [exact H3|].
    apply (writable_same_shape h w); [apply Hs|exact H4].
Qed.

(** So does [flush]. *)
Lemma flush_good (b : LineBuffer) (w : World) :
  good_buffer b w ->
  exists b' w', flush (b, w) = (Ok tt, (b', w')) /\ same_os w w'.
Proof.
  intros (H1 & H2 & h & H3 & H4).
  pose proof (flush_same_os (b, w)) as Hs. unfold flush in *.
  destruct (truthy (getvalue (_buffer b))); [|eauto].
  rewrite _write_line_stream, H3 in *.
  pose proof (emit_lines_stream h [getvalue (_buffer b)] w H4) as He.
  cbn [emit_lines] in He. unfold bind, ret in He.
  destruct (_write_line (LineBuffer_init (Some h)) (getvalue (_buffer b)) w)
    as [[[]|e|] w1]; try discriminate.
  eexists _, _. split; [reflexivity|exact Hs].
Qed.

Lemma pipe_of_reader_update_pipe (fd : nat) (test : Pipe -> bool)
    (f : bytes -> bytes) (ps : list Pipe) :
  pipe_of_reader fd ps <> None ->
  pipe_of_reader fd (update_pipe test f ps) <> None.
Proof.
  unfold pipe_of_reader. induction ps as [|p rest IH]; cbn; [auto|].
  destruct (test p); cbn; destruct (Nat.eqb (p_reader p) fd);
    auto; discriminate.
Qed.

Lemma pipes_ready_child_write (out_reader out_writer err_reader err_writer : nat)
    (writer : nat) (data : bytes) (w : World) :
  pipes_ready out_reader out_writer err_reader err_writer w ->
  pipes_ready out_reader out_writer err_reader err_writer
    (child_write writer data w).
Proof.
  unfold pipes_ready, child_write, is_open. cbn.
  intros (H1 & H2 & H3 & H4 & H5 & H6).
  repeat split; try assumption; now apply pipe_of_reader_update_pipe.
Qed.

Lemma pipes_ready_tick (out_reader out_writer err_reader err_writer : nat)
    (evs : list Event) (w : World) :
  pipes_ready out_reader out_writer err_reader err_writer w ->
  pipes_ready out_reader out_writer err_reader err_writer (set_trace evs w).
Proof. auto. Qed.

Lemma pipes_ready_same_os (out_reader out_writer err_reader err_writer : nat)
    (w w' : World) :
  same_os w w' ->
  pipes_ready out_reader out_writer err_reader err_writer w ->
  pipes_ready out_reader out_writer err_reader err_writer w'.
Proof.
  unfold pipes_ready, is_open. intros (H1 & H2 & _). now rewrite H1, H2.
Qed.

(** [_process] on one of the two descriptors returns. *)
Lemma _process_ready (out_reader out_writer err_reader err_writer : nat)
    (key : Which) (s : Frame * World) :
  ready out_reader out_writer err_reader err_writer s ->
  exists s',
    _process (fileobj out_reader err_reader key) key s = (Ok tt, s')
    /\ ready out_reader out_writer err_reader err_writer s'
    /\ returncode (fst s') = returncode (fst s).
Proof.
  destruct s as [fr w]. intros (Hp & Ho & He). cbn [fst snd] in *.
  assert (Hopen : is_open (fileobj out_reader err_reader key) w = true)
    by (destruct key; apply Hp).
  assert (Hpipe : pipe_of_reader (fileobj out_reader err_reader key) (pipes w)
                  <> None) by (destruct key; apply Hp).
  assert (Hbuf : good_buffer (buffer_of key fr) w) by now destruct key.
  unfold _process, _available, os_read. unfold_monad.
  rewrite Hopen.
  destruct (pipe_of_reader _ (pipes w)) as [p|] eqn:Epipe; [|congruence].
  destruct (p_data p) as [|c rest] eqn:Ed.
  - eexists. split; [reflexivity|]. repeat split; try apply Hp;
      try apply Ho; try apply He.
  - cbn [length].
    replace (Z.of_nat (S (length rest)) >? 0) with true
      by (symmetry; apply Z.gtb_lt; lia).
    unfold is_open in *. world_simpl. rewrite Hopen, Epipe, Ed. unfold_monad.
    match goal with
    | |- context [write ?d (_, ?W)] =>
        assert (Hr : pipes_ready out_reader out_writer err_reader err_writer W);
        [|assert (Hg : forall b, good_buffer b w -> good_buffer b W);
          [|destruct (write_good d (buffer_of key fr) W (Hg _ Hbuf))
              as (b' & w' & Ew & Hb' & Hs); rewrite Ew]]
    end.
    + destruct Hp as (H1 & H2 & H3 & H4 & H5 & H6).
      unfold pipes_ready, is_open. world_simpl.
      repeat split; try assumption; now apply pipe_of_reader_update_pipe.
    + intros b. apply good_buffer_same_shape. reflexivity.
    + eexists. split; [reflexivity|]. cbn [fst snd].
      split; [|now destruct key].
      split; [now apply (pipes_ready_same_os _ _ _ _ _ _ Hs)|].
      assert (Hshape : map shape (files w') = map shape (files w)).
      { destruct Hs as (_ & _ & _ & Hs). rewrite Hs. reflexivity. }
      destruct key; cbn [out_buffer err_buffer set_buffer_of]; split;
        try assumption;
        now apply (good_buffer_same_shape _ w).
Qed.

Lemma process_events_ready (out_reader out_writer err_reader err_writer : nat)
    (keys : list Which) :
  forall s : Frame * World,
    ready out_reader out_writer err_reader err_writer s ->
    exists s',
      process_events out_reader err_reader keys s = (Ok tt, s')
      /\ ready out_reader out_writer err_reader err_writer s'
      /\ returncode (fst s') = returncode (fst s).
Proof.
  induction keys as [|key rest IH]; intros s Hr; cbn [process_events].
  - exists s. auto.
  - destruct (_process_ready out_reader out_writer err_reader err_writer key s Hr)
      as (s1 & E1 & Hr1 & Hc1).
    destruct (IH s1 Hr1) as (s2 & E2 & Hr2 & Hc2).
    exists s2. unfold bind. rewrite E1, E2. repeat split; try apply Hr2.
    congruence.
Qed.

Lemma ready_child_writes (out_reader out_writer err_reader err_writer : nat)
    (a b : nat) (da db : bytes) (ev : Event) (fr : Frame) (rc : option Z)
    (w : World) :
  ready out_reader out_writer err_reader err_writer (fr, w) ->
  ready out_reader out_writer err_reader err_writer
    (set_returncode rc fr,
     set_trace (trace w ++ [ev]) (child_write a da (child_write b db w))).
Proof.
  intros (Hp & Ho & He). cbn [fst snd] in *. repeat split.
  1-6: apply (pipes_ready_tick out_reader out_writer err_reader err_writer),
         pipes_ready_child_write, pipes_ready_child_write, Hp.
  all: try apply Ho; try apply He.
Qed.

(** The loop returns once the child has exited. *)
Lemma drain_loop_ready (pf : Platform)
    (out_reader out_writer err_reader err_writer : nat) (fuel : nat) :
  forall (n : nat) (s : Frame * World) (code : Z),
    exit_status pf fuel n = Some code ->
    ready out_reader out_writer err_reader err_writer s ->
    exists s',
      drain_loop pf out_reader out_writer err_reader err_writer fuel n s
      = (Ok tt, s')
      /\ ready out_reader out_writer err_reader err_writer s'
      /\ returncode (fst s') = Some code.
Proof.
  induction fuel as [|fuel IH]; intros n [fr w] code He Hr;
    cbn [exit_status drain_loop] in *; [discriminate|].
  unfold bind at 1. rewrite select_eq.
  pose proof (ready_child_writes out_reader out_writer err_reader err_writer
                err_writer out_writer (snd (select_writes pf n))
                (fst (select_writes pf n)) (ESelect (select_ready pf n))
                fr (returncode fr) w Hr) as Hr0.
  replace (set_returncode (returncode fr) fr) with fr in Hr0 by now destruct fr.
  destruct (process_events_ready out_reader out_writer err_reader err_writer
              (select_ready pf n) _ Hr0) as ([fr1 w1] & E1 & Hr1 & _).
  unfold bind at 1. rewrite E1. unfold bind at 1. rewrite poll_eq.
  pose proof (ready_child_writes out_reader out_writer err_reader err_writer
                err_writer out_writer (snd (poll_writes pf n))
                (fst (poll_writes pf n)) (EPoll (poll_status pf n))
                fr1 (poll_status pf n) w1 Hr1) as Hr2.
  destruct (poll_status pf n) as [c|].
  - injection He as ->. eexists. split; [reflexivity|]. split; [exact Hr2|].
    reflexivity.
  - now apply IH.
Qed.

Lemma bind_ok {S A B : Type} (m : M S A) (k : A -> M S B) (s s1 : S) (a : A) :
  m s = (Ok a, s1) -> bind m k s = k a s1.
Proof. unfold bind. now intros ->. Qed.

Lemma existsb_filter_neq (a b : nat) (l : list nat) :
  a <> b ->
  existsb (Nat.eqb a) l = true ->
  existsb (Nat.eqb a) (filter (fun d => negb (Nat.eqb b d)) l) = true.
Proof.
  intros Hab. induction l as [|x rest IH]; cbn; [auto|].
  destruct (Nat.eqb_spec a x) as [<-|Hax]; cbn.
  - intros _. destruct (Nat.eqb_spec b a); [congruence|].
    cbn. now rewrite Nat.eqb_refl.
  - intros H. destruct (Nat.eqb b x); cbn; [auto|].
    destruct (Nat.eqb_spec a x); [congruence|auto].
Qed.

Lemma os_close_open {L : Type} (fd : nat) (l : L) (w : World) :
  is_open fd w = true ->
  in_world (os_close fd) (l, w) =
  (Ok tt,
   (l, set_trace (trace w ++ [EClose fd])
         (set_fds (filter (fun d => negb (Nat.eqb fd d)) (fds w)) w))).
Proof.
  intros H. unfold in_world, zoom, os_close. cbn [fst snd]. now rewrite H.
Qed.

Lemma close_step {L A : Type} (fd : nat) (l : L) (w : World)
    (k : unit -> M (L * World) A) :
  is_open fd w = true ->
  bind (in_world (os_close fd)) k (l, w) =
  k tt (l, set_trace (trace w ++ [EClose fd])
            (set_fds (filter (fun d => negb (Nat.eqb fd d)) (fds w)) w)).
Proof.
  intros H. apply bind_ok. now apply os_close_open.
Qed.

Lemma on_buffer_flush_good (buf : Which) (fr : Frame) (w : World) :
  good_buffer (buffer_of buf fr) w ->
  exists fr' w',
    on_buffer buf flush (fr, w) = (Ok tt, (fr', w'))
    /\ same_os w w'
    /\ buffer_of match buf with Out => Err | Err => Out end fr'
       = buffer_of match buf with Out => Err | Err => Out end fr.
Proof.
  intros H. destruct (flush_good _ _ H) as (b' & w' & E & Hs).
  unfold on_buffer, zoom. cbn [fst snd]. rewrite E. cbn [fst snd].
  eexists _, _. split; [reflexivity|]. split; [exact Hs|]. now destruct buf.
Qed.

(** [_run] from the start of the child on returns the exit status when
    the pipes are there, their descriptors distinct, and the two streams
    accept writes. *)
Lemma after_start_ready (pf : Platform) (fuel : nat)
    (out_reader out_writer err_reader err_writer : nat)
    (s : Frame * World) (code : Z) :
  NoDup [out_writer; out_reader; err_writer; err_reader] ->
  exit_status pf fuel 0 = Some code ->
  ready out_reader out_writer err_reader err_writer s ->
  exists s',
    after_start pf fuel out_reader out_writer err_reader err_writer s
    = (Ok code, s').
Proof.
  intros Hnd He Hr. unfold after_start.
  destruct (drain_loop_ready pf out_reader out_writer err_reader err_writer
              fuel 0 s code He Hr) as ([fr1 w1] & E1 & Hr1 & Hc1).
  rewrite (bind_ok _ _ _ _ _ E1).
  unfold bind at 1. cbn [in_world zoom tick modify fst snd].
  unfold bind at 1. unfold wait at 1. unfold bind at 1. cbn [get fst snd] in *.
  rewrite Hc1. unfold bind at 1. cbn [in_world zoom tick modify fst snd ret].
  match goal with
  | |- context [(fr1, ?W)] =>
      assert (Hr2 : ready out_reader out_writer err_reader err_writer (fr1, W))
        by exact Hr1;
      destruct (_process_ready out_reader out_writer err_reader err_writer
                  Out (fr1, W) Hr2) as (s3 & E3 & Hr3 & _)
  end.
  cbn [fileobj] in E3. rewrite (bind_ok _ _ _ _ _ E3).
  destruct (_process_ready out_reader out_writer err_reader err_writer
              Err s3 Hr3) as ([fr4 w4] & E4 & Hr4 & _).
  cbn [fileobj] in E4. rewrite (bind_ok _ _ _ _ _ E4).
  destruct Hr4 as ((H1 & H2 & H3 & H4 & _ & _) & Ho & Hb). cbn [fst snd] in *.
  unfold is_open in *.
  apply NoDup_cons_iff in Hnd as [N1 Hnd]. apply NoDup_cons_iff in Hnd as [N2 Hnd].
  apply NoDup_cons_iff in Hnd as [N3 _]. cbn [In] in *.
  do 4 (rewrite close_step
          by (unfold is_open; cbn [fds set_trace set_fds];
              repeat (apply existsb_filter_neq; [intuition congruence|]);
              assumption)).
  unfold bind at 1. cbn [in_world zoom tick modify fst snd].
  match goal with
  | |- context [(fr4, ?W)] =>
      destruct (on_buffer_flush_good Out fr4 W) as (fr5 & w5 & E5 & Hs5 & Hb5);
      [apply (good_buffer_same_shape _ w4); [reflexivity|exact Ho]|]
  end.
  rewrite (bind_ok _ _ _ _ _ E5).
  unfold bind at 1. cbn [in_world zoom tick modify fst snd].
  match goal with
  | |- context [(fr5, ?W)] =>
      destruct (on_buffer_flush_good Err fr5 W) as (fr6 & w6 & E6 & _ & _)
  end.
  { cbn [buffer_of] in *. rewrite Hb5.
    apply (good_buffer_same_shape _ w4); [|exact Hb].
    cbn [files set_trace]. destruct Hs5 as (_ & _ & _ & Hs5). exact Hs5. }
  rewrite (bind_ok _ _ _ _ _ E6). eexists. reflexivity.
Qed.

(** [_run] returns the exit status of the child when the child can be
    started, exits within the fuel, and its output goes to two streams
    that accept writes. *)
Lemma _run_returns (pf : Platform) (self : Command) (fuel : nat)
    (args : list string) (stdin : option nat) (hout herr : nat)
    (w : World) (code : Z) :
  spawn_ok pf args = true ->
  exit_status pf fuel 0 = Some code ->
  writable hout w -> writable herr w ->
  exists w',
    _run pf self fuel args stdin (Some hout) (Some herr) w = (Ok code, w').
Proof.
  intros Hs He Hwo Hwe. rewrite _run_eq, Hs.
  set (r1 := lowest_free (fds w)).
  set (w1 := lowest_free (r1 :: fds w)).
  set (r2 := lowest_free (w1 :: r1 :: fds w)).
  set (w2 := lowest_free (r2 :: w1 :: r1 :: fds w)).
  pose proof (lowest_free_fresh (r1 :: fds w)) as F2.
  pose proof (lowest_free_fresh (w1 :: r1 :: fds w)) as F3.
  pose proof (lowest_free_fresh (r2 :: w1 :: r1 :: fds w)) as F4.
  fold w1 in F2. fold r2 in F3. fold w2 in F4. cbn [In] in *.
  destruct (after_start_ready pf fuel r1 w1 r2 w2
              (mkFrame (LineBuffer_init (Some hout)) (LineBuffer_init (Some herr))
                 None, started pf args w) code) as ([fr' w'] & E).
  - repeat constructor; cbn [In]; intuition congruence.
  - exact He.
  - unfold ready, pipes_ready, is_open, started. cbn [fst snd fds pipes files].
    fold r1 w1 r2 w2. repeat split.
    + cbn. now rewrite Nat.eqb_refl, !orb_true_r.
    + cbn. now rewrite Nat.eqb_refl, !orb_true_r.
    + cbn. now rewrite Nat.eqb_refl, !orb_true_r.
    + cbn. now rewrite Nat.eqb_refl.
    + unfold pipe_of_reader. cbn [List.find p_reader].
      destruct (Nat.eqb r2 r1); [discriminate|].
      rewrite Nat.eqb_refl. discriminate.
    + unfold pipe_of_reader. cbn [List.find p_reader].
      rewrite Nat.eqb_refl. discriminate.
    + intros [].
    + exists hout. split; [reflexivity|exact Hwo].
    + intros [].
    + exists herr. split; [reflexivity|exact Hwe].
  - exists w'. unfold with_locals. fold r1 w1 r2 w2. now rewrite E.
Qed.

(** [run] when the files can be opened, the child can be started and
    exits within the fuel, and its output goes to two files: it returns
    the exit status of the child when each [close] succeeds, and raises
    the error of the [close] that fails otherwise. *)
Lemma run_returns (pf : Platform) (self : Command) (fuel : nat)
    (args : list string) (stdin : option string) (pout perr : string)
    (w : World) (code : Z) :
  openable pf (plan stdin (Some pout) (Some perr))
  = plan stdin (Some pout) (Some perr) ->
  spawn_ok pf (_args self args) = true ->
  exit_status pf fuel 0 = Some code ->
  fst (run pf self fuel args stdin (Some pout) (Some perr) w) =
  if closes_ok pf (plan stdin (Some pout) (Some perr)) then Ok code
  else Raise OSError.
Proof.
  intros Ho Hs He. rewrite run_delegates by exact Ho.
  set (n := length (files w)).
  set (W := set_files (files w ++ map new_file (plan stdin (Some pout) (Some perr))) w).
  pose proof (_run_shape pf self fuel (_args self args) (handle n 0 stdin)
                (handle n (given stdin) (Some pout))
                (handle n (given stdin + given (Some pout)) (Some perr)) W)
    as Hshape.
  cbn [handle given] in *.
  destruct (_run_returns pf self fuel (_args self args) (handle n 0 stdin)
              (n + given stdin) (n + (given stdin + 1)) W code Hs He)
    as (w' & E).
  - eexists. subst W n. cbn [files set_files].
    rewrite nth_error_app2 by lia.
    replace (length (files w) + given stdin - length (files w))%nat
      with (given stdin) by lia.
    destruct stdin; cbn; repeat split; reflexivity.
  - eexists. subst W n. cbn [files set_files].
    rewrite nth_error_app2 by lia.
    replace (length (files w) + (given stdin + 1) - length (files w))%nat
      with (given stdin + 1)%nat by lia.
    destruct stdin; cbn; repeat split; reflexivity.
  - unfold try_finally. rewrite E in *. cbn [fst snd] in Hshape.
    subst W. cbn [files set_files] in Hshape.
    rewrite map_app, map_map in Hshape.
    change (map (fun x => shape (new_file x)) (plan stdin (Some pout) (Some perr)))
      with (map open_shape (plan stdin (Some pout) (Some perr))) in Hshape.
    change (somes [handle n 0 stdin; Some (n + given stdin)%nat;
                   Some (n + (given stdin + 1))%nat])
      with (somes [handle n 0 stdin; handle n (given stdin) (Some pout);
                   handle n (given stdin + given (Some pout)) (Some perr)]).
    rewrite handles_seq.
    subst n. replace (length (files w)) with (length (map shape (files w)))
      by apply length_map.
    destruct (close_files_seq pf _ _ _ Hshape) as (_ & H2 & _).
    destruct (close_files pf _ w') as [[[]|e'|] w3]; cbn [fst] in *;
      destruct (closes_ok pf (plan stdin (Some pout) (Some perr)));
      congruence.
Qed.

(** C5.  A [run] that returns returns the exit status of the child;
    [run] returns or raises once the child has exited, and it returns,
    with that status, when the output goes to two files, the files can be
    opened and the child can be started, unless a [close] of the
    [finally] clause fails, whose error it then raises; [check] returns
    when [run]
    returns zero, raises an exception whose message ends with the exit
    code when [run] returns another value, and in no other case raises
    an exception of its own. *)
Theorem run_returns_status_check_raises_nonzero
    (pf : Platform) (self : Command) (fuel : nat) (args : list string)
    (stdin stdout stderr : option string) (w : World) :
  let r := run pf self fuel args stdin stdout stderr w in
  let c := check pf self fuel args stdin stdout stderr w in
  (forall result, fst r = Ok result -> exit_status pf fuel 0 = Some result)
  /\ (exit_status pf fuel 0 <> None -> fst r <> Blocked)
  /\ (forall pout perr code,
         stdout = Some pout -> stderr = Some perr ->
         openable pf (plan stdin stdout stderr) = plan stdin stdout stderr ->
         spawn_ok pf (_args self args) = true ->
         exit_status pf fuel 0 = Some code ->
         fst r =
         if closes_ok pf (plan stdin stdout stderr) then Ok code
         else Raise OSError)
  /\ snd c = snd r
  /\ fst c =
     match fst r with
     | Ok result =>
         if result =? 0 then Ok tt
         else Raise (Exception
                       ("Command finished with exit code " ++ str_of_int result))
     | Raise e => Raise e
     | Blocked => Blocked
     end.
Proof.
  intros r c. split; [|split; [|split]].
  - intros result H. subst r.
    destruct (run pf self fuel args stdin stdout stderr w) as [o w'] eqn:E.
    cbn in H. subst o. apply run_ok_inv in E as (fin & fout & ferr & w1 & w2 & E).
    now apply _run_ok_exit_status in E.
  - apply run_not_blocked.
  - intros pout perr code -> -> Ho Hs He. now apply run_returns.
  - subst r c. unfold check, bind.
    destruct (run pf self fuel args stdin stdout stderr w) as [[result|e|] w'];
      cbn [fst snd]; auto.
    destruct (result =? 0); cbn; auto.
Qed.

(** ** More on [Command] *)

Lemma pipe_of_reader_emptied (fd : nat) (n : nat) (ps : list Pipe) (p : Pipe) :
  pipe_of_reader fd ps = Some p ->
  (length (p_data p) <= n)%nat ->
  exists q,
    pipe_of_reader fd
      (update_pipe (fun q => Nat.eqb (p_reader q) fd) (skipn n) ps) = Some q
    /\ p_data q = [].
Proof.
  unfold pipe_of_reader. induction ps as [|x rest IH]; cbn; [discriminate|].
  destruct (Nat.eqb (p_reader x) fd) eqn:E.
  - intros [= ->] Hn. cbn. rewrite E. eexists. split; [reflexivity|].
    cbn. now apply skipn_all2.
  - intros H Hn. cbn. rewrite E. now apply IH.
Qed.

(** X7.  [_process] never waits for the child: it reads only when
    bytes are available.  On an open descriptor of a pipe it takes all
    the bytes the pipe holds in one read and passes them to the buffer in
    one [write], whose outcome is its own; the pipe is empty afterwards,
    whatever [write] did.  On an empty pipe it does nothing but ask for
    the count; on a descriptor that is closed it raises and changes
    nothing. *)
Theorem _process_takes_all_that_is_available
    (fd : nat) (buf : Which) (fr : Frame) (w : World) :
  let r := _process fd buf (fr, w) in
  let data := pipe_data fd w in
  let w1 :=
    set_trace
      (trace w ++ [EAvailable fd (Z.of_nat (length data));
                   ERead fd data; EWrite buf data])
      (set_pipes
         (update_pipe (fun q => Nat.eqb (p_reader q) fd)
            (skipn (length data)) (pipes w)) w) in
  fst r <> Blocked
  /\ (is_open fd w = false -> r = (Raise OSError, (fr, w)))
  /\ (is_open fd w = true ->
      pipe_of_reader fd (pipes w) <> None ->
      pipe_data fd (snd (snd r)) = []
      /\ (data = [] ->
          r = (Ok tt, (fr, set_trace (trace w ++ [EAvailable fd 0]) w)))
      /\ (data <> [] ->
          r = (fst (write data (buffer_of buf fr, w1)),
               (set_buffer_of buf
                  (fst (snd (write data (buffer_of buf fr, w1)))) fr,
                snd (snd (write data (buffer_of buf fr, w1)))))
          /\ calls_since w (snd (snd r)) =
             [EAvailable fd (Z.of_nat (length data));
              ERead fd data; EWrite buf data])).
Proof.
  intros r data w1. split; [apply _process_not_blocked|].
  subst r data w1. split.
  - intros Ho. unfold _process, _available. unfold_monad. now rewrite Ho.
  - intros Ho Hp. unfold pipe_data.
    destruct (pipe_of_reader fd (pipes w)) as [p|] eqn:Ep; [clear Hp|congruence].
    unfold _process, _available, os_read. unfold_monad. rewrite Ho, Ep.
    destruct (p_data p) as [|c rest] eqn:Ed.
    + change (Z.of_nat (length (@nil byte)) >? 0) with false.
      cbn [fst snd pipes set_trace length]. rewrite Ep, Ed.
      repeat split; try assumption; try reflexivity; congruence.
    + cbn [length].
      replace (Z.of_nat (S (length rest)) >? 0) with true
        by (symmetry; apply Z.gtb_lt; lia).
      unfold is_open in *. world_simpl. rewrite Ho, Ep, Ed.
      rewrite Nat2Z.id.
      change (S (length rest)) with (length (c :: rest)). rewrite firstn_all.
      unfold_monad. rewrite <- !app_assoc. cbn [app].
      unfold set_trace, set_pipes. cbn [log files fds pipes trace].
      match goal with
      | |- context [write (c :: rest) (?B, ?W)] =>
          pose proof (write_same_os (c :: rest) (B, W)) as (_ & Hpi & Htr & _);
          destruct (write (c :: rest) (B, W)) as [o [b' w2]] eqn:Ew
      end.
      cbn [fst snd pipes trace set_trace set_pipes] in *.
      split; [|split; [discriminate|intros _; split]].
      * rewrite Hpi.
        destruct (pipe_of_reader_emptied fd (length (c :: rest)) (pipes w) p Ep)
          as (q & -> & Hq); [rewrite Ed; lia|exact Hq].
      * reflexivity.
      * apply calls_since_app. rewrite Htr. reflexivity.
Qed.

(** X8.  When one of the paths cannot be opened, the error of [open]
    does not reach the caller: the [finally] clause closes the files that
    were opened before and then calls [close] on the variable that still
    holds the path, which raises [AttributeError]; when one of the closes
    before it fails, it is the error of that [close] that is raised, and
    the files after it are left open.  The child is not started, nothing
    is logged, no pipe is made, and nothing was written to the files that
    were opened. *)
Theorem run_unopenable_path_raises_AttributeError
    (pf : Platform) (self : Command) (fuel : nat) (args : list string)
    (stdin stdout stderr : option string) (w : World) :
  openable pf (plan stdin stdout stderr) <> plan stdin stdout stderr ->
  let r := run pf self fuel args stdin stdout stderr w in
  let opened := openable pf (plan stdin stdout stderr) in
  fst r = (if closes_ok pf opened then Raise AttributeError else Raise OSError)
  /\ trace (snd r) = trace w
  /\ log (snd r) = log w
  /\ fds (snd r) = fds w
  /\ pipes (snd r) = pipes w
  /\ files (snd r) =
     files w
     ++ map (fun s => mkFileObj (fst (fst s)) (snd (fst s)) (snd s) [])
          (left_by_closes pf opened).
Proof.
  intros Hsome r opened. subst r opened. destruct w as [lg fs ds ps tr].
  destruct stdin as [pin|], stdout as [pout|], stderr as [perr|];
    cbn [plan app openable] in *;
    repeat match goal with
           | |- context [can_open pf ?p ?m] =>
               destruct (can_open pf p m) eqn:?
           end;
    try congruence; clear Hsome;
    run_unfold;
    repeat match goal with
           | H : can_open pf _ _ = _ |- _ => rewrite H; run_unfold
           end;
    cbn [closes_ok forallb left_by_closes map open_shape closed_shape fst snd];
    rewrite <- ?app_assoc, ?length_app; cbn [length app];
    rewrite ?app_nil_r;
    repeat (rewrite ?nth_error_app_length, ?update_nth_app_length;
            rewrite ?nth_error_app_plus;
            repeat (rewrite update_nth_app_plus by reflexivity);
            cbn [nth_error update_nth orb andb f_closed f_name mark_closed
                 fst snd files];
            try match goal with
                | |- context [close_ok pf ?p] =>
                    destruct (close_ok pf p) eqn:?
                end);
    cbn [map fst snd log files fds pipes trace set_files mark_closed
         f_name f_mode f_data];
    repeat split; reflexivity.
Qed.

(** *** The descriptors of the pipes, whatever [_run] does *)

Lemma quiet_refl (s : Frame * World) : quiet s s.
Proof. split; [reflexivity|]. exists []. now rewrite app_nil_r. Qed.

Lemma quiet_trans (s1 s2 s3 : Frame * World) :
  quiet s1 s2 -> quiet s2 s3 -> quiet s1 s3.
Proof.
  intros (H1 & e1 & T1 & F1) (H2 & e2 & T2 & F2). split; [congruence|].
  exists (e1 ++ e2). rewrite T2, T1, app_assoc, existsb_app, F1, F2.
  split; reflexivity.
Qed.

Lemma expect_run_no_flush (out_reader err_reader : nat) (evs : list Event) :
  forall x x',
    expect_run out_reader err_reader x evs = Some x' ->
    existsb is_flush evs = false.
Proof.
  induction evs as [|ev rest IH]; intros x x' H; [reflexivity|].
  cbn [expect_run] in H.
  destruct (expect_step out_reader err_reader x ev) as [x1|] eqn:E;
    [|discriminate].
  cbn [existsb]. rewrite (IH _ _ H), orb_false_r.
  destruct ev; try reflexivity.
  destruct x as [|[|key keys]| | |]; discriminate E.
Qed.

Lemma drain_loop_quiet (pf : Platform)
    (out_reader out_writer err_reader err_writer : nat) (fuel n : nat) :
  preserves quiet
    (drain_loop pf out_reader out_writer err_reader err_writer fuel n).
Proof.
  intros s.
  destruct (drain_loop pf out_reader out_writer err_reader err_writer fuel n s)
    as [r s1] eqn:E.
  apply drain_loop_effect in E as (H1 & _ & _ & evs & H2 & (x & Hx & _) & _).
  split; [exact H1|]. exists evs. split; [exact H2|].
  exact (expect_run_no_flush _ _ _ _ _ Hx).
Qed.

Lemma _process_quiet (fd : nat) (buf : Which) :
  preserves quiet (_process fd buf).
Proof.
  intros s. split; [apply _process_frame|].
  destruct (_process_calls fd buf s) as (evs & Ht & Hc).
  exists evs. split; [exact Ht|].
  destruct Hc as [[-> _]|[[-> _]|(d & _ & _ & ->)]]; reflexivity.
Qed.

Lemma tick_quiet (ev : Event) :
  is_flush ev = false -> preserves quiet (in_world (L := Frame) (tick ev)).
Proof.
  intros H [fr w]. split; [reflexivity|]. exists [ev]. cbn. now rewrite H.
Qed.

Lemma wait_quiet : preserves quiet wait.
Proof.
  intros [fr w]. unfold wait, bind, get. cbn [fst snd].
  destruct (returncode fr) as [code|]; [|apply quiet_refl].
  split; [reflexivity|]. exists [EWait code]. split; reflexivity.
Qed.

Lemma settles_bind {A B : Type} (four fds0 : list nat)
    (m : M (Frame * World) A) (k : A -> M (Frame * World) B) :
  preserves quiet m ->
  (forall a, settles four fds0 (k a)) ->
  settles four fds0 (bind m k).
Proof.
  intros Hm Hk s Hs. specialize (Hm s). unfold bind.
  destruct (m s) as [[a|e|] s1]; cbn [snd] in Hm;
    destruct Hm as (H1 & e1 & T1 & F1).
  - destruct (Hk a s1) as (e2 & T2 & H2); [congruence|].
    exists (e1 ++ e2). rewrite T2, T1, app_assoc, existsb_app, F1.
    split; [reflexivity|exact H2].
  - exists e1. cbn [snd]. rewrite F1. split; congruence.
  - exists e1. cbn [snd]. rewrite F1. split; congruence.
Qed.

Lemma flush_same_trace_fds (buf : Which) (s : Frame * World) :
  trace (snd (snd (on_buffer buf flush s))) = trace (snd s)
  /\ fds (snd (snd (on_buffer buf flush s))) = fds (snd s).
Proof.
  destruct s as [fr w]. unfold on_buffer, zoom. cbn [fst snd].
  pose proof (flush_same_os (buffer_of buf fr, w)) as (H1 & _ & H2 & _).
  destruct (flush (buffer_of buf fr, w)) as [r [b w1]]. cbn [fst snd] in *.
  split; assumption.
Qed.

(** The end of [_run]: the four descriptors are closed, then the
    buffers are flushed. *)
Lemma closes_settle (out_reader out_writer err_reader err_writer : nat)
    (fds0 : list nat) (result : Z) :
  NoDup [out_writer; out_reader; err_writer; err_reader] ->
  filter (fun d => negb (Nat.eqb err_reader d))
    (filter (fun d => negb (Nat.eqb err_writer d))
       (filter (fun d => negb (Nat.eqb out_reader d))
          (filter (fun d => negb (Nat.eqb out_writer d))
             (err_writer :: err_reader :: out_writer :: out_reader :: fds0))))
  = fds0 ->
  settles [err_writer; err_reader; out_writer; out_reader] fds0
    (in_world (os_close out_writer) ;;
     in_world (os_close out_reader) ;;
     in_world (os_close err_writer) ;;
     in_world (os_close err_reader) ;;
     in_world (tick (EFlush Out)) ;;
     on_buffer Out flush ;;
     in_world (tick (EFlush Err)) ;;
     on_buffer Err flush ;;
     ret result).
Proof.
  intros Hnd Hcl [fr w] Hs. cbn [snd app] in Hs.
  match goal with
  | |- context [trace (snd (snd ?X))] => destruct X as [o [fr' w']] eqn:E
  end.
  cbn [fst snd]. revert E.
  apply NoDup_cons_iff in Hnd as [N1 Hnd]. apply NoDup_cons_iff in Hnd as [N2 Hnd].
  apply NoDup_cons_iff in Hnd as [N3 _]. cbn [In] in *.
  do 4 (rewrite close_step
          by (unfold is_open; cbn [fds set_trace set_fds]; rewrite Hs;
              repeat (apply existsb_filter_neq; [intuition congruence|]);
              cbn [existsb]; rewrite Nat.eqb_refl, ?orb_true_r; reflexivity)).
  unfold bind at 1. cbn [in_world zoom tick modify fst snd].
  unfold bind at 1.
  match goal with
  | |- context [on_buffer Out flush ?S] =>
      pose proof (flush_same_trace_fds Out S) as [T1 F1];
      destruct (on_buffer Out flush S) as [[[]|e|] [fr1 w1]]
  end; cbn [fst snd fds trace set_trace set_fds] in T1, F1.
  2, 3: intros [= <- <- <-]; eexists; rewrite T1, <- !app_assoc;
    split; [reflexivity|]; cbn; rewrite F1, Hs; exact Hcl.
  unfold bind at 1. cbn [in_world zoom tick modify fst snd].
  unfold bind at 1.
  match goal with
  | |- context [on_buffer Err flush ?S] =>
      pose proof (flush_same_trace_fds Err S) as [T2 F2];
      destruct (on_buffer Err flush S) as [[[]|e|] [fr2 w2]]
  end; cbn [fst snd fds trace set_trace set_fds] in T2, F2.
  all: intros [= <- <- <-]; eexists; rewrite T2, T1, <- !app_assoc;
    split; [reflexivity|]; cbn; rewrite F2, F1, Hs; exact Hcl.
Qed.

Lemma after_start_settles (pf : Platform) (fuel : nat)
    (out_reader out_writer err_reader err_writer : nat) (fds0 : list nat) :
  NoDup [out_writer; out_reader; err_writer; err_reader] ->
  filter (fun d => negb (Nat.eqb err_reader d))
    (filter (fun d => negb (Nat.eqb err_writer d))
       (filter (fun d => negb (Nat.eqb out_reader d))
          (filter (fun d => negb (Nat.eqb out_writer d))
             (err_writer :: err_reader :: out_writer :: out_reader :: fds0))))
  = fds0 ->
  settles [err_writer; err_reader; out_writer; out_reader] fds0
    (after_start pf fuel out_reader out_writer err_reader err_writer).
Proof.
  intros Hnd Hcl. unfold after_start.
  apply settles_bind; [apply drain_loop_quiet|intros ?].
  apply settles_bind; [now apply tick_quiet|intros ?].
  apply settles_bind; [apply wait_quiet|intros result].
  apply settles_bind; [apply _process_quiet|intros ?].
  apply settles_bind; [apply _process_quiet|intros ?].
  now apply closes_settle.
Qed.

(** X10.  [_run] closes the four descriptors of its pipes together or
    not at all.  They are closed just before the buffers are flushed:
    when [_run] got that far the open descriptors are those of before
    the call, and so they are when it returns; when it stopped before,
    because the child could not be started, because a line could not be
    written or decoded, or because the child never exits, the four are
    all left open. *)
Theorem _run_closes_all_four_descriptors_or_none
    (pf : Platform) (self : Command) (fuel : nat) (args : list string)
    (stdin stdout stderr : option nat) (w : World) :
  let r := _run pf self fuel args stdin stdout stderr w in
  let out_reader := lowest_free (fds w) in
  let out_writer := lowest_free (out_reader :: fds w) in
  let err_reader := lowest_free (out_writer :: out_reader :: fds w) in
  let err_writer :=
    lowest_free (err_reader :: out_writer :: out_reader :: fds w) in
  fds (snd r) =
  (if existsb is_flush (calls_since w (snd r))
   then fds w
   else err_writer :: err_reader :: out_writer :: out_reader :: fds w)
  /\ (forall result, fst r = Ok result -> fds (snd r) = fds w).
Proof.
  intros r out_reader out_writer err_reader err_writer. split.
  2: { intros result H. destruct r as [o w'] eqn:E. cbn [fst snd] in *.
       subst o. subst r. now apply _run_ok_closes_pipes in E. }
  subst r. rewrite _run_eq. fold out_reader out_writer err_reader err_writer.
  destruct (spawn_ok pf args).
  - pose proof (lowest_free_fresh (out_reader :: fds w)) as F2.
    pose proof (lowest_free_fresh (out_writer :: out_reader :: fds w)) as F3.
    pose proof (lowest_free_fresh
                  (err_reader :: out_writer :: out_reader :: fds w)) as F4.
    fold out_writer in F2. fold err_reader in F3. fold err_writer in F4.
    cbn [In] in *.
    destruct (after_start_settles pf fuel out_reader out_writer err_reader
                err_writer (fds w)
                ltac:(repeat constructor; cbn [In]; intuition congruence)
                (close_four (fds w))
                (mkFrame (LineBuffer_init stdout) (LineBuffer_init stderr) None,
                 started pf args w) eq_refl) as (evs & T & H).
    unfold with_locals.
    destruct (after_start _ _ _ _ _ _ _) as [o [fr' w']].
    cbn [fst snd started trace] in *.
    rewrite <- app_assoc in T. rewrite (calls_since_app _ _ _ T).
    cbn [app existsb is_flush orb]. exact H.
  - cbn [snd]. rewrite (calls_since_app w (started pf args w) _ eq_refl).
    reflexivity.
Qed.

(** *** The output of the child, from the pipes to the log and the streams *)

Lemma interleaved_nil_r {A : Type} (a : list A) : interleaved a [] a.
Proof. induction a; constructor; assumption. Qed.

Lemma interleaved_nil_l {A : Type} (b : list A) : interleaved [] b b.
Proof. induction b; constructor; assumption. Qed.

Lemma interleaved_app_l {A : Type} (a b l x : list A) :
  interleaved a b l -> interleaved (a ++ x) b (l ++ x).
Proof.
  induction 1; cbn [app]; try (constructor; assumption).
  apply interleaved_nil_r.
Qed.

Lemma interleaved_app_r {A : Type} (a b l x : list A) :
  interleaved a b l -> interleaved a (b ++ x) (l ++ x).
Proof.
  induction 1; cbn [app]; try (constructor; assumption).
  apply interleaved_nil_l.
Qed.

Lemma interleaved_nil_r_inv {A : Type} (a b l : list A) :
  interleaved a b l -> b = [] -> l = a.
Proof.
  induction 1; intros Hb; try discriminate; try reflexivity.
  now rewrite IHinterleaved.
Qed.

Lemma interleaved_nil_l_inv {A : Type} (a b l : list A) :
  interleaved a b l -> a = [] -> l = b.
Proof.
  induction 1; intros Ha; try discriminate; try reflexivity.
  now rewrite IHinterleaved.
Qed.

Lemma update_nth_comm {A : Type} (n m : nat) (f g : A -> A) (l : list A) :
  n <> m ->
  update_nth n f (update_nth m g l) = update_nth m g (update_nth n f l).
Proof.
  revert n m. induction l as [|x rest IH]; intros [|n] [|m] H; cbn;
    try reflexivity; try congruence.
  rewrite IH by congruence. reflexivity.
Qed.

Lemma put_files_nil (stream : option nat) (fs : list FileObj) :
  put_files stream [] fs = fs.
Proof.
  destruct stream as [h|]; [|reflexivity]. cbn.
  apply update_nth_id. apply append_data_nil.
Qed.

Lemma put_files_app (stream : option nat) (a b : list bytes)
    (fs : list FileObj) :
  put_files stream (a ++ b) fs = put_files stream b (put_files stream a fs).
Proof.
  destruct stream as [h|]; [|reflexivity]. cbn [put_files].
  rewrite update_nth_twice, flat_map_app.
  apply update_nth_ext. intros f. symmetry. apply append_data_twice.
Qed.

Lemma put_files_comm (s s' : option nat) (a b : list bytes)
    (fs : list FileObj) :
  (forall h, s = Some h -> s' = Some h -> False) ->
  put_files s a (put_files s' b fs) = put_files s' b (put_files s a fs).
Proof.
  intros H. destruct s as [h|], s' as [h'|]; try reflexivity. cbn.
  apply update_nth_comm. intros ->. now apply (H h').
Qed.

Lemma map_shape_put_files (stream : option nat) (lines : list bytes)
    (fs : list FileObj) :
  map shape (put_files stream lines fs) = map shape fs.
Proof.
  destruct stream as [h|]; [|reflexivity]. cbn.
  apply map_shape_update_nth. reflexivity.
Qed.

Lemma put_log_app (stream : option nat) (a b : list bytes) :
  put_log stream (a ++ b) = put_log stream a ++ put_log stream b.
Proof. destruct stream; [reflexivity|apply map_app]. Qed.

Lemma put_nil (stream : option nat) (w : World) : put stream [] w = w.
Proof.
  unfold put. rewrite put_files_nil.
  destruct stream, w; cbn; now rewrite app_nil_r.
Qed.

(** Lines that can be emitted are: the stream gets them, or the log. *)
Lemma emit_lines_put (stream : option nat) (lines : list bytes) (w : World) :
  accepts stream lines w ->
  emit_lines stream lines w = (Ok tt, put stream lines w).
Proof.
  destruct stream as [h|]; cbn [accepts]; intros H.
  - rewrite emit_lines_stream by exact H. unfold put, set_files.
    cbn [put_log put_files log files fds pipes trace]. now rewrite app_nil_r.
  - rewrite emit_lines_log by exact H. reflexivity.
Qed.

Lemma update_pipe_emptied (fd n : nat) (ps : list Pipe) (p : Pipe) :
  pipe_of_reader fd ps = Some p ->
  (length (p_data p) <= n)%nat ->
  update_pipe (fun q => Nat.eqb (p_reader q) fd) (skipn n) ps
  = update_pipe (fun q => Nat.eqb (p_reader q) fd) (fun _ => []) ps.
Proof.
  unfold pipe_of_reader. induction ps as [|x rest IH]; cbn; [discriminate|].
  destruct (Nat.eqb (p_reader x) fd).
  - intros [= ->] Hn. now rewrite skipn_all2.
  - intros H Hn. now rewrite IH.
Qed.

Lemma update_pipe_empty_id (fd : nat) (ps : list Pipe) (p : Pipe) :
  pipe_of_reader fd ps = Some p ->
  p_data p = [] ->
  update_pipe (fun q => Nat.eqb (p_reader q) fd) (fun _ => []) ps = ps.
Proof.
  unfold pipe_of_reader. induction ps as [|x rest IH]; cbn; [discriminate|].
  destruct (Nat.eqb (p_reader x) fd).
  - intros [= ->] Hd. destruct p as [r wr d]. cbn in *. now subst d.
  - intros H Hd. now rewrite IH.
Qed.

(** [write] on a buffer that has been given the bytes [r], when the
    lines can be emitted: the buffer has been given [r ++ data]. *)
Lemma write_flow (stream : option nat) (r data : bytes) (w : World) :
  accepts stream (fst (cut (snd (cut r) ++ data))) w ->
  write data (with_pending (snd (cut r)) (LineBuffer_init stream), w) =
  (Ok tt,
   (with_pending (snd (cut (r ++ data))) (LineBuffer_init stream),
    put stream (fst (cut (snd (cut r) ++ data))) w)).
Proof.
  intros H. rewrite write_spec; [|reflexivity|apply cut_tail_no_nl].
  cbn [with_pending set_buffer _stream pending _buffer getvalue bio_value
       LineBuffer_init].
  rewrite emit_lines_put by exact H. rewrite (cut_app r data). reflexivity.
Qed.

(** [flush] on such a buffer, when the last line can be emitted. *)
Lemma flush_flow (stream : option nat) (r : bytes) (w : World) :
  let last_line := if truthy (snd (cut r)) then [snd (cut r)] else [] in
  accepts stream last_line w ->
  exists b',
    flush (with_pending (snd (cut r)) (LineBuffer_init stream), w) =
    (Ok tt, (b', put stream last_line w)).
Proof.
  intros last_line H. subst last_line. unfold flush.
  cbn [with_pending set_buffer _stream _buffer getvalue bio_value
       LineBuffer_init].
  destruct (truthy (snd (cut r))).
  - pose proof (emit_lines_put stream [snd (cut r)] w H) as He.
    cbn [emit_lines] in He. unfold bind, ret in He.
    change (_write_line (LineBuffer_init stream) (snd (cut r)) w)
      with (_write_line
              (mkLineBuffer stream
                 (mkBytesIO (snd (cut r)) (length (snd (cut r)))))
              (snd (cut r)) w) in He.
    destruct (_write_line _ (snd (cut r)) w) as [[[]|e|] w1];
      try discriminate.
    injection He as ->. eexists. reflexivity.
  - rewrite put_nil. eexists. reflexivity.
Qed.

Lemma set_buffer_of_same (buf : Which) (fr : Frame) :
  set_buffer_of buf (buffer_of buf fr) fr = fr.
Proof. now destruct buf, fr. Qed.

(** [_process] when the descriptor is open, the buffer has been given
    the bytes [r] and the lines that the bytes of the pipe complete can
    be emitted: the buffer has been given the bytes of the pipe too, and
    the pipe is empty. *)
Lemma _process_flow (fd : nat) (buf : Which) (fr : Frame) (w : World)
    (stream : option nat) (r : bytes) (p : Pipe) :
  is_open fd w = true ->
  pipe_of_reader fd (pipes w) = Some p ->
  buffer_of buf fr = with_pending (snd (cut r)) (LineBuffer_init stream) ->
  accepts stream (fst (cut (snd (cut r) ++ p_data p))) w ->
  exists tr,
    _process fd buf (fr, w) =
    (Ok tt,
     (set_buffer_of buf
        (with_pending (snd (cut (r ++ p_data p))) (LineBuffer_init stream)) fr,
      mkWorld
        (log w ++ put_log stream (fst (cut (snd (cut r) ++ p_data p))))
        (put_files stream (fst (cut (snd (cut r) ++ p_data p))) (files w))
        (fds w)
        (update_pipe (fun q => Nat.eqb (p_reader q) fd) (fun _ => []) (pipes w))
        tr)).
Proof.
  intros Ho Ep Hb Ha.
  unfold _process, _available, os_read. unfold_monad. rewrite Ho, Ep.
  destruct (p_data p) as [|c rest] eqn:Ed.
  - change (Z.of_nat (length (@nil byte)) >? 0) with false.
    rewrite !app_nil_r in *. rewrite (cut_no_nl (snd (cut r)))
      by apply cut_tail_no_nl.
    cbn [fst snd]. rewrite put_files_nil, <- Hb, set_buffer_of_same.
    rewrite (update_pipe_empty_id fd (pipes w) p Ep Ed).
    replace (put_log stream []) with (@nil string) by now destruct stream.
    rewrite app_nil_r. eexists. destruct w. reflexivity.
  - cbn [length].
    replace (Z.of_nat (S (length rest)) >? 0) with true
      by (symmetry; apply Z.gtb_lt; lia).
    unfold is_open in *. world_simpl. rewrite Ho, Ep, Ed.
    rewrite Nat2Z.id.
    change (S (length rest)) with (length (c :: rest)). rewrite firstn_all.
    unfold_monad. rewrite Hb.
    rewrite write_flow by (destruct stream; [|exact Ha];
                           cbn [accepts] in *;
                           apply (writable_same_shape _ w); [reflexivity|exact Ha]).
    cbn [fst snd]. unfold put.
    cbn [log files fds pipes trace set_trace set_pipes].
    rewrite (update_pipe_emptied fd _ (pipes w) p Ep) by (rewrite Ed; lia).
    eexists. reflexivity.
Qed.

Lemma accepts_current (stream : option nat) (lines : list bytes)
    (w0 w : World) :
  stream_ok stream w0 ->
  map shape (files w) = map shape (files w0) ->
  (stream = None -> Forall (fun l => utf8_valid l = true) lines) ->
  accepts stream lines w.
Proof.
  destruct stream as [h|]; cbn; intros H1 H2 H3; [|auto].
  now apply (writable_same_shape h w0).
Qed.

Lemma decodes_prefix (stream : option nat) (a b : bytes) :
  decodes stream (a ++ b) -> decodes stream a.
Proof.
  unfold decodes. intros H Hs. specialize (H Hs).
  rewrite cut_app in H. cbn [fst] in H. now apply Forall_app in H.
Qed.

Lemma decodes_next (stream : option nat) (a b : bytes) :
  decodes stream (a ++ b) ->
  stream = None ->
  Forall (fun l => utf8_valid l = true) (fst (cut (snd (cut a) ++ b))).
Proof.
  unfold decodes. intros H Hs. specialize (H Hs).
  rewrite cut_app in H. cbn [fst] in H. now apply Forall_app in H.
Qed.

Section Flow.

Variables stdout stderr : option nat.
Variables out_reader out_writer err_reader err_writer : nat.
Variable w0 : World.
Variable lg0 : list string.

Hypothesis distinct_streams :
  forall h, stdout = Some h -> stderr = Some h -> False.
Hypothesis distinct_readers : out_reader <> err_reader.
Hypothesis distinct_writers : out_writer <> err_writer.
Hypothesis stdout_ok : stream_ok stdout w0.
Hypothesis stderr_ok : stream_ok stderr w0.

Lemma carries_shape (ro po re pe : bytes) (s : Frame * World) :
  carries stdout stderr out_reader out_writer err_reader err_writer
    w0 lg0 ro po re pe s ->
  map shape (files (snd s)) = map shape (files w0).
Proof.
  intros (_ & _ & Hf & _). rewrite Hf. now rewrite !map_shape_put_files.
Qed.

Lemma carries_open (ro po re pe : bytes) (s : Frame * World) :
  carries stdout stderr out_reader out_writer err_reader err_writer
    w0 lg0 ro po re pe s ->
  is_open out_reader (snd s) = true /\ is_open err_reader (snd s) = true
  /\ is_open out_writer (snd s) = true /\ is_open err_writer (snd s) = true.
Proof.
  intros (_ & _ & _ & _ & Hd & _). unfold is_open. rewrite Hd. cbn [existsb].
  rewrite !Nat.eqb_refl, ?orb_true_r. repeat split; reflexivity.
Qed.

(** The child writes to the two pipes. *)
Lemma carries_child_write (ro po re pe a b : bytes) (fr : Frame) (w : World)
    (rc : option Z) (tr : list Event) :
  carries stdout stderr out_reader out_writer err_reader err_writer
    w0 lg0 ro po re pe (fr, w) ->
  carries stdout stderr out_reader out_writer err_reader err_writer
    w0 lg0 ro (po ++ a) re (pe ++ b)
    (set_returncode rc fr,
     set_trace tr (child_write err_writer b (child_write out_writer a w))).
Proof.
  intros (Hbo & Hbe & Hf & Hl & Hd & Hp). cbn [fst snd] in *.
  repeat split; try assumption.
  unfold child_write. cbn [pipes set_trace set_pipes]. rewrite Hp.
  cbn [update_pipe p_writer p_reader p_data].
  replace (Nat.eqb err_writer out_writer) with false
    by (symmetry; apply Nat.eqb_neq; congruence).
  rewrite !Nat.eqb_refl. cbn [update_pipe p_writer p_reader p_data].
  rewrite !Nat.eqb_refl. reflexivity.
Qed.

(** [_process] on the pipe of the standard output. *)
Lemma _process_out_carries (ro po re pe : bytes) (s : Frame * World) :
  carries stdout stderr out_reader out_writer err_reader err_writer
    w0 lg0 ro po re pe s ->
  decodes stdout (ro ++ po) ->
  exists s',
    _process out_reader Out s = (Ok tt, s')
    /\ carries stdout stderr out_reader out_writer err_reader err_writer
         w0 lg0 (ro ++ po) [] re pe s'
    /\ returncode (fst s') = returncode (fst s).
Proof.
  intros Hc Hv. pose proof (carries_shape _ _ _ _ _ Hc) as Hs.
  pose proof (carries_open _ _ _ _ _ Hc) as (Ho & _).
  destruct s as [fr w].
  destruct Hc as (Hbo & Hbe & Hf & (recs & Hl & Hi) & Hd & Hp).
  cbn [fst snd] in *.
  destruct (_process_flow out_reader Out fr w stdout ro
              (mkPipe out_reader out_writer po)) as (tr & E).
  - exact Ho.
  - rewrite Hp. unfold pipe_of_reader. cbn [List.find p_reader].
    replace (Nat.eqb err_reader out_reader) with false
      by (symmetry; apply Nat.eqb_neq; congruence).
    now rewrite Nat.eqb_refl.
  - exact Hbo.
  - apply (accepts_current _ _ w0); [exact stdout_ok|exact Hs|].
    now apply decodes_next.
  - cbn [p_data] in E. rewrite E. eexists. split; [reflexivity|].
    split; [|now destruct fr].
    repeat split; cbn [fst snd out_buffer err_buffer set_buffer_of
                       log files fds pipes].
    + exact Hbe.
    + rewrite Hf, <- put_files_app, (cut_app ro po). reflexivity.
    + exists (recs ++ put_log stdout (fst (cut (snd (cut ro) ++ po)))).
      rewrite Hl, app_assoc. split; [reflexivity|].
      rewrite (cut_app ro po). cbn [fst]. rewrite put_log_app.
      now apply interleaved_app_l.
    + exact Hd.
    + rewrite Hp. cbn [update_pipe p_reader p_writer].
      replace (Nat.eqb err_reader out_reader) with false
        by (symmetry; apply Nat.eqb_neq; congruence).
      now rewrite Nat.eqb_refl.
Qed.

(** [_process] on the pipe of the standard error. *)
Lemma _process_err_carries (ro po re pe : bytes) (s : Frame * World) :
  carries stdout stderr out_reader out_writer err_reader err_writer
    w0 lg0 ro po re pe s ->
  decodes stderr (re ++ pe) ->
  exists s',
    _process err_reader Err s = (Ok tt, s')
    /\ carries stdout stderr out_reader out_writer err_reader err_writer
         w0 lg0 ro po (re ++ pe) [] s'
    /\ returncode (fst s') = returncode (fst s).
Proof.
  intros Hc Hv. pose proof (carries_shape _ _ _ _ _ Hc) as Hs.
  pose proof (carries_open _ _ _ _ _ Hc) as (_ & Ho & _).
  destruct s as [fr w].
  destruct Hc as (Hbo & Hbe & Hf & (recs & Hl & Hi) & Hd & Hp).
  cbn [fst snd] in *.
  destruct (_process_flow err_reader Err fr w stderr re
              (mkPipe err_reader err_writer pe)) as (tr & E).
  - exact Ho.
  - rewrite Hp. unfold pipe_of_reader. cbn [List.find p_reader].
    now rewrite Nat.eqb_refl.
  - exact Hbe.
  - apply (accepts_current _ _ w0); [exact stderr_ok|exact Hs|].
    now apply decodes_next.
  - cbn [p_data] in E. rewrite E. eexists. split; [reflexivity|].
    split; [|now destruct fr].
    repeat split; cbn [fst snd out_buffer err_buffer set_buffer_of
                       log files fds pipes].
    + exact Hbo.
    + rewrite Hf.
      rewrite (put_files_comm stderr stdout)
        by (intros h H1 H2; exact (distinct_streams h H2 H1)).
      rewrite <- put_files_app, (cut_app re pe). reflexivity.
    + exists (recs ++ put_log stderr (fst (cut (snd (cut re) ++ pe)))).
      rewrite Hl, app_assoc. split; [reflexivity|].
      rewrite (cut_app re pe). cbn [fst]. rewrite put_log_app.
      now apply interleaved_app_r.
    + exact Hd.
    + rewrite Hp. cbn [update_pipe p_reader p_writer].
      now rewrite Nat.eqb_refl.
Qed.

Lemma flows_child_write (wo we a b : bytes) (fr : Frame) (w : World)
    (rc : option Z) (tr : list Event) :
  flows stdout stderr out_reader out_writer err_reader err_writer
    w0 lg0 wo we (fr, w) ->
  flows stdout stderr out_reader out_writer err_reader err_writer
    w0 lg0 (wo ++ a) (we ++ b)
    (set_returncode rc fr,
     set_trace tr (child_write err_writer b (child_write out_writer a w))).
Proof.
  intros (ro & po & re & pe & <- & <- & Hc).
  exists ro, (po ++ a), re, (pe ++ b).
  split; [apply app_assoc|split; [apply app_assoc|]].
  now apply carries_child_write.
Qed.

Lemma _process_flows (key : Which) (wo we : bytes) (s : Frame * World) :
  flows stdout stderr out_reader out_writer err_reader err_writer
    w0 lg0 wo we s ->
  decodes stdout wo -> decodes stderr we ->
  exists s',
    _process (fileobj out_reader err_reader key) key s = (Ok tt, s')
    /\ flows stdout stderr out_reader out_writer err_reader err_writer
         w0 lg0 wo we s'
    /\ returncode (fst s') = returncode (fst s).
Proof.
  intros (ro & po & re & pe & <- & <- & Hc) Ho He. destruct key; cbn [fileobj].
  - destruct (_process_out_carries _ _ _ _ _ Hc Ho) as (s' & E & Hc' & Hr).
    exists s'. repeat split; try assumption.
    exists (ro ++ po), [], re, pe. rewrite app_nil_r. auto.
  - destruct (_process_err_carries _ _ _ _ _ Hc He) as (s' & E & Hc' & Hr).
    exists s'. repeat split; try assumption.
    exists ro, po, (re ++ pe), []. rewrite app_nil_r. auto.
Qed.

Lemma process_events_flows (keys : list Which) (wo we : bytes) :
  decodes stdout wo -> decodes stderr we ->
  forall s : Frame * World,
    flows stdout stderr out_reader out_writer err_reader err_writer
      w0 lg0 wo we s ->
    exists s',
      process_events out_reader err_reader keys s = (Ok tt, s')
      /\ flows stdout stderr out_reader out_writer err_reader err_writer
           w0 lg0 wo we s'
      /\ returncode (fst s') = returncode (fst s).
Proof.
  intros Ho He. induction keys as [|key rest IH]; intros s Hf;
    cbn [process_events].
  - exists s. auto.
  - destruct (_process_flows key wo we s Hf Ho He) as (s1 & E1 & Hf1 & Hr1).
    destruct (IH s1 Hf1) as (s2 & E2 & Hf2 & Hr2).
    exists s2. unfold bind. rewrite E1, E2. repeat split; try assumption.
    congruence.
Qed.

(** The loop: when the child exits within the fuel, the loop returns,
    and what the child wrote is in the buffers and in the pipes. *)
Lemma drain_loop_flows (pf : Platform) (fuel : nat) :
  forall (n : nat) (s : Frame * World) (code : Z) (wo we : bytes),
    exit_status pf fuel n = Some code ->
    flows stdout stderr out_reader out_writer err_reader err_writer
      w0 lg0 wo we s ->
    decodes stdout (wo ++ fst (child_output pf fuel n)) ->
    decodes stderr (we ++ snd (child_output pf fuel n)) ->
    exists s',
      drain_loop pf out_reader out_writer err_reader err_writer fuel n s
      = (Ok tt, s')
      /\ flows stdout stderr out_reader out_writer err_reader err_writer
           w0 lg0 (wo ++ fst (child_output pf fuel n))
           (we ++ snd (child_output pf fuel n)) s'
      /\ returncode (fst s') = Some code.
Proof.
  induction fuel as [|fuel IH]; intros n [fr w] code wo we He Hf Ho Hr;
    cbn [exit_status drain_loop child_output] in *; [discriminate|].
  unfold bind at 1. rewrite select_eq.
  pose proof (flows_child_write wo we (fst (select_writes pf n))
                (snd (select_writes pf n)) fr w (returncode fr)
                (trace w ++ [ESelect (select_ready pf n)]) Hf) as Hf0.
  replace (set_returncode (returncode fr) fr) with fr in Hf0 by now destruct fr.
  assert (Ho1 : decodes stdout
                  ((wo ++ fst (select_writes pf n)) ++ fst (poll_writes pf n))
                /\ decodes stderr
                     ((we ++ snd (select_writes pf n)) ++ snd (poll_writes pf n))).
  { destruct (poll_status pf n); cbn [fst snd] in *;
      rewrite ?app_assoc in *; split;
      try assumption; eapply decodes_prefix; eassumption. }
  destruct Ho1 as [Ho1 Hr1].
  destruct (process_events_flows (select_ready pf n) _ _
              (decodes_prefix _ _ _ Ho1) (decodes_prefix _ _ _ Hr1) _ Hf0)
    as ([fr1 w1] & E1 & Hf1 & _).
  unfold bind at 1. rewrite E1. unfold bind at 1. rewrite poll_eq.
  pose proof (flows_child_write _ _ (fst (poll_writes pf n))
                (snd (poll_writes pf n)) fr1 w1 (poll_status pf n)
                (trace w1 ++ [EPoll (poll_status pf n)]) Hf1) as Hf2.
  destruct (poll_status pf n) as [c|]; cbn [fst snd] in *.
  - injection He as ->. eexists. split; [reflexivity|].
    rewrite !app_assoc. split; [exact Hf2|reflexivity].
  - rewrite !app_assoc in *. now apply IH.
Qed.

End Flow.

Lemma valid_lines_decodes (stream : option nat) (data : bytes) :
  valid_lines stream data -> decodes stream data.
Proof.
  unfold valid_lines, decodes. intros H Hs. specialize (H Hs).
  rewrite lines_of_cut in H. now apply Forall_app in H.
Qed.

Lemma valid_lines_last (stream : option nat) (data : bytes) :
  valid_lines stream data ->
  stream = None ->
  Forall (fun l => utf8_valid l = true)
    (if truthy (snd (cut data)) then [snd (cut data)] else []).
Proof.
  unfold valid_lines. intros H Hs. specialize (H Hs).
  rewrite lines_of_cut in H. now apply Forall_app in H.
Qed.

Lemma on_buffer_flush_flow (buf : Which) (fr : Frame) (w : World)
    (stream : option nat) (r : bytes) :
  buffer_of buf fr = with_pending (snd (cut r)) (LineBuffer_init stream) ->
  accepts stream (if truthy (snd (cut r)) then [snd (cut r)] else []) w ->
  exists fr',
    on_buffer buf flush (fr, w) =
    (Ok tt,
     (fr', put stream (if truthy (snd (cut r)) then [snd (cut r)] else []) w))
    /\ buffer_of match buf with Out => Err | Err => Out end fr'
       = buffer_of match buf with Out => Err | Err => Out end fr.
Proof.
  intros Hb Ha. destruct (flush_flow stream r w Ha) as (b' & E).
  unfold on_buffer, zoom. cbn [fst snd]. rewrite Hb, E. cbn [fst snd].
  eexists. split; [reflexivity|]. now destruct buf.
Qed.

Section AfterLoop.

Variables stdout stderr : option nat.
Variables out_reader out_writer err_reader err_writer : nat.
Variable w0 : World.
Variable lg0 : list string.

Hypothesis distinct_streams :
  forall h, stdout = Some h -> stderr = Some h -> False.
Hypothesis distinct_fds :
  NoDup [out_writer; out_reader; err_writer; err_reader].
Hypothesis stdout_ok : stream_ok stdout w0.
Hypothesis stderr_ok : stream_ok stderr w0.

(** [_run] from the start of the child on, when the child exits within
    the fuel and its lines can be emitted: it returns the exit status,
    all the lines of the child having been emitted, each to the stream of
    its buffer or to the log. *)
Lemma after_start_flows (pf : Platform) (fuel : nat) (s : Frame * World)
    (code : Z) :
  exit_status pf fuel 0 = Some code ->
  carries stdout stderr out_reader out_writer err_reader err_writer
    w0 lg0 [] [] [] [] s ->
  valid_lines stdout (fst (child_output pf fuel 0)) ->
  valid_lines stderr (snd (child_output pf fuel 0)) ->
  exists s',
    after_start pf fuel out_reader out_writer err_reader err_writer s
    = (Ok code, s')
    /\ files (snd s') =
       put_files stdout (lines_of (fst (child_output pf fuel 0)))
         (put_files stderr (lines_of (snd (child_output pf fuel 0)))
            (files w0))
    /\ (exists records,
           log (snd s') = lg0 ++ records
           /\ interleaved
                (put_log stdout (lines_of (fst (child_output pf fuel 0))))
                (put_log stderr (lines_of (snd (child_output pf fuel 0))))
                records)
    /\ fds (snd s') =
       filter (fun d => negb (Nat.eqb err_reader d))
         (filter (fun d => negb (Nat.eqb err_writer d))
            (filter (fun d => negb (Nat.eqb out_reader d))
               (filter (fun d => negb (Nat.eqb out_writer d))
                  (err_writer :: err_reader :: out_writer :: out_reader
                     :: fds w0)))).
Proof.
  intros He Hc Hvo Hve.
  set (out := fst (child_output pf fuel 0)) in *.
  set (err := snd (child_output pf fuel 0)) in *.
  pose proof distinct_fds as Hnd.
  apply NoDup_cons_iff in Hnd as [N1 Hnd]. apply NoDup_cons_iff in Hnd as [N2 Hnd].
  apply NoDup_cons_iff in Hnd as [N3 _]. cbn [In] in *.
  assert (Hr : out_reader <> err_reader) by intuition congruence.
  assert (Hw : out_writer <> err_writer) by intuition congruence.
  unfold after_start.
  destruct (drain_loop_flows stdout stderr out_reader out_writer err_reader
              err_writer w0 lg0 distinct_streams Hr Hw stdout_ok stderr_ok
              pf fuel 0 s code [] [] He)
    as ([fr1 w1] & E1 & (ro & po & re & pe & Eo & Ee & Hc1) & Hrc).
  { exists [], [], [], []. auto. }
  { now apply valid_lines_decodes. }
  { now apply valid_lines_decodes. }
  cbn [app] in Eo, Ee. fold out in Eo. fold err in Ee.
  rewrite (bind_ok _ _ _ _ _ E1).
  unfold bind at 1. cbn [in_world zoom tick modify fst snd].
  unfold bind at 1. unfold wait at 1. unfold bind at 1. cbn [get fst snd] in *.
  rewrite Hrc. unfold bind at 1. cbn [in_world zoom tick modify fst snd ret].
  match goal with
  | |- context [(fr1, ?W)] =>
      assert (Hc2 : carries stdout stderr out_reader out_writer err_reader
                      err_writer w0 lg0 ro po re pe (fr1, W)) by exact Hc1;
      destruct (_process_out_carries stdout stderr out_reader out_writer
                  err_reader err_writer w0 lg0 Hr stdout_ok
                  ro po re pe (fr1, W) Hc2) as (s3 & E3 & Hc3 & _)
  end.
  { rewrite Eo. now apply valid_lines_decodes. }
  rewrite (bind_ok _ _ _ _ _ E3).
  destruct (_process_err_carries stdout stderr out_reader out_writer
              err_reader err_writer w0 lg0 distinct_streams stderr_ok
              (ro ++ po) [] re pe s3 Hc3) as ([fr4 w4] & E4 & Hc4 & _).
  { rewrite Ee. now apply valid_lines_decodes. }
  rewrite (bind_ok _ _ _ _ _ E4). rewrite Eo, Ee in Hc4.
  pose proof (carries_shape _ _ _ _ _ _ _ _ _ _ _ _ _ Hc4) as Hs4.
  pose proof (carries_open _ _ _ _ _ _ _ _ _ _ _ _ _ Hc4) as (O1 & O2 & O3 & O4).
  destruct Hc4 as (Hbo & Hbe & Hf & (recs & Hl & Hi) & Hd & Hp).
  cbn [fst snd] in *. unfold is_open in O1, O2, O3, O4.
  do 4 (rewrite close_step
          by (unfold is_open; cbn [fds set_trace set_fds];
              repeat (apply existsb_filter_neq; [intuition congruence|]);
              assumption)).
  unfold bind at 1. cbn [in_world zoom tick modify fst snd].
  match goal with
  | |- context [(fr4, ?W)] =>
      destruct (on_buffer_flush_flow Out fr4 W stdout out Hbo)
        as (fr5 & E5 & Hb5)
  end.
  { apply (accepts_current _ _ w0); [exact stdout_ok|exact Hs4|].
    now apply valid_lines_last. }
  rewrite (bind_ok _ _ _ _ _ E5).
  unfold bind at 1. cbn [in_world zoom tick modify fst snd].
  match goal with
  | |- context [(fr5, ?W)] =>
      destruct (on_buffer_flush_flow Err fr5 W stderr err) as (fr6 & E6 & _)
  end.
  { cbn [buffer_of] in *. now rewrite Hb5. }
  { apply (accepts_current _ _ w0); [exact stderr_ok| |].
    - cbn [files put set_trace]. now rewrite map_shape_put_files.
    - now apply valid_lines_last. }
  rewrite (bind_ok _ _ _ _ _ E6). eexists. split; [reflexivity|].
  cbn [fst snd put files log fds set_trace set_fds].
  split; [|split].
  - rewrite Hf. rewrite !lines_of_cut.
    rewrite <- put_files_app.
    rewrite (put_files_comm stderr stdout)
      by (intros h H1 H2; exact (distinct_streams h H2 H1)).
    rewrite <- put_files_app. reflexivity.
  - eexists. rewrite Hl, <- !app_assoc. split; [reflexivity|].
    rewrite !lines_of_cut, !put_log_app, app_assoc.
    now apply interleaved_app_r, interleaved_app_l.
  - rewrite Hd. reflexivity.
Qed.

End AfterLoop.

Lemma accepts_stream_ok (stream : option nat) (lines : list bytes) (w : World) :
  accepts stream lines w -> stream_ok stream w.
Proof. destruct stream; cbn; auto. Qed.

Lemma accepts_valid_lines (stream : option nat) (data : bytes) (w : World) :
  accepts stream (lines_of data) w -> valid_lines stream data.
Proof. intros H ->. exact H. Qed.

(** [_run], when the child can be started, exits within the fuel, and
    its lines can be emitted. *)
Lemma _run_flows (pf : Platform) (self : Command) (fuel : nat)
    (args : list string) (stdin stdout stderr : option nat)
    (w : World) (code : Z) :
  spawn_ok pf args = true ->
  exit_status pf fuel 0 = Some code ->
  accepts stdout (lines_of (fst (child_output pf fuel 0))) w ->
  accepts stderr (lines_of (snd (child_output pf fuel 0))) w ->
  (forall h, stdout = Some h -> stderr = Some h -> False) ->
  exists w' records,
    _run pf self fuel args stdin stdout stderr w = (Ok code, w')
    /\ files w' =
       put_files stdout (lines_of (fst (child_output pf fuel 0)))
         (put_files stderr (lines_of (snd (child_output pf fuel 0)))
            (files w))
    /\ log w' =
       log w ++ [("Running command " ++ repr_list pf args)%string] ++ records
    /\ interleaved
         (put_log stdout (lines_of (fst (child_output pf fuel 0))))
         (put_log stderr (lines_of (snd (child_output pf fuel 0))))
         records
    /\ fds w' = fds w.
Proof.
  intros Hs He Ho Hr Hd. rewrite _run_eq, Hs.
  set (r1 := lowest_free (fds w)).
  set (w1 := lowest_free (r1 :: fds w)).
  set (r2 := lowest_free (w1 :: r1 :: fds w)).
  set (w2 := lowest_free (r2 :: w1 :: r1 :: fds w)).
  pose proof (lowest_free_fresh (r1 :: fds w)) as F2.
  pose proof (lowest_free_fresh (w1 :: r1 :: fds w)) as F3.
  pose proof (lowest_free_fresh (r2 :: w1 :: r1 :: fds w)) as F4.
  fold w1 in F2. fold r2 in F3. fold w2 in F4. cbn [In] in *.
  destruct (after_start_flows stdout stderr r1 w1 r2 w2 w
              (log w ++ [("Running command " ++ repr_list pf args)%string])
              Hd
              ltac:(repeat constructor; cbn [In]; intuition congruence)
              (accepts_stream_ok _ _ _ Ho) (accepts_stream_ok _ _ _ Hr)
              pf fuel
              (mkFrame (LineBuffer_init stdout) (LineBuffer_init stderr) None,
               started pf args w) code He)
    as ([fr' w'] & E & Hf & (records & Hl & Hi) & Hfd).
  - unfold carries, started. cbn [fst snd out_buffer err_buffer cut
                                   log files fds pipes].
    fold r1 w1 r2 w2. rewrite !put_files_nil.
    repeat split. exists []. rewrite app_nil_r. split; [reflexivity|].
    destruct stdout, stderr; constructor.
  - now apply (accepts_valid_lines _ _ w).
  - now apply (accepts_valid_lines _ _ w).
  - exists w', records. unfold with_locals. fold r1 w1 r2 w2. rewrite E.
    cbn [fst snd] in *. repeat split; try assumption.
    + now rewrite Hl, <- app_assoc.
    + rewrite Hfd. apply close_four.
Qed.

(** The unterminated tail of the data is not empty when the data does
    not end with a separator. *)
Lemma tail_truthy_last (data : bytes) :
  truthy (snd (cut data)) = negb (Byte.eqb (last data NL) NL).
Proof.
  induction data as [|c rest IH]; [reflexivity|].
  cbn [cut]. pose proof (cut_nil_tail rest) as Hn.
  destruct (cut rest) as [ls tl] eqn:Ec. cbn [fst snd] in *.
  destruct (Byte.eqb c NL) eqn:Eq; cbn [snd].
  - destruct rest as [|r rs]; [|exact IH].
    cbn in Ec. injection Ec as <- <-. cbn. now rewrite Eq.
  - destruct ls as [|l ls']; cbn [snd].
    + destruct rest as [|r rs]; [cbn; now rewrite Eq|].
      rewrite (Hn eq_refl) in IH. cbn [truthy] in *. exact IH.
    + destruct rest as [|r rs]; [discriminate Ec|exact IH].
Qed.

(** The lines of the data, each with its separator, are the data, with
    a separator at the end when it has none there. *)
Lemma lines_terminated (data : bytes) :
  flat_map (fun l => l ++ [NL]) (lines_of data) = terminated data.
Proof.
  unfold terminated. rewrite lines_of_cut, flat_map_app.
  pose proof (tail_truthy_last data) as Ht.
  pose proof (cut_join data) as Hj.
  destruct (Byte.eqb (last data NL) NL); cbn [negb] in Ht; rewrite Ht;
    cbn [flat_map app].
  - rewrite app_nil_r. destruct (snd (cut data)); [|discriminate].
    now rewrite app_nil_r in Hj.
  - rewrite app_nil_r, app_assoc. f_equal. exact Hj.
Qed.

Lemma written_put_files (stream : option nat) (lines : list bytes)
    (h : nat) (w : World) (fs : list FileObj) :
  writable h w ->
  map shape fs = map shape (files w) ->
  written h (set_files (put_files stream lines fs) w)
  = written h (set_files fs w)
    ++ (if match stream with
           | Some h' => Nat.eqb h' h
           | None => false
           end
        then flat_map (fun l => l ++ [NL]) lines
        else []).
Proof.
  intros Hw Hs.
  assert (Hw' : writable h (set_files fs w))
    by (apply (writable_same_shape h w); [exact Hs|exact Hw]).
  destruct stream as [h'|]; cbn [put_files]; [|now rewrite app_nil_r].
  destruct (Nat.eqb_spec h' h) as [->|Hne].
  - apply (written_update_nth h _ (set_files fs w) Hw').
  - unfold written. cbn [files set_files].
    rewrite nth_error_update_nth_other by congruence. now rewrite app_nil_r.
Qed.

(** X11.  When the child can be started and exits, and its lines can
    be emitted, [_run] returns its exit status and loses nothing of what
    it wrote, however the bytes came through the pipes: a stream given
    for the standard output or the standard error has received what the
    child wrote there, with a separator at the end when there was none;
    the log has received, after the command, the lines of the outputs
    that have no stream, one record each, those of each output in order;
    the descriptors are those of before. *)
Theorem _run_emits_every_line_of_the_child
    (pf : Platform) (self : Command) (fuel : nat) (args : list string)
    (stdin stdout stderr : option nat) (w : World) (code : Z) :
  let out := fst (child_output pf fuel 0) in
  let err := snd (child_output pf fuel 0) in
  spawn_ok pf args = true ->
  exit_status pf fuel 0 = Some code ->
  accepts stdout (lines_of out) w ->
  accepts stderr (lines_of err) w ->
  (forall h, stdout = Some h -> stderr = Some h -> False) ->
  exists w' records,
    _run pf self fuel args stdin stdout stderr w = (Ok code, w')
    /\ files w' =
       put_files stdout (lines_of out) (put_files stderr (lines_of err) (files w))
    /\ (forall h, stdout = Some h ->
                  written h w' = written h w ++ terminated out)
    /\ (forall h, stderr = Some h ->
                  written h w' = written h w ++ terminated err)
    /\ log w' =
       log w ++ [("Running command " ++ repr_list pf args)%string] ++ records
    /\ interleaved (put_log stdout (lines_of out)) (put_log stderr (lines_of err))
         records
    /\ (stderr <> None -> records = put_log stdout (lines_of out))
    /\ (stdout <> None -> records = put_log stderr (lines_of err))
    /\ fds w' = fds w.
Proof.
  intros out err Hs He Ho Hr Hd.
  destruct (_run_flows pf self fuel args stdin stdout stderr w code
              Hs He Ho Hr Hd) as (w' & records & E & Hf & Hl & Hi & Hfd).
  fold out err in Hf, Hi.
  assert (Heta : forall h, written h w' = written h (set_files (files w') w))
    by reflexivity.
  exists w', records. repeat split; try assumption.
  - intros h ->. cbn [accepts] in Ho.
    rewrite Heta, Hf, written_put_files, written_put_files;
      rewrite ?map_shape_put_files; try reflexivity; try assumption.
    rewrite Nat.eqb_refl, !lines_terminated.
    destruct stderr as [h'|]; cbv iota beta;
      [|rewrite app_nil_r; reflexivity].
    destruct (Nat.eqb_spec h' h) as [->|_]; [now destruct (Hd h)|].
    rewrite app_nil_r. reflexivity.
  - intros h ->. cbn [accepts] in Hr.
    rewrite Heta, Hf, written_put_files, written_put_files;
      rewrite ?map_shape_put_files; try reflexivity; try assumption.
    rewrite Nat.eqb_refl, !lines_terminated.
    destruct stdout as [h'|]; cbv iota beta;
      [|rewrite app_nil_r; reflexivity].
    destruct (Nat.eqb_spec h' h) as [->|_]; [now destruct (Hd h)|].
    rewrite app_nil_r. reflexivity.
  - intros Hn. apply (interleaved_nil_r_inv _ _ _ Hi).
    destruct stderr; [reflexivity|congruence].
  - intros Hn. apply (interleaved_nil_l_inv _ _ _ Hi).
    destruct stdout; [reflexivity|congruence].
Qed.

Lemma update_nth_app_new {A : Type} (f : A -> A) (l : list A) (k : nat)
    (r : list A) :
  update_nth (length l + k) f (l ++ r) = l ++ update_nth k f r.
Proof. now apply update_nth_app_plus. Qed.

Lemma writable_new_file (fs : list FileObj) (before : list FileObj)
    (p : string) (after : list FileObj) (w : World) :
  writable (length fs + length before)
    (set_files (fs ++ before ++ mkFileObj p Wb false [] :: after) w).
Proof.
  exists (mkFileObj p Wb false []). cbn [files set_files].
  rewrite app_assoc, nth_error_app2 by (rewrite length_app; lia).
  rewrite length_app, Nat.sub_diag. repeat split.
Qed.

(** X12.  [run], when the paths are different, the files can be opened
    and closed, the child can be started and exits, and the lines bound
    for the log are valid UTF-8: it returns the exit status; the file
    opened for the standard output and the one opened for the standard
    error have been written what the child wrote there, with a separator
    at the end when there was none, and nothing else; each output without
    file has gone to the log, one record for each line, after the
    command, which is made of the command of the constructor and the
    arguments; the files are closed and the descriptors are those of
    before.  [check] leaves the same files and log, and returns when the
    status is zero and raises when it is not. *)
Theorem run_delivers_the_output_of_the_child
    (pf : Platform) (self : Command) (fuel : nat) (args : list string)
    (stdin stdout stderr : option string) (w : World) (code : Z) :
  let out := fst (child_output pf fuel 0) in
  let err := snd (child_output pf fuel 0) in
  NoDup (map fst (plan stdin stdout stderr)) ->
  openable pf (plan stdin stdout stderr) = plan stdin stdout stderr ->
  closes_ok pf (plan stdin stdout stderr) = true ->
  spawn_ok pf (_command self ++ args) = true ->
  exit_status pf fuel 0 = Some code ->
  (stdout = None -> Forall (fun l => utf8_valid l = true) (lines_of out)) ->
  (stderr = None -> Forall (fun l => utf8_valid l = true) (lines_of err)) ->
  exists w' records,
    run pf self fuel args stdin stdout stderr w = (Ok code, w')
    /\ files w' =
       files w
       ++ match stdin with
          | Some p => [mkFileObj p Rb true []]
          | None => []
          end
       ++ match stdout with
          | Some p => [mkFileObj p Wb true (terminated out)]
          | None => []
          end
       ++ match stderr with
          | Some p => [mkFileObj p Wb true (terminated err)]
          | None => []
          end
    /\ log w' =
       log w
       ++ [("Running command " ++ repr_list pf (_command self ++ args))%string]
       ++ records
    /\ interleaved
         match stdout with
         | Some _ => []
         | None => map string_of_list_byte (lines_of out)
         end
         match stderr with
         | Some _ => []
         | None => map string_of_list_byte (lines_of err)
         end
         records
    /\ (stdout <> None -> stderr <> None -> records = [])
    /\ fds w' = fds w
    /\ check pf self fuel args stdin stdout stderr w =
       (if code =? 0 then Ok tt
        else Raise (Exception ("Command finished with exit code "
                               ++ str_of_int code)),
        w').
Proof.
  intros out err _ Hopen Hclose Hs He Hvo Hve. unfold check, bind.
  rewrite run_delegates_ok by assumption. unfold _args.
  set (n := length (files w)).
  match goal with
  | |- context [_run pf self fuel ?a ?i ?so ?se ?W] =>
      destruct (_run_flows pf self fuel a i so se W code Hs He)
        as (w' & records & E & Hf & Hl & Hi & Hd); [| | |rewrite E]
  end.
  - destruct stdout as [pout|]; cbn [handle accepts]; [|now apply Hvo].
    destruct stdin as [pin|], stderr as [perr|];
      cbn [given plan app map new_file fst snd Nat.add];
      rewrite ?Nat.add_0_r.
    + apply (writable_new_file (files w) [_] pout [_] w).
    + apply (writable_new_file (files w) [_] pout [] w).
    + rewrite <- (Nat.add_0_r n).
      apply (writable_new_file (files w) [] pout [_] w).
    + rewrite <- (Nat.add_0_r n).
      apply (writable_new_file (files w) [] pout [] w).
  - destruct stderr as [perr|]; cbn [handle accepts]; [|now apply Hve].
    destruct stdin as [pin|], stdout as [pout|];
      cbn [given plan app map new_file fst snd Nat.add];
      rewrite ?Nat.add_0_r.
    + apply (writable_new_file (files w) [_; _] perr [] w).
    + apply (writable_new_file (files w) [_] perr [] w).
    + apply (writable_new_file (files w) [_] perr [] w).
    + rewrite <- (Nat.add_0_r n).
      apply (writable_new_file (files w) [] perr [] w).
  - intros h H1 H2. destruct stdout, stderr; cbn [handle given] in *;
      try discriminate. injection H1 as <-. injection H2 as H2. lia.
  - fold out err in Hf, Hi.
    exists (set_files
              (close_seq
                 (somes [handle n 0 stdin; handle n (given stdin) stdout;
                         handle n (given stdin + given stdout) stderr])
                 (files w')) w'), records.
    split; [reflexivity|].
    cbn [files set_files log fds].
    split; [|split; [exact Hl|split; [|split; [|split; [exact Hd|]]]]].
    + rewrite Hf. subst n.
      destruct stdin as [pin|], stdout as [pout|], stderr as [perr|];
        cbn [given handle somes close_seq plan app map new_file Nat.add
             fst snd put_files files set_files];
        rewrite ?lines_terminated, ?Nat.add_0_r, ?app_nil_r;
        repeat (first [rewrite update_nth_app_new
                      |rewrite update_nth_app_length];
                cbn [update_nth Nat.add]);
        reflexivity.
    + destruct stdout, stderr; exact Hi.
    + intros H1 H2. destruct stdout, stderr; try congruence.
      cbn [handle put_log] in Hi. now inversion Hi.
    + destruct (code =? 0); reflexivity.
Qed.

(** ** The definitions on small inputs *)

Example find_first_separator :
  find (bytes_of "ab" ++ [NL] ++ bytes_of "c" ++ [NL]) NL = 2.
Proof. reflexivity. Qed.

Example find_no_separator : find (bytes_of "abc") NL = -1.
Proof. reflexivity. Qed.

Example lines_of_terminated :
  lines_of (bytes_of "a" ++ [NL]) = [bytes_of "a"].
Proof. reflexivity. Qed.

Example lines_of_unterminated :
  lines_of (bytes_of "a" ++ [NL; NL] ++ bytes_of "b")
  = [bytes_of "a"; []; bytes_of "b"].
Proof. reflexivity. Qed.

Example split_nl_terminated :
  split_nl (bytes_of "a" ++ [NL]) = [bytes_of "a"; []].
Proof. reflexivity. Qed.

Example decode_ascii : decode (bytes_of "hello") = Some "hello"%string.
Proof. reflexivity. Qed.

Example decode_two_bytes : utf8_valid [xc3; xa9] = true.
Proof. reflexivity. Qed.

Example decode_invalid : decode [xff] = None.
Proof. reflexivity. Qed.

Example decode_overlong : decode [xc0; x80] = None.
Proof. reflexivity. Qed.

Example decode_surrogate : decode [xed; xa0; x80] = None.
Proof. reflexivity. Qed.

Example str_of_int_negative : str_of_int (-9) = "-9"%string.
Proof. reflexivity. Qed.

(** A [poll] before the key that [select] reported was processed is not
    in order. *)
Example poll_before_processing_rejected :
  cycles_in_order 0 2 [ESelect [Out]; EPoll None] = false.
Proof. reflexivity. Qed.

Example poll_after_processing_accepted :
  cycles_in_order 0 2
    [ESelect [Out]; EAvailable 0 2; ERead 0 (bytes_of "he");
     EWrite Out (bytes_of "he"); EPoll None; ESelect []; EPoll (Some 0)]
  = true.
Proof. reflexivity. Qed.

(** A flush whose line does not decode raises and keeps the line. *)
Example flush_raising_keeps_pending :
  flush (with_pending [xff] (LineBuffer_init None), empty_world)
  = (Raise UnicodeDecodeError,
     (with_pending [xff] (LineBuffer_init None), empty_world)).
Proof. reflexivity. Qed.

(** [run] on a child that writes to both streams and exits with 3. *)
Example run_three :
  run pf_three ls 5 ["-l"%string] None (Some "out.txt"%string) None empty_world
  = (Ok 3,
     mkWorld
       ["Running command ['ls', '-l']"%string; "x"%string]
       [mkFileObj "out.txt" Wb true
          (bytes_of "hello" ++ [NL] ++ bytes_of "world" ++ [NL])]
       []
       [mkPipe 2 3 []; mkPipe 0 1 []]
       [EPipe 0 1; EPipe 2 3; ESelector; ERegister 0 Out; ERegister 2 Err;
        EPopen ["ls"%string; "-l"%string];
        ESelect [Out]; EAvailable 0 2; ERead 0 (bytes_of "he");
        EWrite Out (bytes_of "he"); EPoll None;
        ESelect [Err; Out]; EAvailable 2 1; ERead 2 (bytes_of "x");
        EWrite Err (bytes_of "x"); EAvailable 0 7;
        ERead 0 (bytes_of "llo" ++ [NL] ++ bytes_of "wor");
        EWrite Out (bytes_of "llo" ++ [NL] ++ bytes_of "wor");
        EPoll (Some 3); ESelectorClose; EWait 3;
        EAvailable 0 2; ERead 0 (bytes_of "ld"); EWrite Out (bytes_of "ld");
        EAvailable 2 1; ERead 2 [NL]; EWrite Err [NL];
        EClose 1; EClose 0; EClose 3; EClose 2; EFlush Out; EFlush Err]).
Proof. vm_compute. reflexivity. Qed.

(** When a later file cannot be opened, the file opened before it is
    closed, and the exception is that of [close] on the path. *)
Example run_open_failure :
  run pf_nospawn ls 5 [] (Some "in"%string) (Some "bad"%string)
    (Some "err"%string) empty_world
  = (Raise AttributeError,
     mkWorld [] [mkFileObj "in" Rb true []] [] [] []).
Proof. vm_compute. reflexivity. Qed.

(** ** The properties at concrete inputs *)

Lemma write_chunks_flush_emits_lines_witness :
  observed
    ((write_all [bytes_of "ab" ++ [NL] ++ bytes_of "cd";
                 bytes_of "e" ++ [NL; NL] ++ bytes_of "f"] ;; flush)
       (LineBuffer_init (Some 0%nat), one_stream))
  = (Ok tt,
     set_files
       [mkFileObj "s" Wb false
          (bytes_of "ab" ++ [NL] ++ bytes_of "cde" ++ [NL; NL]
           ++ bytes_of "f" ++ [NL])]
       one_stream).
Proof.
  destruct (write_chunks_flush_emits_lines (Some 0%nat)
              [bytes_of "ab" ++ [NL] ++ bytes_of "cd";
               bytes_of "e" ++ [NL; NL] ++ bytes_of "f"] one_stream)
    as (_ & _ & H & _).
  rewrite (H 0%nat eq_refl).
  - reflexivity.
  - exists (mkFileObj "s" Wb false []). repeat split.
Defined.

Lemma _write_line_emits_witness :
  _write_line (LineBuffer_init (Some 0%nat)) (bytes_of "ab") one_stream
  = (Ok tt,
     set_files [mkFileObj "s" Wb false (bytes_of "ab" ++ [NL])] one_stream).
Proof.
  pose proof (_write_line_emits (LineBuffer_init (Some 0%nat)) (bytes_of "ab")
                one_stream) as H.
  cbn [_stream LineBuffer_init] in H. destruct H as [_ H].
  rewrite H.
  - reflexivity.
  - exists (mkFileObj "s" Wb false []). repeat split.
Defined.

(** C8 as stated has the pending bytes empty after every call of
    [flush]; after a [flush] whose line cannot be emitted they are still
    there, and a second [flush] emits them once the log or the stream
    takes them. *)
Lemma flush_that_raises_keeps_the_pending_bytes :
  reachable (fst (snd (write [xff] (LineBuffer_init None, empty_world))))
  /\ fst (flush (fst (snd (write [xff] (LineBuffer_init None, empty_world))),
               empty_world))
     = Raise UnicodeDecodeError
  /\ pending
       (fst (snd (flush
                    (fst (snd (write [xff]
                                 (LineBuffer_init None, empty_world))),
                     empty_world))))
     = [xff].
Proof.
  split; [apply reach_write, reach_init|]. split; reflexivity.
Qed.

Lemma pending_invariant_witness :
  no_nl
    (pending
       (fst (snd (write (bytes_of "ab" ++ [NL] ++ bytes_of "cd")
                    (fst (snd (write (bytes_of "x")
                                 (LineBuffer_init None, empty_world))),
                     empty_world))))).
Proof.
  apply (pending_invariant
           (fst (snd (write (bytes_of "x") (LineBuffer_init None, empty_world))))).
  apply reach_write, reach_init.
Defined.

Lemma spawn_failure_leaves_pipes_open_witness :
  _run pf_nospawn ls 5 ["ls"%string] None None None empty_world
  = (Raise OSError,
     mkWorld ["Running command ['ls']"%string] [] [3; 2; 1; 0]%nat
       [mkPipe 2 3 []; mkPipe 0 1 []]
       [EPipe 0 1; EPipe 2 3; ESelector; ERegister 0 Out; ERegister 2 Err;
        EPopen ["ls"%string]])
  /\ fds (snd (_run pf_nospawn ls 5 ["ls"%string] None None None empty_world))
     = [3; 2; 1; 0]%nat.
Proof.
  split; [vm_compute; reflexivity|].
  apply (spawn_failure_leaves_pipes_open pf_nospawn ls 5 ["ls"%string]
           None None None empty_world eq_refl).
Defined.

(** C3 as stated has the final drain before [wait]; on this run [wait]
    comes first, so the order drain, wait, close, flush is not the one of
    the code. *)
Lemma _run_drains_after_wait :
  steps_after_exit
    (calls_since empty_world
       (snd (_run pf_three ls 5 ["ls"%string] None None None empty_world)))
  <> [PDrain; PWait; PClose; PFlush].
Proof. vm_compute. discriminate. Qed.

Lemma _run_steps_after_exit_witness :
  steps_after_exit
    (calls_since empty_world
       (snd (_run pf_three ls 5 ["ls"%string] None None None empty_world)))
  = [PWait; PDrain; PClose; PFlush].
Proof.
  refine (proj1 (_run_steps_after_exit pf_three ls 5 ["ls"%string]
                   None None None empty_world _ 3 _)).
  vm_compute. reflexivity.
Defined.

Lemma run_returns_status_check_raises_nonzero_witness :
  fst (run pf_three ls 5 [] None (Some "out"%string) (Some "err"%string)
         empty_world) = Ok 3
  /\ fst (check pf_three ls 5 [] None (Some "out"%string) (Some "err"%string)
            empty_world)
     = Raise (Exception "Command finished with exit code 3").
Proof.
  destruct (run_returns_status_check_raises_nonzero pf_three ls 5 []
              None (Some "out"%string) (Some "err"%string) empty_world)
    as (_ & _ & Hc & _ & Hd).
  assert (H : fst (run pf_three ls 5 [] None (Some "out"%string)
                     (Some "err"%string) empty_world) = Ok 3)
    by exact (Hc "out"%string "err"%string 3 eq_refl eq_refl eq_refl eq_refl
                eq_refl).
  split; [exact H|]. rewrite Hd, H. reflexivity.
Defined.

Lemma eval_returns_output_or_raises_witness :
  fst (eval pf_hello ls ["-l"%string] empty_world)
  = Ok (string_of_list_byte (bytes_of "hello" ++ [NL]))
  /\ fst (eval pf_three ls ["-l"%string] empty_world)
     = Raise (Exception "Command 'ls -l' finished with exit code 2").
Proof.
  split.
  - apply (proj1 (eval_returns_output_or_raises pf_hello ls ["-l"%string]
                    empty_world (bytes_of "hello" ++ [NL]) [] 0
                    eq_refl eq_refl)).
    reflexivity.
  - apply (proj1 (proj2 (eval_returns_output_or_raises pf_three ls
                           ["-l"%string] empty_world
                           (bytes_of "hello" ++ [NL]) (bytes_of "oops") 2
                           eq_refl eq_refl))).
    discriminate.
Defined.

(** The [close] of the file of the standard output fails: the file of
    the standard error, opened after it, is left open, and the error of
    the [close] replaces the exit status. *)
Example run_close_failure_leaves_file_open :
  fst (run pf_noclose ls 5 [] None (Some "out"%string) (Some "err"%string)
         empty_world) = Raise OSError
  /\ map shape
       (files (snd (run pf_noclose ls 5 [] None (Some "out"%string)
                      (Some "err"%string) empty_world)))
     = [("out"%string, Wb, true); ("err"%string, Wb, false)].
Proof. split; vm_compute; reflexivity. Qed.

Lemma run_closes_the_files_it_opened_witness :
  map shape
    (files (snd (run pf_noclose ls 5 [] None (Some "out"%string)
                   (Some "err"%string) empty_world)))
  = [("out"%string, Wb, true); ("err"%string, Wb, false)].
Proof.
  apply (proj1 (run_closes_the_files_it_opened pf_noclose ls 5 []
                  None (Some "out"%string) (Some "err"%string) empty_world)).
  vm_compute. discriminate.
Defined.

(** ** More properties at concrete inputs *)

(** A line that does not decode stops [_run] in the loop: the four
    descriptors of the pipes are left open. *)
Example _run_decode_failure_leaves_pipes_open :
  _run pf_garbage ls 5 ["ls"%string] None None None empty_world
  = (Raise UnicodeDecodeError,
     mkWorld ["Running command ['ls']"%string] [] [3; 2; 1; 0]%nat
       [mkPipe 2 3 []; mkPipe 0 1 []]
       [EPipe 0 1; EPipe 2 3; ESelector; ERegister 0 Out; ERegister 2 Err;
        EPopen ["ls"%string]; ESelect [Out]; EAvailable 0 2;
        ERead 0 [xff; NL]; EWrite Out [xff; NL]]).
Proof. vm_compute. reflexivity. Qed.

Example terminated_adds_separator :
  terminated (bytes_of "ab") = bytes_of "ab" ++ [NL]
  /\ terminated (bytes_of "ab" ++ [NL]) = bytes_of "ab" ++ [NL]
  /\ terminated [] = [].
Proof. repeat split. Qed.

Example child_output_three :
  child_output pf_three 5 0
  = (bytes_of "hello" ++ [NL] ++ bytes_of "world", bytes_of "x" ++ [NL]).
Proof. reflexivity. Qed.

Lemma write_app_is_write_twice_witness :
  write (bytes_of "ab" ++ [NL] ++ bytes_of "c")
    (LineBuffer_init None, empty_world)
  = (write (bytes_of "ab") ;; write ([NL] ++ bytes_of "c"))
      (LineBuffer_init None, empty_world).
Proof.
  apply (write_app_is_write_twice (LineBuffer_init None) (bytes_of "ab")
           ([NL] ++ bytes_of "c") empty_world).
  apply reach_init.
Defined.

Lemma write_without_separator_only_buffers_witness :
  write (bytes_of "cd")
    (fst (snd (write (bytes_of "ab") (LineBuffer_init None, empty_world))),
     empty_world)
  = (Ok tt, (with_pending (bytes_of "abcd") (LineBuffer_init None), empty_world)).
Proof.
  rewrite (write_without_separator_only_buffers
             (fst (snd (write (bytes_of "ab")
                          (LineBuffer_init None, empty_world))))
             (bytes_of "cd") empty_world).
  - reflexivity.
  - apply reach_write, reach_init.
  - vm_compute. intros [H|[H|[]]]; discriminate H.
Defined.

Lemma stream_and_pending_hold_the_bytes_witness :
  exists self' w' e,
    write (bytes_of "ab" ++ [NL] ++ bytes_of "c")
      (LineBuffer_init (Some 0%nat), one_stream) = (Ok tt, (self', w'))
    /\ written 0 w' = written 0 one_stream ++ e
    /\ e ++ pending self'
       = pending (LineBuffer_init (Some 0%nat))
         ++ bytes_of "ab" ++ [NL] ++ bytes_of "c"
    /\ last e NL = NL
    /\ no_nl (pending self')
    /\ log w' = log one_stream
    /\ forall h', h' <> 0%nat ->
                  nth_error (files w') h' = nth_error (files one_stream) h'.
Proof.
  apply (stream_and_pending_hold_the_bytes (LineBuffer_init (Some 0%nat)) 0
           (bytes_of "ab" ++ [NL] ++ bytes_of "c") one_stream).
  - apply reach_init.
  - reflexivity.
  - exists (mkFileObj "s" Wb false []). repeat split.
Defined.

Lemma write_error_drops_pending_flush_error_keeps_witness :
  pending
    (fst (snd (write [xff; NL]
                 (fst (snd (write (bytes_of "ab")
                              (LineBuffer_init None, empty_world))),
                  empty_world))))
  = [].
Proof.
  refine (proj1 (write_error_drops_pending_flush_error_keeps
                   (fst (snd (write (bytes_of "ab")
                                (LineBuffer_init None, empty_world))))
                   empty_world _)
            [xff; NL] UnicodeDecodeError _ empty_world _).
  - apply reach_write, reach_init.
  - vm_compute. reflexivity.
Defined.

Lemma flush_is_write_of_separator_witness :
  observed
    (flush (fst (snd (write (bytes_of "ab")
                        (LineBuffer_init None, empty_world))),
            empty_world))
  = observed
      (write [NL] (fst (snd (write (bytes_of "ab")
                               (LineBuffer_init None, empty_world))),
                   empty_world)).
Proof.
  apply (flush_is_write_of_separator
           (fst (snd (write (bytes_of "ab")
                        (LineBuffer_init None, empty_world))))
           empty_world).
  - apply reach_write, reach_init.
  - vm_compute. discriminate.
Defined.

Lemma write_log_stops_at_undecodable_line_witness :
  exists self',
    write (bytes_of "ok" ++ [NL] ++ [xff] ++ [NL] ++ bytes_of "z")
      (LineBuffer_init None, empty_world)
    = (Raise UnicodeDecodeError,
       (self', set_log (log empty_world
                        ++ map string_of_list_byte [bytes_of "ok"])
                 empty_world))
    /\ pending self' = [].
Proof.
  apply (write_log_stops_at_undecodable_line (LineBuffer_init None)
           (bytes_of "ok" ++ [NL] ++ [xff] ++ [NL] ++ bytes_of "z")
           empty_world [bytes_of "ok"] [xff] (bytes_of "z")).
  - apply reach_init.
  - reflexivity.
  - repeat constructor. vm_compute. intros [H|[H|[]]]; discriminate H.
  - repeat constructor.
  - vm_compute. intros [H|[]]. discriminate H.
  - reflexivity.
  - reflexivity.
Defined.

Lemma run_unopenable_path_raises_AttributeError_witness :
  fst (run pf_nospawn ls 5 [] (Some "in"%string) (Some "bad"%string)
         (Some "err"%string) empty_world)
  = Raise AttributeError.
Proof.
  apply (run_unopenable_path_raises_AttributeError pf_nospawn ls 5 []
           (Some "in"%string) (Some "bad"%string) (Some "err"%string)
           empty_world).
  vm_compute. discriminate.
Defined.

Lemma _run_emits_every_line_of_the_child_witness :
  exists w' records,
    _run pf_three ls 5 ["ls"%string] None None (Some 0%nat) one_stream
    = (Ok 3, w')
    /\ written 0 w' = bytes_of "x" ++ [NL]
    /\ records = ["hello"%string; "world"%string].
Proof.
  destruct (_run_emits_every_line_of_the_child pf_three ls 5 ["ls"%string]
              None None (Some 0%nat) one_stream 3)
    as (w' & records & E & _ & _ & Hw & _ & _ & Hrec & _ & _).
  - reflexivity.
  - reflexivity.
  - vm_compute. repeat constructor.
  - exists (mkFileObj "s" Wb false []). repeat split.
  - discriminate.
  - exists w', records. split; [exact E|]. split.
    + rewrite (Hw 0%nat eq_refl). reflexivity.
    + rewrite Hrec by discriminate. reflexivity.
Defined.

Lemma run_delivers_the_output_of_the_child_witness :
  exists w',
    run pf_three ls 5 ["-l"%string] None (Some "out.txt"%string) None
      empty_world = (Ok 3, w')
    /\ files w' =
       [mkFileObj "out.txt" Wb true
          (bytes_of "hello" ++ [NL] ++ bytes_of "world" ++ [NL])]
    /\ log w' = ["Running command ['ls', '-l']"%string; "x"%string]
    /\ check pf_three ls 5 ["-l"%string] None (Some "out.txt"%string) None
         empty_world
       = (Raise (Exception "Command finished with exit code 3"), w').
Proof.
  destruct (run_delivers_the_output_of_the_child pf_three ls 5 ["-l"%string]
              None (Some "out.txt"%string) None empty_world 3)
    as (w' & records & E & Hf & Hl & Hi & _ & _ & Hc).
  - repeat constructor. intros [].
  - reflexivity.
  - reflexivity.
  - reflexivity.
  - reflexivity.
  - discriminate.
  - intros _. vm_compute. repeat constructor.
  - exists w'. split; [exact E|]. split; [exact Hf|]. split; [|exact Hc].
    rewrite Hl. now rewrite (interleaved_nil_l_inv _ _ _ Hi eq_refl).
Defined.
